(** * Minutas: the document parser, the two output encodings and the session
      controller of [App.tsx], with the service wrappers of
      [services/geminiService]

    JavaScript strings are sequences of UTF-16 code units; they are modelled
    as [list N].  String literals of the source are written with [str] when
    they are ASCII and with explicit code units otherwise.

    The file has three parts: the embedding (string primitives, the regular
    expressions, the parser, the two renderers, the service wrappers and the
    session handlers), the notions in which the properties are stated, and
    the properties with their proofs. *)

From Stdlib Require Import String Ascii.
From Stdlib Require Import List NArith Bool Arith Lia.
Import ListNotations.


(* ================================================================== *)
(** * JavaScript string primitives used by the source                  *)
(* ================================================================== *)

Module JSString.

Definition jsstring := list N.

(** An ASCII literal as code units. *)
Definition str (s : string) : jsstring :=
  map N_of_ascii (list_ascii_of_string s).
Arguments str s%_string.

(** The line feed, written [\n] in the source. *)
Definition LF : N := 10%N.

(** ECMAScript [WhiteSpace]: TAB, VT, FF, ZWNBSP and the space separators. *)
Definition isWhiteSpace (c : N) : bool :=
  ((c =? 9) || (c =? 11) || (c =? 12) || (c =? 32) || (c =? 160)
   || (c =? 5760) || ((8192 <=? c) && (c <=? 8202)) || (c =? 8239)
   || (c =? 8287) || (c =? 12288) || (c =? 65279))%N.

(** ECMAScript [LineTerminator]: LF, CR, LS, PS. *)
Definition isLineTerminator (c : N) : bool :=
  ((c =? 10) || (c =? 13) || (c =? 8232) || (c =? 8233))%N.

(** What [String.prototype.trim] strips and what [\s] matches. *)
Definition isWS (c : N) : bool := isWhiteSpace c || isLineTerminator c.

Fixpoint dropWhile (p : N -> bool) (s : jsstring) : jsstring :=
  match s with
  | [] => []
  | c :: s' => if p c then dropWhile p s' else s
  end.

Definition trimStart (s : jsstring) : jsstring := dropWhile isWS s.
Definition trimEnd (s : jsstring) : jsstring := rev (dropWhile isWS (rev s)).

(** [s.trim()] *)
Definition trim (s : jsstring) : jsstring := trimEnd (trimStart s).

(** Truthiness of a string: [if (s)] holds for the non-empty ones. *)
Definition truthy (s : jsstring) : bool :=
  match s with [] => false | _ :: _ => true end.

(** [line.trim() !== ''] *)
Definition nonBlank (s : jsstring) : bool := truthy (trim s).

Fixpoint eqs (a b : jsstring) : bool :=
  match a, b with
  | [], [] => true
  | x :: a', y :: b' => (x =? y)%N && eqs a' b'
  | _, _ => false
  end.

(** [s.startsWith(p)] *)
Fixpoint startsWith (p s : jsstring) : bool :=
  match p with
  | [] => true
  | x :: p' =>
      match s with
      | [] => false
      | y :: s' => (x =? y)%N && startsWith p' s'
      end
  end.

(** [s.includes(sub)] *)
Fixpoint includes (sub s : jsstring) : bool :=
  startsWith sub s ||
  match s with
  | [] => false
  | _ :: s' => includes sub s'
  end.

(** [s.replace(pat, rep)] with a string pattern: the first occurrence only. *)
Fixpoint replaceStr (pat rep s : jsstring) : jsstring :=
  if startsWith pat s then rep ++ skipn (length pat) s
  else match s with
       | [] => []
       | c :: s' => c :: replaceStr pat rep s'
       end.

(** [s.split(sep)] for a non-empty separator string.  [skip] counts the code
    units of a separator occurrence still to be passed over, [cur] holds the
    current piece in reverse. *)
Fixpoint split_go (sep : jsstring) (skip : nat) (cur : jsstring)
         (s : jsstring) : list jsstring :=
  match s with
  | [] => [rev cur]
  | c :: s' =>
      match skip with
      | S k => split_go sep k cur s'
      | O =>
          if startsWith sep s
          then rev cur :: split_go sep (length sep - 1) [] s'
          else split_go sep 0 (c :: cur) s'
      end
  end.

Definition split (sep s : jsstring) : list jsstring := split_go sep 0 [] s.

(** [parts.join(sep)] *)
Fixpoint join (sep : jsstring) (parts : list jsstring) : jsstring :=
  match parts with
  | [] => []
  | p :: rest =>
      match rest with
      | [] => p
      | _ :: _ => p ++ sep ++ join sep rest
      end
  end.

End JSString.
Import JSString.

(* ================================================================== *)
(** * DocumentParser: summary and body                                 *)
(* ================================================================== *)

Module Parser.

Definition delimiter : jsstring := Eval cbv in str "---".

(** [const [summary, ...markdownParts] = minutes.split('---')] *)
Definition summaryPart (minutes : jsstring) : jsstring :=
  hd [] (split delimiter minutes).

Definition markdownParts (minutes : jsstring) : list jsstring :=
  tl (split delimiter minutes).

(** [const rawMarkdown = markdownParts.join('---').trim()], the same value as
    [minutes.split('---').slice(1).join('---').trim()] of [handleCopy]. *)
Definition rawMarkdown (minutes : jsstring) : jsstring :=
  trim (join delimiter (markdownParts minutes)).

(** [minutes.split('---')[0].trim()] of [handleCopySummary]; the Done view and
    the webhook payload show [summary.trim()] too. *)
Definition summaryText (minutes : jsstring) : jsstring :=
  trim (summaryPart minutes).

Definition splitSummaryAndBody (minutes : jsstring) : jsstring * jsstring :=
  (summaryText minutes, rawMarkdown minutes).

End Parser.
Import Parser.


(* ================================================================== *)
(** * The regular expressions of the source                            *)
(* ================================================================== *)

(** A backtracking matcher for the fragment of ECMAScript patterns that
    [App.tsx] uses: literals, classes, [*] and [*?] over a class, [?],
    alternation, one capturing group, [^] (no [m] flag) and [(?=...)]. *)

Module RegExp.

Inductive regex : Type :=
| Chr (p : N -> bool)        (* one code unit of the class [p] *)
| Lit (l : jsstring)         (* a literal sequence *)
| Cat (r1 r2 : regex)
| Alt (r1 r2 : regex)        (* r1|r2 *)
| Star (p : N -> bool)       (* p*, greedy *)
| StarLazy (p : N -> bool)   (* p*?, lazy *)
| Opt (r : regex)            (* r?, greedy *)
| Group (r : regex)          (* (r), capturing group 1 *)
| Bos                        (* ^ *)
| Ahead (r : regex).         (* (?=r) *)

Infix "+++" := Cat (right associativity, at level 60).

(** The text of group 1, [None] while it has not taken part in the match. *)
Definition capture := option jsstring.

(** End position of the match and group 1. *)
Definition result := option (nat * capture).

(** Continuations take the position reached, the input that remains there
    and the capture. *)
Definition cont := nat -> jsstring -> capture -> result.

Definition orElse (a : result) (b : result) : result :=
  match a with
  | Some x => Some x
  | None => b
  end.

Fixpoint starGreedy (p : N -> bool) (pos : nat) (s : jsstring)
         (cap : capture) (k : cont) : result :=
  match s with
  | c :: s' =>
      if p c then orElse (starGreedy p (S pos) s' cap k) (k pos s cap)
      else k pos s cap
  | [] => k pos s cap
  end.

Fixpoint starLazy (p : N -> bool) (pos : nat) (s : jsstring)
         (cap : capture) (k : cont) : result :=
  orElse (k pos s cap)
         match s with
         | c :: s' => if p c then starLazy p (S pos) s' cap k else None
         | [] => None
         end.

Fixpoint run (r : regex) (pos : nat) (s : jsstring) (cap : capture)
         (k : cont) : result :=
  match r with
  | Chr p =>
      match s with
      | c :: s' => if p c then k (S pos) s' cap else None
      | [] => None
      end
  | Lit l =>
      if startsWith l s then k (pos + length l) (skipn (length l) s) cap
      else None
  | Cat r1 r2 => run r1 pos s cap (fun pos' s' cap' => run r2 pos' s' cap' k)
  | Alt r1 r2 => orElse (run r1 pos s cap k) (run r2 pos s cap k)
  | Star p => starGreedy p pos s cap k
  | StarLazy p => starLazy p pos s cap k
  | Opt r1 => orElse (run r1 pos s cap k) (k pos s cap)
  | Group r1 =>
      run r1 pos s cap
          (fun pos' s' _ => k pos' s' (Some (firstn (pos' - pos) s)))
  | Bos => if Nat.eqb pos 0 then k pos s cap else None
  | Ahead r1 =>
      match run r1 pos s cap (fun pos' _ cap' => Some (pos', cap')) with
      | Some (_, cap') => k pos s cap'
      | None => None
      end
  end.

(** A match that starts exactly at [pos], where [s] is the input from [pos]
    on: the number of code units matched and group 1. *)
Definition matchAt (r : regex) (pos : nat) (s : jsstring)
  : option (nat * capture) :=
  match run r pos s None (fun pos' _ cap => Some (pos', cap)) with
  | Some (e, cap) => Some (e - pos, cap)
  | None => None
  end.

(** The leftmost match at or after [pos]: start, length and group 1. *)
Fixpoint search (r : regex) (pos : nat) (s : jsstring)
  : option (nat * nat * capture) :=
  match matchAt r pos s with
  | Some (len, cap) => Some (pos, len, cap)
  | None =>
      match s with
      | [] => None
      | _ :: s' => search r (S pos) s'
      end
  end.

(** [$1] in a replacement and [m[1]] of a match. *)
Definition capText (c : capture) : jsstring :=
  match c with
  | Some t => t
  | None => []
  end.

(** [s.match(r)] used as a condition. *)
Definition test (r : regex) (s : jsstring) : bool :=
  match search r 0 s with
  | Some _ => true
  | None => false
  end.

(** [s.replace(r, rep)] without the [g] flag. *)
Definition replaceFirst (r : regex) (rep : capture -> jsstring)
           (s : jsstring) : jsstring :=
  match search r 0 s with
  | Some (i, len, cap) => firstn i s ++ rep cap ++ skipn (i + len) s
  | None => s
  end.

(** [s.replace(r, rep)] with the [g] flag; [skip] counts the code units of
    the last match still to be passed over.  After an empty match the next
    code unit is copied and the scan moves on by one. *)
Fixpoint replaceAll_go (r : regex) (rep : capture -> jsstring)
         (pos skip : nat) (s : jsstring) {struct s} : jsstring :=
  match skip with
  | S k =>
      match s with
      | [] => []
      | _ :: s' => replaceAll_go r rep (S pos) k s'
      end
  | O =>
      match matchAt r pos s with
      | Some (len, cap) =>
          rep cap ++
          match s with
          | [] => []
          | c :: s' =>
              match len with
              | O => c :: replaceAll_go r rep (S pos) 0 s'
              | S k => replaceAll_go r rep (S pos) k s'
              end
          end
      | None =>
          match s with
          | [] => []
          | c :: s' => c :: replaceAll_go r rep (S pos) 0 s'
          end
      end
  end.

Definition replaceAll (r : regex) (rep : capture -> jsstring)
           (s : jsstring) : jsstring :=
  replaceAll_go r rep 0 0 s.

(** [s.split(r)] for a pattern without capturing groups.  A match is looked
    for at each index [q] before the end; a match that ends at the start [p]
    of the current piece is passed by, any other match closes the piece.
    [cur] holds the current piece in reverse, so [q = p] when it is empty. *)
Fixpoint splitRe_go (r : regex) (pos skip : nat) (cur : jsstring)
         (s : jsstring) {struct s} : list jsstring :=
  match s with
  | [] => [rev cur]
  | c :: s' =>
      match skip with
      | S k => splitRe_go r (S pos) k cur s'
      | O =>
          match matchAt r pos s with
          | Some (O, _) =>
              match cur with
              | [] => splitRe_go r (S pos) 0 [c] s'
              | _ :: _ => rev cur :: splitRe_go r (S pos) 0 [c] s'
              end
          | Some (S k, _) => rev cur :: splitRe_go r (S pos) k [] s'
          | None => splitRe_go r (S pos) 0 (c :: cur) s'
          end
      end
  end.

Definition splitRe (r : regex) (s : jsstring) : list jsstring :=
  match s with
  | [] =>
      match matchAt r 0 [] with
      | Some _ => []
      | None => [[]]
      end
  | _ :: _ => splitRe_go r 0 0 [] s
  end.

(** [.] without the [s] flag, and with it. *)
Definition dot (c : N) : bool := negb (isLineTerminator c).
Definition dotAll (c : N) : bool := true.

End RegExp.
Import RegExp.

(* ================================================================== *)
(** * OutputRenderer: the hypertext encoding                           *)
(* ================================================================== *)

Module Html.

Definition headerPrefix : jsstring := Eval cbv in str "### ".

(** [/\*\*(.*?)\*\*/g] *)
Definition boldRe : regex :=
  Lit (str "**") +++ Group (StarLazy dot) +++ Lit (str "**").

(** ['<strong>$1</strong>'] *)
Definition strong (c : capture) : jsstring :=
  str "<strong>" ++ capText c ++ str "</strong>".

Definition marker : regex :=
  Group (Alt (Lit (str "*")) (Alt (Lit (str "-")) (Lit (str "[ ]")))).

(** [/^\s*(\*|-|\[ \])\s/] *)
Definition listItemRe : regex := Bos +++ Star isWS +++ marker +++ Chr isWS.

(** [/^\s*(\*|-|\[ \])\s*/] *)
Definition listMarkerRe : regex := Bos +++ Star isWS +++ marker +++ Star isWS.

Definition empty (_ : capture) : jsstring := [].

Record state : Type := { html : jsstring; inList : bool }.

Definition closeList (st : state) : state :=
  if inList st
  then {| html := html st ++ str "</ul>" ++ [LF]; inList := false |}
  else st.

Definition openList (st : state) : state :=
  if inList st then st
  else {| html := html st ++ str "<ul>" ++ [LF]; inList := true |}.

Definition emit (st : state) (fragment : jsstring) : state :=
  {| html := html st ++ fragment; inList := inList st |}.

(** The body of the [for (const line of lines)] loop. *)
Definition step (st : state) (line : jsstring) : state :=
  let processedLine := trim line in
  if negb (truthy processedLine) then closeList st
  else
    let processedLine := replaceAll boldRe strong processedLine in
    if startsWith headerPrefix processedLine then
      emit (closeList st)
           (str "<h3>" ++ replaceStr headerPrefix [] processedLine
                ++ str "</h3>" ++ [LF])
    else if test listItemRe processedLine then
      emit (openList st)
           (str "<li>" ++ replaceFirst listMarkerRe empty processedLine
                ++ str "</li>" ++ [LF])
    else
      emit (closeList st) (str "<p>" ++ processedLine ++ str "</p>" ++ [LF]).

Definition markdownToHtml (markdownText : jsstring) : jsstring :=
  html (closeList (fold_left step (split [LF] markdownText)
                             {| html := []; inList := false |})).

(** The same loop with the fragments kept apart: every [html += ...] of the
    source appends one element, and the string is their concatenation
    (lemma [markdownToHtml_elements]). *)
Inductive element : Type :=
| UlOpen
| UlClose
| H3 (inner : jsstring)
| Li (inner : jsstring)
| P (inner : jsstring).

Definition renderElement (e : element) : jsstring :=
  match e with
  | UlOpen => str "<ul>" ++ [LF]
  | UlClose => str "</ul>" ++ [LF]
  | H3 inner => str "<h3>" ++ inner ++ str "</h3>" ++ [LF]
  | Li inner => str "<li>" ++ inner ++ str "</li>" ++ [LF]
  | P inner => str "<p>" ++ inner ++ str "</p>" ++ [LF]
  end.

Definition render (es : list element) : jsstring :=
  concat (map renderElement es).

Record estate : Type := { elements : list element; inListE : bool }.

Definition closeListE (st : estate) : estate :=
  if inListE st
  then {| elements := elements st ++ [UlClose]; inListE := false |}
  else st.

Definition openListE (st : estate) : estate :=
  if inListE st then st
  else {| elements := elements st ++ [UlOpen]; inListE := true |}.

Definition emitE (st : estate) (e : element) : estate :=
  {| elements := elements st ++ [e]; inListE := inListE st |}.

Definition stepE (st : estate) (line : jsstring) : estate :=
  let processedLine := trim line in
  if negb (truthy processedLine) then closeListE st
  else
    let processedLine := replaceAll boldRe strong processedLine in
    if startsWith headerPrefix processedLine then
      emitE (closeListE st) (H3 (replaceStr headerPrefix [] processedLine))
    else if test listItemRe processedLine then
      emitE (openListE st)
            (Li (replaceFirst listMarkerRe empty processedLine))
    else
      emitE (closeListE st) (P processedLine).

Definition htmlElements (markdownText : jsstring) : list element :=
  elements (closeListE (fold_left stepE (split [LF] markdownText)
                                  {| elements := []; inListE := false |})).

(** The heading elements of the fragment, in document order. *)
Definition headings (es : list element) : list jsstring :=
  flat_map (fun e => match e with H3 inner => [inner] | _ => [] end) es.

End Html.

(* ================================================================== *)
(** * OutputRenderer: the block-sequence encoding                      *)
(* ================================================================== *)

Module Notion.

(** One [rich_text] run: [{type: 'text', text: {content}, annotations:
    {bold}}]. *)
Record richText : Type := { content : jsstring; bold : bool }.

Definition boldMarker : jsstring := Eval cbv in str "**".

(** [parts.forEach((part, index) => ...)] *)
Fixpoint forEachPart (index : nat) (parts : list jsstring) : list richText :=
  match parts with
  | [] => []
  | part :: rest =>
      (if truthy part
       then [{| content := part; bold := Nat.eqb (index mod 2) 1 |}]
       else [])
      ++ forEachPart (S index) rest
  end.

Definition createTextWithBold (text : jsstring) : list richText :=
  forEachPart 0 (split boldMarker text).

(** The three block types pushed by [parseMarkdownToNotionBlocks]. *)
Inductive block : Type :=
| heading_3 (rich_text : list richText)
| to_do (rich_text : list richText) (checked : bool)
| paragraph (rich_text : list richText).

(** [/(?=###\s)/] *)
Definition sectionRe : regex := Ahead (Lit (str "###") +++ Chr isWS).

(** [/\[ \]\s*/] *)
Definition checkboxRe : regex := Lit (str "[ ]") +++ Star isWS.

(** The class [[\*\-]]. *)
Definition bulletChar (c : N) : bool := ((c =? 42) || (c =? 45))%N.

(** [/^\s*[\*\-]\s*/] *)
Definition bulletRe : regex :=
  Bos +++ Star isWS +++ Chr bulletChar +++ Star isWS.

Definition tasksTitle : jsstring := Eval cbv in str "Compromisos y tareas".

(** The bullet [U+2022] and a space, the head of [`• ${cleanedLine}`]. *)
Definition bullet : jsstring := [8226%N; 32%N].

(** [section.trim().split('\n').filter(line => line.trim() !== '')] *)
Definition sectionLines (section : jsstring) : list jsstring :=
  filter nonBlank (split [LF] (trim section)).

(** [lines[0].replace('### ', '').trim()] *)
Definition titleOf (line0 : jsstring) : jsstring :=
  trim (replaceStr Html.headerPrefix [] line0).

(** [line.replace(/\[ \]\s*/, '').trim()] *)
Definition taskText (line : jsstring) : jsstring :=
  trim (replaceFirst checkboxRe Html.empty line).

(** [line.replace(/^\s*[\*\-]\s*/, '').trim()] *)
Definition cleanedLine (line : jsstring) : jsstring :=
  trim (replaceFirst bulletRe Html.empty line).

(** The body of the loop over [contentLines] in the tasks section. *)
Definition taskBlocks (line : jsstring) : list block :=
  if truthy (taskText line)
  then [to_do (createTextWithBold (taskText line)) false]
  else [].

(** The body of the loop over [contentLines] in every other section. *)
Definition paragraphBlocks (line : jsstring) : list block :=
  if truthy (cleanedLine line)
  then [paragraph (createTextWithBold (bullet ++ cleanedLine line))]
  else [].

(** What one content line contributes under a section titled [title]. *)
Definition lineBlocks (title line : jsstring) : list block :=
  if includes tasksTitle title then taskBlocks line else paragraphBlocks line.

(** The body of the [for (const section of sections)] loop. *)
Definition sectionBlocks (section : jsstring) : list block :=
  match sectionLines section with
  | [] => []
  | line0 :: contentLines =>
      let title := titleOf line0 in
      heading_3 (createTextWithBold title)
      :: flat_map (lineBlocks title) contentLines
  end.

(** [markdown.split(/(?=###\s)/).filter(s => s.trim() !== '')] *)
Definition sections (markdown : jsstring) : list jsstring :=
  filter nonBlank (splitRe sectionRe markdown).

Definition parseMarkdownToNotionBlocks (markdown : jsstring) : list block :=
  flat_map sectionBlocks (sections markdown).

End Notion.

(* ================================================================== *)
(** * DocumentParser: the title                                        *)
(* ================================================================== *)

Module Title.

Definition titleHeader : jsstring :=
  Eval cbv in str "### 1. Nombre del proyecto o asunto".

(** [/### 1\. Nombre del proyecto o asunto\s*\n\s*\*?\s*(.*?)\s*\n/s] *)
Definition projectNameRegex : regex :=
  Lit titleHeader +++ Star isWS +++ Lit [LF] +++ Star isWS
  +++ Opt (Lit (str "*")) +++ Star isWS +++ Group (StarLazy dotAll)
  +++ Star isWS +++ Lit [LF].

Definition notSpecified : jsstring := Eval cbv in str "No se especifica".

(** [projectNameMatch ? projectNameMatch[1].trim() : 'No se especifica'] of
    the Done view. *)
Definition extractTitle (rawMarkdown : jsstring) : jsstring :=
  match search projectNameRegex 0 rawMarkdown with
  | Some (_, _, cap) => trim (capText cap)
  | None => notSpecified
  end.

(** ['Minuta de Reunión'] *)
Definition defaultTitle : jsstring :=
  str "Minuta de Reuni" ++ [243%N] ++ str "n".

(** The same match in [handleSendToNotion], where the title of the payload
    falls back to ['Minuta de Reunión']. *)
Definition payloadTitle (rawMarkdown : jsstring) : jsstring :=
  match search projectNameRegex 0 rawMarkdown with
  | Some (_, _, cap) => trim (capText cap)
  | None => defaultTitle
  end.

End Title.

(* ================================================================== *)
(** * ExternalServiceClient: [services/geminiService]                  *)
(* ================================================================== *)

Module Service.

(** How the awaited calls before the [return] of a service function end:
    with a response, whose [text] may be undefined, with a thrown [Error]
    carrying a message, or with a rejection that is not an [Error]. *)
Inductive outcome : Type :=
| Responded (text : option jsstring)
| ThrewError (message : jsstring)
| ThrewOther.

(** ["La transcripción resultó vacía"] *)
Definition emptyMarker : jsstring :=
  str "La transcripci" ++ [243%N] ++ str "n result" ++ [243%N]
      ++ str " vac" ++ [237%N] ++ str "a".

(** The message of the [Error] thrown for an empty transcription. *)
Definition emptyTranscription : jsstring :=
  emptyMarker ++ str ". El audio puede no haber contenido voz clara.".

(** The [catch] block of [transcribeAudio]; [None] is an error that is not
    an [Error] instance. *)
Definition transcribeCatch (message : option jsstring) : jsstring :=
  match message with
  | Some m =>
      if includes emptyMarker m then str "Error: " ++ m
      else str "Error al transcribir el audio: " ++ m
  | None =>
      str "Ocurri" ++ [243%N] ++ str " un error desconocido al transcribir el audio."
  end.

(** [!transcription || transcription.trim() === ''] *)
Definition noTranscription (transcription : option jsstring) : bool :=
  match transcription with
  | None => true
  | Some t => negb (truthy t) || negb (truthy (trim t))
  end.

Definition transcribeAudio (o : outcome) : jsstring :=
  match o with
  | Responded transcription =>
      if noTranscription transcription
      then transcribeCatch (Some emptyTranscription)
      else capText transcription
  | ThrewError m => transcribeCatch (Some m)
  | ThrewOther => transcribeCatch None
  end.

(** [generateMinutesFromText]; [None] is an undefined [response.text]. *)
Definition generateMinutesFromText (o : outcome) : option jsstring :=
  match o with
  | Responded text => text
  | ThrewError m => Some (str "Error al contactar la API de Gemini: " ++ m)
  | ThrewOther =>
      Some (str "Ocurri" ++ [243%N]
                ++ str " un error desconocido al generar la minuta.")
  end.

End Service.

(* ================================================================== *)
(** * SessionController: the state and handlers of [App]                *)
(* ================================================================== *)

Module Session.

Import Service.

(** [types.ts] *)
Inductive AppStatus : Type :=
| Idle | ReadyToGenerate | Recording | Transcribing | Generating | Done
| Error.

(** A [Blob]: its bytes and its MIME type. *)
Record Blob : Type := { data : list N; type : jsstring }.

Definition size (b : Blob) : nat := length (data b).

(** The calls that leave the component. *)
Inductive request : Type :=
| Transcribe (audioBlob : Blob)
| Generate (transcription : jsstring).

(** [mediaRecorderRef.current.state] *)
Inductive recorderState : Type := inactive | recording.

(** The React state and the refs that the handlers below read or write,
    and the requests sent so far. *)
Record state : Type := {
  status : AppStatus;
  minutes : jsstring;
  error : option jsstring;
  recordingTime : nat;
  transcriptionInput : jsstring;
  mediaRecorder : option recorderState;
  audioChunks : list Blob;
  streams : nat;
  timerInterval : bool;
  sent : list request
}.

Definition initial : state :=
  {| status := Idle; minutes := []; error := None; recordingTime := 0;
     transcriptionInput := []; mediaRecorder := None; audioChunks := [];
     streams := 0; timerInterval := false; sent := [] |}.

Definition setStatus (v : AppStatus) (st : state) : state :=
  {| status := v; minutes := minutes st; error := error st;
     recordingTime := recordingTime st;
     transcriptionInput := transcriptionInput st;
     mediaRecorder := mediaRecorder st; audioChunks := audioChunks st;
     streams := streams st; timerInterval := timerInterval st;
     sent := sent st |}.

Definition setMinutes (v : jsstring) (st : state) : state :=
  {| status := status st; minutes := v; error := error st;
     recordingTime := recordingTime st;
     transcriptionInput := transcriptionInput st;
     mediaRecorder := mediaRecorder st; audioChunks := audioChunks st;
     streams := streams st; timerInterval := timerInterval st;
     sent := sent st |}.

Definition setError (v : option jsstring) (st : state) : state :=
  {| status := status st; minutes := minutes st; error := v;
     recordingTime := recordingTime st;
     transcriptionInput := transcriptionInput st;
     mediaRecorder := mediaRecorder st; audioChunks := audioChunks st;
     streams := streams st; timerInterval := timerInterval st;
     sent := sent st |}.

Definition send (r : request) (st : state) : state :=
  {| status := status st; minutes := minutes st; error := error st;
     recordingTime := recordingTime st;
     transcriptionInput := transcriptionInput st;
     mediaRecorder := mediaRecorder st; audioChunks := audioChunks st;
     streams := streams st; timerInterval := timerInterval st;
     sent := sent st ++ [r] |}.

Definition cleanupStreams (st : state) : state :=
  {| status := status st; minutes := minutes st; error := error st;
     recordingTime := recordingTime st;
     transcriptionInput := transcriptionInput st;
     mediaRecorder := mediaRecorder st; audioChunks := audioChunks st;
     streams := 0; timerInterval := false; sent := sent st |}.

(** [handleReset].  A recorder that is still recording is stopped here; the
    [onstop] that it delivers afterwards is a later event, not part of this
    step. *)
Definition handleReset (st : state) : state :=
  {| status := Idle; minutes := []; error := None; recordingTime := 0;
     transcriptionInput := []; mediaRecorder := None; audioChunks := [];
     streams := 0; timerInterval := false; sent := sent st |}.

(** ["La transcripción no puede estar vacía."] *)
Definition emptyInputMessage : jsstring :=
  str "La transcripci" ++ [243%N] ++ str "n no puede estar vac"
      ++ [237%N] ++ str "a.".

(** ["La grabación no contiene datos de audio. Por favor, inténtelo de
    nuevo."] *)
Definition emptyRecordingMessage : jsstring :=
  str "La grabaci" ++ [243%N]
      ++ str "n no contiene datos de audio. Por favor, int" ++ [233%N]
      ++ str "ntelo de nuevo.".

(** [generateAndSetMinutes]; [o] is how the generation call ends.  With an
    undefined result [minutesResult.startsWith] throws and nothing more is
    set. *)
Definition generateAndSetMinutes (o : outcome) (transcription : jsstring)
           (st : state) : state :=
  if negb (truthy (trim transcription)) then
    setStatus Error (setError (Some emptyInputMessage) st)
  else
    let st := send (Generate transcription) (setStatus Generating st) in
    match generateMinutesFromText o with
    | None => st
    | Some minutesResult =>
        if startsWith (str "Error") minutesResult
        then setStatus Error (setError (Some minutesResult) st)
        else setStatus Done (setMinutes minutesResult st)
    end.

(** The "Generar Minuta" button of the [ReadyToGenerate] view:
    [disabled={!transcriptionInput.trim()}]. *)
Definition generateDisabled (st : state) : bool :=
  negb (truthy (trim (transcriptionInput st))).

(** A click on that button; a disabled button does not call its handler, and
    the button exists in the [ReadyToGenerate] view only. *)
Definition clickGenerate (o : outcome) (st : state) : state :=
  match status st with
  | ReadyToGenerate =>
      if generateDisabled st then st
      else generateAndSetMinutes o (transcriptionInput st) st
  | _ => st
  end.

(** [setTranscriptionInput(e.target.value)] *)
Definition typeText (text : jsstring) (st : state) : state :=
  {| status := status st; minutes := minutes st; error := error st;
     recordingTime := recordingTime st; transcriptionInput := text;
     mediaRecorder := mediaRecorder st; audioChunks := audioChunks st;
     streams := streams st; timerInterval := timerInterval st;
     sent := sent st |}.

(** How the two [await]s that acquire the streams end. *)
Inductive acquisition : Type :=
| Acquired
| Rejected (isError : bool) (name : jsstring).

Definition permissionMessage : jsstring :=
  str "Permiso denegado para capturar pantalla o micr" ++ [243%N]
      ++ str "fono. Por favor, conceda los permisos necesarios e int"
      ++ [233%N] ++ str "ntelo de nuevo.".

Definition startFailedMessage : jsstring :=
  str "Ocurri" ++ [243%N] ++ str " un error al iniciar la grabaci"
      ++ [243%N] ++ str "n.".

Definition handleStartRecording (a : acquisition) (st : state) : state :=
  let st := handleReset st in
  match a with
  | Acquired =>
      {| status := Recording; minutes := minutes st; error := error st;
         recordingTime := 0; transcriptionInput := transcriptionInput st;
         mediaRecorder := Some recording; audioChunks := [];
         streams := 2; timerInterval := true; sent := sent st |}
  | Rejected isError name =>
      let message :=
        if isError && (eqs name (str "NotAllowedError")
                       || eqs name (str "NotFoundError"))
        then permissionMessage else startFailedMessage in
      cleanupStreams (setStatus Error (setError (Some message) st))
  end.

(** [mediaRecorderRef.current.ondataavailable] *)
Definition ondataavailable (eventData : Blob) (st : state) : state :=
  if 0 <? size eventData
  then {| status := status st; minutes := minutes st; error := error st;
          recordingTime := recordingTime st;
          transcriptionInput := transcriptionInput st;
          mediaRecorder := mediaRecorder st;
          audioChunks := audioChunks st ++ [eventData];
          streams := streams st; timerInterval := timerInterval st;
          sent := sent st |}
  else st.

(** [new Blob(audioChunksRef.current, { type: 'audio/webm' })] *)
Definition newBlob (chunks : list Blob) : Blob :=
  {| data := concat (map data chunks); type := str "audio/webm" |}.

(** [mediaRecorderRef.current.onstop]; [tr] and [gen] are how the
    transcription and the generation call end. *)
Definition onstop (tr gen : outcome) (st : state) : state :=
  let st := cleanupStreams st in
  match audioChunks st with
  | [] => setStatus Error (setError (Some emptyRecordingMessage) st)
  | _ :: _ =>
      let audioBlob := newBlob (audioChunks st) in
      let st := send (Transcribe audioBlob) (setStatus Transcribing st) in
      let transcriptionResult := transcribeAudio tr in
      if startsWith (str "Error:") transcriptionResult
      then setStatus Error (setError (Some transcriptionResult) st)
      else generateAndSetMinutes gen transcriptionResult st
  end.

(** [handleStopRecording]: a recording recorder is stopped, which makes it
    deliver [onstop]; the timer is cleared. *)
Definition handleStopRecording (tr gen : outcome) (st : state) : state :=
  match mediaRecorder st with
  | Some recording =>
      onstop tr gen
             {| status := status st; minutes := minutes st;
                error := error st; recordingTime := recordingTime st;
                transcriptionInput := transcriptionInput st;
                mediaRecorder := Some inactive;
                audioChunks := audioChunks st; streams := streams st;
                timerInterval := timerInterval st; sent := sent st |}
  | _ => st
  end.

End Session.

(* ================================================================== *)
(** * The views: what [renderContent] shows and what its buttons do     *)
(* ================================================================== *)

From Stdlib Require Import DecimalNat.

Module Display.

(** The decimal digits of [Number.prototype.toString] for a natural
    number. *)
Fixpoint digits (d : Decimal.uint) : jsstring :=
  match d with
  | Decimal.Nil => []
  | Decimal.D0 d' => 48%N :: digits d'
  | Decimal.D1 d' => 49%N :: digits d'
  | Decimal.D2 d' => 50%N :: digits d'
  | Decimal.D3 d' => 51%N :: digits d'
  | Decimal.D4 d' => 52%N :: digits d'
  | Decimal.D5 d' => 53%N :: digits d'
  | Decimal.D6 d' => 54%N :: digits d'
  | Decimal.D7 d' => 55%N :: digits d'
  | Decimal.D8 d' => 56%N :: digits d'
  | Decimal.D9 d' => 57%N :: digits d'
  end.

Definition toString (n : nat) : jsstring := digits (Nat.to_uint n).

(** [s.padStart(targetLength, c)] with a pad string of one code unit. *)
Definition padStart (targetLength : nat) (c : N) (s : jsstring) : jsstring :=
  repeat c (targetLength - length s) ++ s.

(** [formatTime]; [seconds] is [recordingTime], a count of timer ticks. *)
Definition formatTime (seconds : nat) : jsstring :=
  let h := padStart 2 48%N (toString (seconds / 3600)) in
  let m := padStart 2 48%N (toString ((seconds mod 3600) / 60)) in
  let s := padStart 2 48%N (toString (seconds mod 60)) in
  if eqs h (str "00") then m ++ str ":" ++ s
  else h ++ str ":" ++ m ++ str ":" ++ s.

(** [s.indexOf(sub)]; [None] is [-1]. *)
Fixpoint indexOf_go (sub : jsstring) (pos : nat) (s : jsstring)
  : option nat :=
  if startsWith sub s then Some pos
  else match s with
       | [] => None
       | _ :: s' => indexOf_go sub (S pos) s'
       end.

Definition indexOf (sub s : jsstring) : option nat := indexOf_go sub 0 s.

(** [s.substring(start)] for a start within the string. *)
Definition substring (start : nat) (s : jsstring) : jsstring := skipn start s.

(** ['### 2. Objetivo de la reunión'] *)
Definition objectiveHeader : jsstring :=
  str "### 2. Objetivo de la reuni" ++ [243%N] ++ str "n".

(** [restOfMarkdown] of the Done view, the text handed to the Markdown
    component. *)
Definition restOfMarkdown (rawMarkdown : jsstring) : jsstring :=
  match indexOf objectiveHeader rawMarkdown with
  | Some restOfMarkdownStartIndex =>
      substring restOfMarkdownStartIndex rawMarkdown
  | None => rawMarkdown
  end.

End Display.

(* ================================================================== *)
(** * The copy handlers                                                *)
(* ================================================================== *)

Module Clipboard.

(** What reaches the clipboard: [writeText(text)], or [write] of one item
    with a [text/html] blob. *)
Inductive item : Type :=
| Text (text : jsstring)
| HtmlBlob (htmlContent : jsstring).

(** How [navigator.clipboard.write] ends: the promise is fulfilled, it is
    rejected, or building the item throws. *)
Inductive writeResult : Type := Fulfilled | RejectedWrite | Threw.

(** What a copy handler does: the write it asks for, whether its
    "copied" flag is set, and the error it sets. *)
Record effect : Type := {
  written : option item;
  copied : bool;
  errorSet : option jsstring
}.

Definition nothing : effect :=
  {| written := None; copied := false; errorSet := None |}.

Definition handleCopy (minutes : jsstring) : effect :=
  let markdownContent := rawMarkdown minutes in
  {| written := Some (Text markdownContent); copied := true;
     errorSet := None |}.

Definition handleCopySummary (minutes : jsstring) : effect :=
  let summaryText := summaryText minutes in
  if truthy summaryText
  then {| written := Some (Text summaryText); copied := true;
          errorSet := None |}
  else nothing.

Definition handleCopyProjectName (projectName : jsstring) : effect :=
  if truthy projectName && negb (eqs projectName Title.notSpecified)
  then {| written := Some (Text projectName); copied := true;
          errorSet := None |}
  else nothing.

(** ["No se pudo copiar con formato. Su navegador podría no ser compatible.
    Intente 'Copiar Markdown'."] *)
Definition copyRefused : jsstring :=
  str "No se pudo copiar con formato. Su navegador podr" ++ [237%N]
      ++ str "a no ser compatible. Intente 'Copiar Markdown'.".

(** ["Ocurrió un error al generar el contenido con formato."] *)
Definition copyThrew : jsstring :=
  str "Ocurri" ++ [243%N]
      ++ str " un error al generar el contenido con formato.".

Definition handleCopyFormatted (w : writeResult) (minutes : jsstring)
  : effect :=
  let markdownContent := rawMarkdown minutes in
  if negb (truthy markdownContent) then nothing
  else
    let htmlContent := Html.markdownToHtml markdownContent in
    match w with
    | Fulfilled =>
        {| written := Some (HtmlBlob htmlContent); copied := true;
           errorSet := None |}
    | RejectedWrite =>
        {| written := None; copied := false; errorSet := Some copyRefused |}
    | Threw =>
        {| written := None; copied := false; errorSet := Some copyThrew |}
    end.

End Clipboard.

(* ================================================================== *)
(** * [handleSendToNotion]                                             *)
(* ================================================================== *)

Module Webhook.

(** The body of the POST request; [fecha] is the clock reading. *)
Record payload : Type := {
  titulo : jsstring;
  resumen : jsstring;
  fecha : jsstring;
  bloques_notion : list Notion.block
}.

(** How the awaited calls after the payload is built end: with a response
    that is [ok], with one that is not, whose status and text are read, or
    with a rejection, by an [Error] with a message or by something else. *)
Inductive response : Type :=
| Ok
| NotOk (status : nat) (errorText : jsstring)
| FetchThrewError (message : jsstring)
| FetchThrewOther.

Record result : Type := {
  posted : option payload;
  notionSendSuccess : bool;
  error : option jsstring
}.

Definition cannotProcess : jsstring :=
  Eval cbv in str "No se pudo procesar la minuta para Notion.".

Definition cannotSend : jsstring :=
  Eval cbv in
    str "No se pudo enviar la minuta a Notion. Por favor, intente de nuevo.".

Definition handleSendToNotion (now : jsstring) (r : response)
           (minutes : jsstring) : result :=
  let summaryText := summaryPart minutes in
  let rawMarkdown := rawMarkdown minutes in
  let projectName := Title.payloadTitle rawMarkdown in
  let notionBlocks := Notion.parseMarkdownToNotionBlocks rawMarkdown in
  match notionBlocks with
  | [] =>
      {| posted := None; notionSendSuccess := false;
         error := Some cannotProcess |}
  | _ :: _ =>
      let payload :=
        {| titulo := projectName; resumen := trim summaryText; fecha := now;
           bloques_notion := notionBlocks |} in
      match r with
      | Ok =>
          {| posted := Some payload; notionSendSuccess := true;
             error := None |}
      | NotOk status errorText =>
          {| posted := Some payload; notionSendSuccess := false;
             error := Some (str "Error del servidor: "
                                ++ Display.toString status ++ str " - "
                                ++ errorText) |}
      | FetchThrewError message =>
          {| posted := Some payload; notionSendSuccess := false;
             error := Some message |}
      | FetchThrewOther =>
          {| posted := Some payload; notionSendSuccess := false;
             error := Some cannotSend |}
      end
  end.

End Webhook.

(* ================================================================== *)
(** * The events of a session                                          *)
(* ================================================================== *)

Module Events.

Import Session.

(** The component together with the writes to the clipboard so far. *)
Record app : Type := {
  session : Session.state;
  clipboard : list Clipboard.item
}.

Definition start : app := {| session := initial; clipboard := [] |}.

(** What can happen to the component: a click on a button of the view, a
    change of the text area, a chunk from the recorder, a tick of the
    timer.  A click carries how the calls that its handler awaits end; the
    handler is taken to run to its end before the next event. *)
Inductive event : Type :=
| ClickStartRecording (a : acquisition)
| ClickUseText
| ChangeText (text : jsstring)
| ClickGenerate (o : Service.outcome)
| ClickStop (tr gen : Service.outcome)
| ClickReset
| ClickCopy
| ClickCopySummary
| ClickCopyProjectName
| ClickCopyFormatted (w : Clipboard.writeResult)
| DataAvailable (eventData : Blob)
| Tick.

(** [setRecordingTime(prevTime => prevTime + 1)] *)
Definition tick (st : state) : state :=
  {| status := status st; minutes := minutes st; error := error st;
     recordingTime := recordingTime st + 1;
     transcriptionInput := transcriptionInput st;
     mediaRecorder := mediaRecorder st; audioChunks := audioChunks st;
     streams := streams st; timerInterval := timerInterval st;
     sent := sent st |}.

Definition onSession (f : state -> state) (a : app) : app :=
  {| session := f (session a); clipboard := clipboard a |}.

(** A copy handler run on the component: its write is logged and its error
    is set. *)
Definition copy (e : Clipboard.effect) (a : app) : app :=
  {| session := match Clipboard.errorSet e with
                | Some message => setError (Some message) (session a)
                | None => session a
                end;
     clipboard := clipboard a ++ match Clipboard.written e with
                                 | Some i => [i]
                                 | None => []
                                 end |}.

(** [projectName] of the Done view. *)
Definition projectName (st : state) : jsstring :=
  Title.extractTitle (rawMarkdown (minutes st)).

(** The buttons that [renderContent] shows for each status, with their
    handlers; an event without a button in the view changes nothing.  The
    recorder delivers data while it exists and the timer ticks while its
    interval is set. *)
Definition dispatch (e : event) (a : app) : app :=
  let st := session a in
  match e with
  | DataAvailable eventData =>
      match mediaRecorder st with
      | Some _ => onSession (ondataavailable eventData) a
      | None => a
      end
  | Tick => if timerInterval st then onSession tick a else a
  | _ =>
      match status st, e with
      | Idle, ClickStartRecording acq =>
          onSession (handleStartRecording acq) a
      | Idle, ClickUseText => onSession (setStatus ReadyToGenerate) a
      | ReadyToGenerate, ChangeText text => onSession (typeText text) a
      | ReadyToGenerate, ClickReset => onSession handleReset a
      | ReadyToGenerate, ClickGenerate o => onSession (clickGenerate o) a
      | Recording, ClickStop tr gen =>
          onSession (handleStopRecording tr gen) a
      | Done, ClickCopy => copy (Clipboard.handleCopy (minutes st)) a
      | Done, ClickCopySummary =>
          copy (Clipboard.handleCopySummary (minutes st)) a
      | Done, ClickCopyProjectName =>
          copy (Clipboard.handleCopyProjectName (projectName st)) a
      | Done, ClickCopyFormatted w =>
          copy (Clipboard.handleCopyFormatted w (minutes st)) a
      | Done, ClickReset => onSession handleReset a
      | Error, ClickReset => onSession handleReset a
      | _, _ => a
      end
  end.

Definition run (events : list event) : app :=
  fold_left (fun a e => dispatch e a) events start.

(** The requests that may leave the component: audio with content, a
    transcript that is not blank. *)
Definition sound (r : request) : bool :=
  match r with
  | Transcribe audioBlob => 0 <? size audioBlob
  | Generate transcription => nonBlank transcription
  end.

End Events.

(* ================================================================== *)
(** * Notions used to state the properties                             *)
(* ================================================================== *)

Module Notions.

(** [Cut sep s a b]: the leftmost occurrence of [sep] in [s] has [a] before
    it and [b] after it. *)
Inductive Cut (sep : jsstring) : jsstring -> jsstring -> jsstring -> Prop :=
| cut_here (b : jsstring) : Cut sep (sep ++ b) [] b
| cut_later (c : N) (s a b : jsstring) :
    startsWith sep (c :: s) = false ->
    Cut sep s a b -> Cut sep (c :: s) (c :: a) b.

(** The input stops a star over the class [p]: it is empty or starts
    outside the class. *)
Definition stops (p : N -> bool) (s : jsstring) : Prop :=
  match s with
  | [] => True
  | c :: _ => p c = false
  end.

(** Every code unit of [s] is in the class [p]. *)
Definition all (p : N -> bool) (s : jsstring) : bool := forallb p s.


(** The hypertext of a line given by its pieces between markers: a marker
    that has a later marker opens a [<strong>] element that the next one
    closes, a last marker without partner stays as it is. *)
Fixpoint paired (parts : list jsstring) : jsstring :=
  match parts with
  | [] => []
  | p :: rest =>
      match rest with
      | [] => p
      | q :: rest' =>
          match rest' with
          | [] => p ++ Notion.boldMarker ++ q
          | _ :: _ => p ++ Html.strong (Some q) ++ paired rest'
          end
      end
  end.

(** What may stand between the line start and the title text: nothing, or
    one [*] and the whitespace [w] after it. *)
Definition leader (star : option jsstring) : jsstring :=
  match star with
  | None => []
  | Some w => 42%N :: w
  end.

(** Without a [*] the title text does not start with one; with a [*] only
    whitespace follows it. *)
Definition leaderFits (star : option jsstring) (core : jsstring) : Prop :=
  match star with
  | None => hd 0%N core <> 42%N
  | Some w => all isWS w = true
  end.

Definition checkbox : jsstring := Eval cbv in str "[ ]".

(** The residual text of a line, whatever its section: what is left once
    the prefix that opens the line after whitespace, a bullet [*] or [-] or
    a checkbox [[ ]], is stripped and the rest trimmed. *)
Definition residual (line : jsstring) : jsstring :=
  match trimStart line with
  | m :: rest =>
      if Notion.bulletChar m then trim rest
      else if startsWith checkbox (m :: rest) then trim (skipn 3 (m :: rest))
      else trim line
  | [] => []
  end.

(** ** Bodies given by their sections

    A document as a list of sections, each a title and its content lines;
    its body has one header line [### title] per section, followed by the
    content lines, all joined by line feeds. *)

Definition docSection : Type := jsstring * list jsstring.

Definition headerLine (title : jsstring) : jsstring :=
  Html.headerPrefix ++ title.

Definition linesOf (sec : docSection) : list jsstring :=
  headerLine (fst sec) :: snd sec.

Definition docLines (doc : list docSection) : list jsstring :=
  flat_map linesOf doc.

Definition bodyOf (doc : list docSection) : jsstring :=
  join [LF] (docLines doc).

(** The text of each section inside the body: its lines, and the line feed
    that ends the last of them when another section follows. *)
Fixpoint sectionTexts (doc : list docSection) : list jsstring :=
  match doc with
  | [] => []
  | sec :: rest =>
      match rest with
      | [] => [join [LF] (linesOf sec)]
      | _ :: _ => (join [LF] (linesOf sec) ++ [LF]) :: sectionTexts rest
      end
  end.

Definition hashes : jsstring := Eval cbv in str "###".

(** A line without line feed and without [###]. *)
Definition plain (line : jsstring) : bool :=
  negb (includes [LF] line) && negb (includes hashes line).

(** Titles are plain and not blank, content lines are plain. *)
Definition wellFormed (doc : list docSection) : bool :=
  forallb (fun sec => plain (fst sec) && nonBlank (fst sec)
                      && forallb plain (snd sec)) doc.

(** Where [/(?=###\s)/] matches: at three hashes and a whitespace. *)
Definition marked (s : jsstring) : bool :=
  startsWith hashes s &&
  match skipn 3 s with
  | d :: _ => isWS d
  | [] => false
  end.

(** The pieces of a regular-expression split once a match closes the
    current piece [cur], held in reverse: an empty piece at the start of the
    input is not closed. *)
Definition closePiece (cur : jsstring) (rest : list jsstring)
  : list jsstring :=
  match cur with
  | [] => rest
  | _ :: _ => rev cur :: rest
  end.

(** The heading blocks of a block sequence, in order. *)
Definition headingBlocks (blocks : list Notion.block)
  : list (list Notion.richText) :=
  flat_map (fun b => match b with
                     | Notion.heading_3 rich_text => [rich_text]
                     | _ => []
                     end) blocks.

(** What each encoding makes of the header line of a title. *)
Definition htmlHeadingOf (title : jsstring) : jsstring :=
  replaceStr Html.headerPrefix []
             (replaceAll Html.boldRe Html.strong (trim (headerLine title))).

Definition blockHeadingOf (title : jsstring) : list Notion.richText :=
  Notion.createTextWithBold (Notion.titleOf (headerLine title)).

(** What the loop of [markdownToHtml] adds to the headings for one line. *)
Definition headingOfLine (line : jsstring) : list jsstring :=
  let processedLine := trim line in
  if negb (truthy processedLine) then []
  else
    let processedLine :=
      replaceAll Html.boldRe Html.strong processedLine in
    if startsWith Html.headerPrefix processedLine
    then [replaceStr Html.headerPrefix [] processedLine]
    else [].

(** The state with the fragments kept apart renders to the string state. *)
Definition agrees (st : Html.state) (est : Html.estate) : Prop :=
  Html.html st = Html.render (Html.elements est) /\
  Html.inList st = Html.inListE est.


(** ** Sessions *)

(** A recording session: a successful start followed by the chunks that the
    recorder delivers. *)
Definition recorded (st0 : Session.state) (events : list Session.Blob)
  : Session.state :=
  fold_left (fun st eventData => Session.ondataavailable eventData st) events
            (Session.handleStartRecording Session.Acquired st0).

(** The [ReadyToGenerate] view with [text] typed into the text area. *)
Definition readyWith (text : jsstring) : Session.state :=
  Session.typeText text (Session.setStatus Session.ReadyToGenerate
                                           Session.initial).

Definition oneChunk : Session.Blob :=
  {| Session.data := [26%N; 69%N]; Session.type := str "audio/webm" |}.

(** The body of the scenario: the same line under section 3 and under
    section 5. *)
Definition twoCheckboxes : jsstring :=
  str "### 3. Temas tratados" ++ [LF] ++ str "[ ] x" ++ [LF]
      ++ str "### 5. Compromisos y tareas" ++ [LF] ++ str "[ ] x".

(** A transcription answer without text: undefined, empty or whitespace
    only. *)
Definition blankText (text : option jsstring) : Prop :=
  match text with
  | None => True
  | Some t => trim t = []
  end.

End Notions.
Import Notions.

(* ================================================================== *)
(** * Shapes of the outputs                                            *)
(* ================================================================== *)

Module Shapes.

Import Html.

(** Where a reader of a fragment stands: outside every list, behind a
    [<ul>] that has no item yet, or inside a list with an item. *)
Inductive listState : Type := Outside | Opened | Inside.

(** Reads a fragment from the left.  Items are read in a list only,
    headings and paragraphs outside only, a list is opened outside only and
    closed after an item only. *)
Fixpoint nesting (st : listState) (es : list element) : option listState :=
  match es with
  | [] => Some st
  | e :: rest =>
      match e, st with
      | UlOpen, Outside => nesting Opened rest
      | Li _, Opened => nesting Inside rest
      | Li _, Inside => nesting Inside rest
      | UlClose, Inside => nesting Outside rest
      | H3 _, Outside => nesting Outside rest
      | P _, Outside => nesting Outside rest
      | _, _ => None
      end
  end.

(** The elements that carry a line: headings, items and paragraphs. *)
Definition isContent (e : element) : bool :=
  match e with
  | UlOpen | UlClose => false
  | H3 _ | Li _ | P _ => true
  end.

Definition contents (es : list element) : nat :=
  length (filter isContent es).

(** What a reader has seen when the loop of [markdownToHtml] stands at
    [est]: a well nested fragment, in a list exactly when [inList] is set. *)
Definition reads (est : estate) : Prop :=
  nesting Outside (elements est)
  = Some (if inListE est then Inside else Outside).

(** The three markers of [/^\s*(\*|-|\[ \])\s/]. *)
Definition listMarkers : list jsstring :=
  [str "*"; str "-"; str "[ ]"].

(** A line without its first checkbox [[ ]], wherever that stands, and
    without the whitespace behind it. *)
Fixpoint dropCheckbox (line : jsstring) : jsstring :=
  if startsWith checkbox line then dropWhile isWS (skipn 3 line)
  else match line with
       | [] => []
       | c :: rest => c :: dropCheckbox rest
       end.

(** A line without the [*] or [-] that opens it after whitespace, if any. *)
Definition dropBullet (line : jsstring) : jsstring :=
  match trimStart line with
  | m :: rest => if Notion.bulletChar m then rest else line
  | [] => line
  end.

(** What is left of a content line under a section titled [title] once
    the prefix that this section strips is gone and the rest is trimmed:
    the first checkbox under "Compromisos y tareas", the bullet that opens
    the line elsewhere. *)
Definition leftover (title line : jsstring) : jsstring :=
  trim (if includes Notion.tasksTitle title
        then dropCheckbox line else dropBullet line).

(** The [rich_text] of a block, whatever its type. *)
Definition richTextOf (b : Notion.block) : list Notion.richText :=
  match b with
  | Notion.heading_3 rich_text => rich_text
  | Notion.to_do rich_text _ => rich_text
  | Notion.paragraph rich_text => rich_text
  end.

(** No run is empty and no run holds a [**]. *)
Definition cleanRuns (rich_text : list Notion.richText) : Prop :=
  Forall (fun run => Notion.content run <> [] /\
                     includes Notion.boldMarker (Notion.content run) = false)
         rich_text.

(** What holds of a block by its type: a task is unchecked, a paragraph
    opens with a plain run that starts with the bullet. *)
Definition blockShape (b : Notion.block) : Prop :=
  match b with
  | Notion.heading_3 _ => True
  | Notion.to_do _ checked => checked = false
  | Notion.paragraph rich_text =>
      exists rest tail,
        rich_text
        = {| Notion.content := Notion.bullet ++ rest; Notion.bold := false |}
            :: tail
  end.

(** A number below one hundred written with two decimal digits. *)
Definition twoDigits (n : nat) : jsstring :=
  [(48 + N.of_nat (n / 10))%N; (48 + N.of_nat (n mod 10))%N].

(** What holds of the component between two events: an error status comes
    with a message, minutes are held in [Done] only, the timer runs and the
    recorder records in [Recording] only, no chunk is empty, every request
    sent was sound, and in [Done] the last request sent was a generation
    request. *)
Definition coherent (st : Session.state) : Prop :=
  (Session.status st = Session.Error -> Session.error st <> None) /\
  (Session.minutes st <> [] -> Session.status st = Session.Done) /\
  (Session.timerInterval st = true ->
   Session.status st = Session.Recording) /\
  (Session.mediaRecorder st = Some Session.recording ->
   Session.status st = Session.Recording) /\
  Forall (fun c => 0 < Session.size c) (Session.audioChunks st) /\
  forallb Events.sound (Session.sent st) = true /\
  (Session.status st = Session.Done ->
   exists earlier transcription,
     Session.sent st = earlier ++ [Session.Generate transcription]).

(** What may lie on the clipboard: a text without whitespace at its ends, or
    a hypertext that is not empty. *)
Definition tidy (i : Clipboard.item) : Prop :=
  match i with
  | Clipboard.Text text => trim text = text
  | Clipboard.HtmlBlob htmlContent => truthy htmlContent = true
  end.

End Shapes.
Import Shapes.
(* ================================================================== *)
(** * Facts about the string primitives                                *)
(* ================================================================== *)

Section StringFacts.

Lemma startsWith_app (p s : jsstring) : startsWith p (p ++ s) = true.
Proof.
  induction p as [|x p IH]; simpl; [reflexivity|].
  now rewrite N.eqb_refl.
Qed.

Lemma startsWith_inv (p : jsstring) :
  forall s, startsWith p s = true -> s = p ++ skipn (length p) s.
Proof.
  induction p as [|x p IH]; intros s H; simpl in *; [reflexivity|].
  destruct s as [|y s]; [discriminate|].
  apply andb_true_iff in H as [Hxy Hp].
  apply N.eqb_eq in Hxy; subst y.
  now rewrite <- (IH s Hp).
Qed.

Lemma startsWith_cons_head (x : N) (p : jsstring) (c : N) (s : jsstring) :
  (x =? c)%N = false -> startsWith (x :: p) (c :: s) = false.
Proof. intros H. cbn [startsWith]. now rewrite H. Qed.

Lemma includes_cons_false (sub : jsstring) (c : N) (s : jsstring) :
  includes sub (c :: s) = false ->
  startsWith sub (c :: s) = false /\ includes sub s = false.
Proof.
  simpl. intros H. now apply orb_false_iff in H.
Qed.

Lemma split_go_not_nil (sep : jsstring) :
  forall s skip cur, split_go sep skip cur s <> [].
Proof.
  induction s as [|c s IH]; intros skip cur; simpl; [discriminate|].
  destruct skip; [|apply IH].
  destruct (startsWith sep (c :: s)); [discriminate|apply IH].
Qed.

(** Without an occurrence of the separator the split has one piece. *)
Lemma split_go_absent (sep : jsstring) :
  forall s cur, includes sep s = false ->
                split_go sep 0 cur s = [rev cur ++ s].
Proof.
  induction s as [|c s IH]; intros cur H.
  - simpl. now rewrite app_nil_r.
  - apply includes_cons_false in H as [H1 H2].
    cbn [split_go]. rewrite H1, (IH (c :: cur) H2). simpl.
    now rewrite <- app_assoc.
Qed.

Lemma split_absent (sep s : jsstring) :
  includes sep s = false -> split sep s = [s].
Proof. intros H. unfold split. now rewrite split_go_absent. Qed.

(** Passing over the rest of a separator occurrence. *)
Lemma split_go_skip (sep : jsstring) :
  forall w cur s, split_go sep (length w) cur (w ++ s) = split_go sep 0 cur s
                  \/ (s = [] /\ split_go sep (length w) cur (w ++ s) = [rev cur]).
Proof.
  induction w as [|c w IH]; intros cur s; simpl.
  - now left.
  - apply IH.
Qed.

Lemma split_go_nil (sep cur : jsstring) : split_go sep 0 cur [] = [rev cur].
Proof. reflexivity. Qed.

Lemma split_go_skip_eq (sep : jsstring) (w cur s : jsstring) :
  split_go sep (length w) cur (w ++ s) = split_go sep 0 cur s.
Proof.
  destruct (split_go_skip sep w cur s) as [H|[-> H]]; [exact H|].
  now rewrite H.
Qed.

Lemma join_cons (sep p : jsstring) (rest : list jsstring) :
  rest <> [] -> join sep (p :: rest) = p ++ sep ++ join sep rest.
Proof. destruct rest; [congruence|reflexivity]. Qed.

(** Joining the pieces with the separator gives the string back. *)
Lemma join_split_go (sep : jsstring) (Hsep : sep <> []) :
  forall n s cur, length s <= n ->
                  join sep (split_go sep 0 cur s) = rev cur ++ s.
Proof.
  induction n as [|n IH]; intros s cur Hlen.
  - destruct s; [|simpl in Hlen; lia]. simpl. now rewrite app_nil_r.
  - destruct s as [|c s]; [simpl; now rewrite app_nil_r|].
    cbn [split_go].
    destruct (startsWith sep (c :: s)) eqn:Hp.
    + pose proof (startsWith_inv _ _ Hp) as Hs.
      destruct sep as [|x sep']; [congruence|].
      simpl in Hs. injection Hs as Hc Hs. subst x.
      rewrite join_cons by apply split_go_not_nil.
      replace (length (c :: sep') - 1) with (length sep') by (simpl; lia).
      set (s2 := skipn (length sep') s) in *.
      rewrite Hs, split_go_skip_eq, IH.
      * reflexivity.
      * simpl in Hlen. rewrite Hs, length_app in Hlen. lia.
    + rewrite IH by (simpl in Hlen; lia). simpl.
      now rewrite <- app_assoc.
Qed.

Lemma join_split (sep s : jsstring) :
  sep <> [] -> join sep (split sep s) = s.
Proof.
  intros H. unfold split. now rewrite (join_split_go sep H (length s)).
Qed.

End StringFacts.

(* ================================================================== *)
(** * Facts about trimming                                             *)
(* ================================================================== *)

Section TrimFacts.

Lemma dropWhile_app (p : N -> bool) (a b : jsstring) :
  dropWhile p (a ++ b) =
  match dropWhile p a with
  | [] => dropWhile p b
  | _ :: _ => dropWhile p a ++ b
  end.
Proof.
  induction a as [|x a IH]; simpl; [reflexivity|].
  destruct (p x); [exact IH|reflexivity].
Qed.

Lemma trimEnd_snoc_ws (s : jsstring) (c : N) :
  isWS c = true -> trimEnd (s ++ [c]) = trimEnd s.
Proof.
  intros H. unfold trimEnd. rewrite rev_app_distr. simpl. now rewrite H.
Qed.

Lemma trim_snoc_ws (s : jsstring) (c : N) :
  isWS c = true -> trim (s ++ [c]) = trim s.
Proof.
  intros H. unfold trim, trimStart. rewrite dropWhile_app.
  destruct (dropWhile isWS s) as [|y t] eqn:E.
  - simpl. now rewrite H.
  - now rewrite trimEnd_snoc_ws.
Qed.

Lemma trim_cons_ws (s : jsstring) (c : N) :
  isWS c = true -> trim (c :: s) = trim s.
Proof. intros H. unfold trim, trimStart. simpl. now rewrite H. Qed.

End TrimFacts.

(* ================================================================== *)
(** * DocumentParser: splitting                                        *)
(* ================================================================== *)

Section SplitFacts.

(** A pattern that starts inside [x] and is free of the code unit that
    follows [x] lies wholly inside [x]. *)
Lemma startsWith_before (p : jsstring) (c : N) (y : jsstring) :
  ~ In c p ->
  forall x, startsWith p (x ++ c :: y) = true -> startsWith p x = true.
Proof.
  induction p as [|a p IH]; intros Hc x H; [reflexivity|].
  destruct x as [|b x]; simpl in H |- *;
    apply andb_true_iff in H as [Hab H].
  - apply N.eqb_eq in Hab. subst. exfalso. apply Hc. now left.
  - rewrite Hab. simpl. apply IH; [|exact H].
    intros Hin. apply Hc. now right.
Qed.

Lemma delimiter_before_LF (x y : jsstring) :
  startsWith delimiter (x ++ LF :: y) = true -> startsWith delimiter x = true.
Proof.
  apply startsWith_before. unfold delimiter, LF. simpl.
  intros [H|[H|[H|[]]]]; discriminate H.
Qed.

Lemma split_go_summary (B : jsstring) :
  forall S cur,
    includes delimiter S = false ->
    split_go delimiter 0 cur (S ++ LF :: delimiter ++ LF :: B) =
    (rev cur ++ S ++ [LF]) :: split delimiter (LF :: B).
Proof.
  induction S as [|c S IH]; intros cur H.
  - reflexivity.
  - apply includes_cons_false in H as [H1 H2].
    rewrite <- app_comm_cons. cbn [split_go].
    destruct (startsWith delimiter (c :: S ++ LF :: delimiter ++ LF :: B)) eqn:E.
    + rewrite app_comm_cons in E. apply delimiter_before_LF in E. congruence.
    + rewrite (IH (c :: cur) H2). simpl. now rewrite <- app_assoc.
Qed.

Lemma delimiter_nonempty : delimiter <> [].
Proof. discriminate. Qed.

End SplitFacts.


(* ================================================================== *)
(** * The leftmost occurrence of a separator                           *)
(* ================================================================== *)

Section CutFacts.

Variable sep : jsstring.
Hypothesis sep_nonempty : sep <> [].

Lemma startsWith_nil_false : startsWith sep [] = false.
Proof using sep_nonempty. destruct sep; [congruence|reflexivity]. Qed.

Lemma Cut_app (s a b : jsstring) : Cut sep s a b -> s = a ++ sep ++ b.
Proof. induction 1; simpl; congruence. Qed.

Lemma Cut_length (s a b : jsstring) :
  Cut sep s a b -> length s = length a + length sep + length b.
Proof.
  intros H. rewrite (Cut_app _ _ _ H), !length_app. lia.
Qed.

(** A string either is free of [sep] or has a leftmost occurrence. *)
Lemma Cut_or_absent (s : jsstring) :
  includes sep s = false \/ exists a b, Cut sep s a b.
Proof.
  induction s as [|c s IH].
  - left. simpl. now rewrite startsWith_nil_false.
  - destruct (startsWith sep (c :: s)) eqn:E.
    + right. exists [], (skipn (length sep) (c :: s)).
      rewrite (startsWith_inv _ _ E) at 1. constructor.
    + destruct IH as [IH|(a & b & IH)].
      * left. simpl in *. now rewrite E, IH.
      * right. exists (c :: a), b. now constructor.
Qed.

Lemma Cut_includes (s a b : jsstring) : Cut sep s a b -> includes sep s = true.
Proof.
  induction 1 as [b|c s a b E _ IH].
  - destruct (sep ++ b) eqn:E; simpl; rewrite <- ?E;
      now rewrite startsWith_app.
  - simpl in *. rewrite IH. apply orb_true_r.
Qed.

Lemma split_go_Cut (s a b : jsstring) :
  Cut sep s a b ->
  forall cur, split_go sep 0 cur s = (rev cur ++ a) :: split sep b.
Proof using sep_nonempty.
  induction 1 as [b|c s a b E _ IH]; intros cur.
  - destruct sep as [|x sep'] eqn:Es; [congruence|].
    rewrite <- app_comm_cons. cbn [split_go].
    rewrite app_comm_cons, startsWith_app, app_nil_r.
    replace (length (x :: sep') - 1) with (length sep') by (simpl; lia).
    now rewrite split_go_skip_eq.
  - cbn [split_go]. rewrite E, IH. simpl. now rewrite <- app_assoc.
Qed.

Lemma split_Cut (s a b : jsstring) :
  Cut sep s a b -> split sep s = a :: split sep b.
Proof using sep_nonempty. intros H. unfold split at 1. now rewrite (split_go_Cut _ _ _ H). Qed.

(** A leftmost occurrence found by construction: [a] is free of [sep] and
    no occurrence straddles the end of [a]. *)
Lemma Cut_intro (a b : jsstring) :
  (forall a1 a2, a = a1 ++ a2 -> a2 <> [] ->
                 startsWith sep (a2 ++ sep ++ b) = false) ->
  Cut sep (a ++ sep ++ b) a b.
Proof.
  induction a as [|c a IH]; intros H; simpl.
  - constructor.
  - constructor.
    + apply (H [] (c :: a)); [reflexivity|discriminate].
    + apply IH. intros a1 a2 -> Hne.
      apply (H (c :: a1) a2); [reflexivity|exact Hne].
Qed.

End CutFacts.

(* ================================================================== *)
(** * Facts about the matcher                                          *)
(* ================================================================== *)

Section MatcherFacts.

Variable p : N -> bool.

Lemma starGreedy_stops (pos : nat) (s : jsstring) (cap : capture) (k : cont) :
  stops p s -> starGreedy p pos s cap k = k pos s cap.
Proof.
  destruct s as [|c s]; simpl; [reflexivity|]. now intros ->.
Qed.

(** A success further to the right wins. *)
Lemma starGreedy_deeper (k : cont) (cap : capture) (r : nat * capture) :
  forall u pos s,
    forallb p u = true ->
    starGreedy p (pos + length u) s cap k = Some r ->
    starGreedy p pos (u ++ s) cap k = Some r.
Proof.
  induction u as [|c u IH]; intros pos s Hu H; simpl in *.
  - now rewrite Nat.add_0_r in H.
  - apply andb_true_iff in Hu as [Hc Hu]. rewrite Hc.
    rewrite (IH (S pos) s Hu); [reflexivity|].
    now rewrite Nat.add_succ_r in H.
Qed.

(** The star fails when the continuation fails at every stop. *)
Lemma starGreedy_none (k : cont) (cap : capture) :
  forall v pos s,
    forallb p v = true -> stops p s ->
    (forall v1 v2, v = v1 ++ v2 -> k (pos + length v1) (v2 ++ s) cap = None) ->
    starGreedy p pos (v ++ s) cap k = None.
Proof.
  induction v as [|c v IH]; intros pos s Hv Hs H.
  - simpl. rewrite starGreedy_stops by exact Hs.
    specialize (H [] [] eq_refl). simpl in H. now rewrite Nat.add_0_r in H.
  - simpl in Hv. apply andb_true_iff in Hv as [Hc Hv].
    simpl. rewrite Hc, IH; try assumption.
    + simpl. specialize (H [] (c :: v) eq_refl). simpl in H.
      now rewrite Nat.add_0_r in H.
    + intros v1 v2 ->. specialize (H (c :: v1) v2 eq_refl).
      simpl in H. now rewrite Nat.add_succ_r in H.
Qed.

(** The star succeeds as soon as the continuation succeeds at its far end. *)
Lemma starGreedy_some (k : cont) (cap : capture) :
  forall w pos s,
    forallb p w = true ->
    k (pos + length w) s cap <> None ->
    starGreedy p pos (w ++ s) cap k <> None.
Proof.
  induction w as [|c w IH]; intros pos s Hw H.
  - simpl in *. rewrite Nat.add_0_r in H.
    destruct s as [|c s]; simpl; [exact H|].
    destruct (p c); [|exact H].
    destruct (starGreedy p (S pos) s cap k); [discriminate|exact H].
  - simpl in Hw. apply andb_true_iff in Hw as [Hc Hw].
    simpl. rewrite Hc.
    specialize (IH (S pos) s Hw). simpl in H.
    rewrite Nat.add_succ_r in H. specialize (IH H).
    destruct (starGreedy p (S pos) (w ++ s) cap k); [discriminate|congruence].
Qed.

(** A continuation that hands the capture on makes the star do so. *)
Lemma starGreedy_capture (k : cont) (cap : capture) :
  (forall pos s r, k pos s cap = Some r -> snd r = cap) ->
  forall s pos r, starGreedy p pos s cap k = Some r -> snd r = cap.
Proof.
  intros Hk. induction s as [|c s IH]; intros pos r H; simpl in H.
  - now apply Hk in H.
  - destruct (p c); [|now apply Hk in H].
    destruct (starGreedy p (S pos) s cap k) eqn:E.
    + injection H as <-. now apply IH in E.
    + now apply Hk in H.
Qed.

Lemma dropWhile_length (s : jsstring) : length (dropWhile p s) <= length s.
Proof.
  induction s as [|x s IH]; simpl; [lia|].
  destruct (p x); simpl; lia.
Qed.

(** With the final continuation the star takes the longest run. *)
Lemma starGreedy_final (cap : capture) :
  forall s pos,
    starGreedy p pos s cap (fun pos' _ cap' => Some (pos', cap'))
    = Some (pos + (length s - length (dropWhile p s)), cap).
Proof.
  induction s as [|c s IH]; intros pos; cbn [starGreedy dropWhile].
  - cbn. now rewrite Nat.add_0_r.
  - destruct (p c) eqn:E.
    + rewrite IH. cbn [orElse length].
      pose proof (dropWhile_length s).
      do 2 f_equal. lia.
    + do 2 f_equal. lia.
Qed.

Lemma starLazy_here (pos : nat) (s : jsstring) (cap : capture) (k : cont)
      (r : nat * capture) :
  k pos s cap = Some r -> starLazy p pos s cap k = Some r.
Proof. intros H. destruct s; simpl; now rewrite H. Qed.

(** The lazy star walks over a run at which the continuation fails. *)
Lemma starLazy_skip (k : cont) (cap : capture) :
  forall b pos s,
    forallb p b = true ->
    (forall b1 b2, b = b1 ++ b2 -> b2 <> [] ->
                   k (pos + length b1) (b2 ++ s) cap = None) ->
    starLazy p pos (b ++ s) cap k = starLazy p (pos + length b) s cap k.
Proof.
  induction b as [|c b IH]; intros pos s Hb H.
  - simpl. now rewrite Nat.add_0_r.
  - simpl in Hb. apply andb_true_iff in Hb as [Hc Hb].
    assert (H0 : k pos (c :: b ++ s) cap = None).
    { specialize (H [] (c :: b) eq_refl). simpl in H.
      rewrite Nat.add_0_r in H. apply H. discriminate. }
    simpl. rewrite H0, Hc. simpl. rewrite IH; try assumption.
    + now rewrite Nat.add_succ_r.
    + intros b1 b2 -> Hne. specialize (H (c :: b1) b2 eq_refl Hne).
      simpl in H. now rewrite Nat.add_succ_r in H.
Qed.

Lemma starLazy_none (k : cont) (cap : capture) :
  forall s pos,
    (forall s1 s2, s = s1 ++ s2 -> k (pos + length s1) s2 cap = None) ->
    starLazy p pos s cap k = None.
Proof.
  induction s as [|c s IH]; intros pos H.
  - simpl. specialize (H [] [] eq_refl). simpl in H.
    rewrite Nat.add_0_r in H. now rewrite H.
  - pose proof (H [] (c :: s) eq_refl) as H0. simpl in H0.
    rewrite Nat.add_0_r in H0. simpl. rewrite H0. simpl.
    destruct (p c); [|reflexivity].
    apply IH. intros s1 s2 ->. specialize (H (c :: s1) s2 eq_refl).
    simpl in H. now rewrite Nat.add_succ_r in H.
Qed.

End MatcherFacts.

Section RunFacts.

Lemma run_Cat (r1 r2 : regex) (pos : nat) (s : jsstring) (cap : capture)
      (k : cont) :
  run (r1 +++ r2) pos s cap k
  = run r1 pos s cap (fun pos' s' cap' => run r2 pos' s' cap' k).
Proof. reflexivity. Qed.

Lemma run_Star (p : N -> bool) (pos : nat) (s : jsstring) (cap : capture)
      (k : cont) :
  run (Star p) pos s cap k = starGreedy p pos s cap k.
Proof. reflexivity. Qed.

Lemma run_Opt (r : regex) (pos : nat) (s : jsstring) (cap : capture)
      (k : cont) :
  run (Opt r) pos s cap k = orElse (run r pos s cap k) (k pos s cap).
Proof. reflexivity. Qed.

Lemma run_Lit_ok (l : jsstring) (pos : nat) (s : jsstring) (cap : capture)
      (k : cont) :
  run (Lit l) pos (l ++ s) cap k = k (pos + length l) s cap.
Proof.
  cbn [run]. rewrite startsWith_app.
  now rewrite skipn_app, skipn_all, Nat.sub_diag.
Qed.

Lemma run_Lit_fail (l : jsstring) (pos : nat) (s : jsstring) (cap : capture)
      (k : cont) :
  startsWith l s = false -> run (Lit l) pos s cap k = None.
Proof. intros H. cbn [run]. now rewrite H. Qed.

Lemma run_Chr_ok (p : N -> bool) (pos : nat) (c : N) (s : jsstring)
      (cap : capture) (k : cont) :
  p c = true -> run (Chr p) pos (c :: s) cap k = k (S pos) s cap.
Proof. intros H. cbn [run]. now rewrite H. Qed.

Lemma run_Chr_fail (p : N -> bool) (pos : nat) (s : jsstring)
      (cap : capture) (k : cont) :
  stops p s -> run (Chr p) pos s cap k = None.
Proof.
  intros H. destruct s as [|c s]; cbn [run]; [reflexivity|].
  simpl in H. now rewrite H.
Qed.

Lemma run_Bos (s : jsstring) (cap : capture) (k : cont) :
  run Bos 0 s cap k = k 0 s cap.
Proof. reflexivity. Qed.

End RunFacts.

Section SearchFacts.

Lemma matchAt_Lit_fail (l : jsstring) (r : regex) (pos : nat) (s : jsstring) :
  startsWith l s = false -> matchAt (Lit l +++ r) pos s = None.
Proof. intros H. unfold matchAt. simpl. now rewrite H. Qed.

Lemma matchAt_Bos_fail (r : regex) (pos : nat) (s : jsstring) :
  pos <> 0 -> matchAt (Bos +++ r) pos s = None.
Proof.
  intros H. unfold matchAt. simpl.
  destruct (Nat.eqb_spec pos 0); [congruence|reflexivity].
Qed.

Lemma search_here (r : regex) (pos : nat) (s : jsstring) (len : nat)
      (cap : capture) :
  matchAt r pos s = Some (len, cap) -> search r pos s = Some (pos, len, cap).
Proof. intros H. destruct s; simpl; now rewrite H. Qed.

Lemma search_none (r : regex) :
  forall s pos,
    (forall s1 s2, s = s1 ++ s2 -> matchAt r (pos + length s1) s2 = None) ->
    search r pos s = None.
Proof.
  induction s as [|c s IH]; intros pos H.
  - simpl. specialize (H [] [] eq_refl). simpl in H.
    rewrite Nat.add_0_r in H. now rewrite H.
  - pose proof (H [] (c :: s) eq_refl) as H0. simpl in H0.
    rewrite Nat.add_0_r in H0. simpl. rewrite H0.
    apply IH. intros s1 s2 ->. specialize (H (c :: s1) s2 eq_refl).
    simpl in H. now rewrite Nat.add_succ_r in H.
Qed.

Lemma search_skip (r : regex) :
  forall a pos s,
    (forall a1 a2, a = a1 ++ a2 -> a2 <> [] ->
                   matchAt r (pos + length a1) (a2 ++ s) = None) ->
    search r pos (a ++ s) = search r (pos + length a) s.
Proof.
  induction a as [|c a IH]; intros pos s H.
  - simpl. now rewrite Nat.add_0_r.
  - assert (H0 : matchAt r pos (c :: a ++ s) = None).
    { specialize (H [] (c :: a) eq_refl). simpl in H.
      rewrite Nat.add_0_r in H. apply H. discriminate. }
    simpl. rewrite H0.
    rewrite IH.
    + now rewrite Nat.add_succ_r.
    + intros a1 a2 -> Hne. specialize (H (c :: a1) a2 eq_refl Hne).
      simpl in H. now rewrite Nat.add_succ_r in H.
Qed.

(** A pattern anchored at the start matches at index 0 or nowhere. *)
Lemma search_Bos (r : regex) (s : jsstring) :
  search (Bos +++ r) 0 s =
  match matchAt (Bos +++ r) 0 s with
  | Some (len, cap) => Some (0, len, cap)
  | None => None
  end.
Proof.
  destruct (matchAt (Bos +++ r) 0 s) as [[len cap]|] eqn:E.
  - now apply search_here.
  - destruct s as [|c s]; simpl; rewrite E; [reflexivity|].
    apply search_none. intros s1 s2 _. now apply matchAt_Bos_fail.
Qed.

(** A pattern that opens with a literal is first tried with success where
    the literal first occurs. *)
Lemma search_Lit_Cut (l : jsstring) (r : regex) (s a b : jsstring) :
  Cut l s a b ->
  forall pos, search (Lit l +++ r) pos s
              = search (Lit l +++ r) (pos + length a) (l ++ b).
Proof.
  induction 1 as [b|c s a b E _ IH]; intros pos.
  - simpl. now rewrite Nat.add_0_r.
  - cbn [search]. rewrite matchAt_Lit_fail by exact E. rewrite IH.
    simpl. now rewrite Nat.add_succ_r.
Qed.

Lemma search_Lit_absent (l : jsstring) (r : regex) :
  forall s pos, includes l s = false -> search (Lit l +++ r) pos s = None.
Proof.
  induction s as [|c s IH]; intros pos H.
  - simpl in H. rewrite orb_false_r in H. simpl.
    now rewrite matchAt_Lit_fail by exact H.
  - apply includes_cons_false in H as [H1 H2].
    cbn [search]. rewrite matchAt_Lit_fail by exact H1. now apply IH.
Qed.

End SearchFacts.

(* ================================================================== *)
(** * Bold markers in the two encodings                                *)
(* ================================================================== *)

Section BoldFacts.

Import Html Notion.

Lemma boldMarker_nonempty : boldMarker <> [].
Proof. discriminate. Qed.

Lemma includes_suffix (sub : jsstring) :
  forall x y, includes sub (x ++ y) = false -> includes sub y = false.
Proof.
  induction x as [|c x IH]; intros y H; [exact H|].
  simpl in H. apply orb_false_iff in H as [_ H]. now apply IH.
Qed.

Lemma includes_startsWith (sub s : jsstring) :
  includes sub s = false -> startsWith sub s = false.
Proof. destruct s; simpl; intros H; now apply orb_false_iff in H. Qed.

Lemma Cut_before (sep s a b : jsstring) :
  Cut sep s a b ->
  forall a1 a2, a = a1 ++ a2 -> a2 <> [] ->
                startsWith sep (a2 ++ sep ++ b) = false.
Proof.
  induction 1 as [b|c s a b E H IH]; intros a1 a2 Ha Hne.
  - destruct a1; destruct a2; simpl in Ha; congruence.
  - destruct a1 as [|x a1]; simpl in Ha.
    + subst a2. simpl. now rewrite <- (Cut_app _ _ _ _ H).
    + injection Ha as _ Ha. now apply (IH a1 a2).
Qed.

(** The continuation of the lazy star in [boldRe]. *)
Lemma matchAt_bold (pos : nat) (s1 : jsstring) :
  matchAt boldRe pos (boldMarker ++ s1) =
  match starLazy dot (pos + 2) s1 None
          (fun pos' s' _ =>
             if startsWith boldMarker s'
             then Some (pos' + 2, Some (firstn (pos' - (pos + 2)) s1))
             else None) with
  | Some (e, cap) => Some (e - pos, cap)
  | None => None
  end.
Proof. reflexivity. Qed.

(** An opening marker without a later marker does not match. *)
Lemma matchAt_bold_unclosed (pos : nat) (s1 : jsstring) :
  includes boldMarker s1 = false ->
  matchAt boldRe pos (boldMarker ++ s1) = None.
Proof.
  intros H. rewrite matchAt_bold, starLazy_none; [reflexivity|].
  intros x y ->. apply includes_suffix in H.
  now rewrite (includes_startsWith _ _ H).
Qed.

(** An opening marker matches up to the next marker on the line. *)
Lemma matchAt_bold_closed (pos : nat) (s1 b s2 : jsstring) :
  Cut boldMarker s1 b s2 -> forallb dot b = true ->
  matchAt boldRe pos (boldMarker ++ s1) = Some (length b + 4, Some b).
Proof.
  intros HC Hb. rewrite matchAt_bold, (Cut_app _ _ _ _ HC).
  rewrite starLazy_skip; [|exact Hb|].
  - rewrite (starLazy_here _ _ _ _ _
               (pos + 2 + length b + 2, Some b)).
    + f_equal. f_equal. lia.
    + rewrite startsWith_app. f_equal. f_equal. f_equal.
      replace (pos + 2 + length b - (pos + 2)) with (length b) by lia.
      now rewrite firstn_app, firstn_all, Nat.sub_diag, app_nil_r.
  - intros b1 b2 Hb12 Hne. now rewrite (Cut_before _ _ _ _ HC b1 b2 Hb12 Hne).
Qed.

Lemma matchAt_bold_other (pos : nat) (s : jsstring) :
  startsWith boldMarker s = false -> matchAt boldRe pos s = None.
Proof. intros H. unfold boldRe. now rewrite matchAt_Lit_fail. Qed.

Lemma replaceAll_go_none (r : regex) (rep : capture -> jsstring)
      (pos : nat) (c : N) (s : jsstring) :
  matchAt r pos (c :: s) = None ->
  replaceAll_go r rep pos 0 (c :: s)
  = c :: replaceAll_go r rep (S pos) 0 s.
Proof. intros H. cbn [replaceAll_go]. now rewrite H. Qed.

Lemma replaceAll_go_some (r : regex) (rep : capture -> jsstring)
      (pos : nat) (c : N) (s : jsstring) (k : nat) (cap : capture) :
  matchAt r pos (c :: s) = Some (S k, cap) ->
  replaceAll_go r rep pos 0 (c :: s)
  = rep cap ++ replaceAll_go r rep (S pos) k s.
Proof. intros H. cbn [replaceAll_go]. now rewrite H. Qed.

Lemma replaceAll_go_skip (r : regex) (rep : capture -> jsstring) :
  forall w pos s,
    replaceAll_go r rep pos (length w) (w ++ s)
    = replaceAll_go r rep (pos + length w) 0 s.
Proof.
  induction w as [|c w IH]; intros pos s.
  - simpl. now rewrite Nat.add_0_r.
  - simpl. rewrite IH. now rewrite Nat.add_succ_r.
Qed.

(** Code units at which nothing matches are copied. *)
Lemma replaceAll_go_copy (r : regex) (rep : capture -> jsstring) :
  forall a pos s,
    (forall a1 a2, a = a1 ++ a2 -> a2 <> [] ->
                   matchAt r (pos + length a1) (a2 ++ s) = None) ->
    replaceAll_go r rep pos 0 (a ++ s)
    = a ++ replaceAll_go r rep (pos + length a) 0 s.
Proof.
  induction a as [|c a IH]; intros pos s H.
  - simpl app. now rewrite Nat.add_0_r.
  - assert (H0 : matchAt r pos (c :: a ++ s) = None).
    { specialize (H [] (c :: a) eq_refl). simpl in H.
      rewrite Nat.add_0_r in H. apply H. discriminate. }
    rewrite <- app_comm_cons. cbn [replaceAll_go]. rewrite H0, IH.
    + simpl. now rewrite Nat.add_succ_r.
    + intros a1 a2 -> Hne. specialize (H (c :: a1) a2 eq_refl Hne).
      simpl in H. now rewrite Nat.add_succ_r in H.
Qed.

Lemma replaceAll_bold_absent (s : jsstring) (pos : nat) :
  includes boldMarker s = false ->
  replaceAll_go boldRe strong pos 0 s = s.
Proof.
  intros H.
  rewrite <- (app_nil_r s) at 1. rewrite replaceAll_go_copy.
  - cbn. now rewrite app_nil_r.
  - intros a1 a2 -> _. rewrite app_nil_r. apply matchAt_bold_other.
    apply includes_startsWith. now apply includes_suffix in H.
Qed.

Lemma replaceAll_bold_tail (c : N) (s1 : jsstring) (pos : nat) :
  includes boldMarker s1 = false ->
  replaceAll_go boldRe strong pos 0 (c :: s1) = c :: s1.
Proof.
  intros H.
  assert (E : matchAt boldRe pos (c :: s1) = None).
  { destruct (startsWith boldMarker (c :: s1)) eqn:Es.
    - rewrite (startsWith_inv _ _ Es). apply matchAt_bold_unclosed.
      simpl. destruct s1 as [|d s1].
      + simpl in Es. rewrite andb_false_r in Es. discriminate Es.
      + now apply (includes_suffix _ [d]).
    - now apply matchAt_bold_other. }
  rewrite replaceAll_go_none by exact E. f_equal.
  now apply replaceAll_bold_absent.
Qed.

Lemma paired_pair (p q : jsstring) (rest : list jsstring) :
  rest <> [] ->
  paired (p :: q :: rest) = p ++ strong (Some q) ++ paired rest.
Proof. destruct rest; [congruence|reflexivity]. Qed.

(** The bold replacement of a line free of line terminators, by the pieces
    between its markers. *)
Lemma replaceAll_bold_paired :
  forall n s pos,
    length s <= n -> forallb dot s = true ->
    replaceAll_go boldRe strong pos 0 s = paired (split boldMarker s).
Proof.
  induction n as [|n IH]; intros s pos Hlen Hdot.
  - destruct s; [reflexivity|simpl in Hlen; lia].
  - destruct (Cut_or_absent _ boldMarker_nonempty s) as [Habs|(a & s1 & HC)].
    + rewrite (split_absent _ _ Habs). simpl.
      now apply replaceAll_bold_absent.
    + rewrite (split_Cut _ boldMarker_nonempty _ _ _ HC).
      pose proof (Cut_app _ _ _ _ HC) as Es.
      pose proof (Cut_length _ _ _ _ HC) as Hl. simpl in Hl.
      rewrite Es at 1. rewrite replaceAll_go_copy.
      2:{ intros a1 a2 Ha Hne. apply matchAt_bold_other.
          apply (Cut_before _ _ _ _ HC a1 a2 Ha Hne). }
      rewrite Es, !forallb_app in Hdot.
      apply andb_true_iff in Hdot as [_ Hdot].
      apply andb_true_iff in Hdot as [_ Hdot].
      destruct (Cut_or_absent _ boldMarker_nonempty s1)
        as [Habs|(b & s2 & HC1)].
      * rewrite (split_absent _ _ Habs). cbn [paired]. f_equal.
        change (boldMarker ++ s1) with (42%N :: 42%N :: s1).
        rewrite replaceAll_go_none
          by (apply (matchAt_bold_unclosed _ s1 Habs)).
        now rewrite replaceAll_bold_tail.
      * rewrite (split_Cut _ boldMarker_nonempty _ _ _ HC1).
        pose proof (Cut_app _ _ _ _ HC1) as Es1.
        pose proof (Cut_length _ _ _ _ HC1) as Hl1. simpl in Hl1.
        rewrite Es1, !forallb_app in Hdot.
        apply andb_true_iff in Hdot as [Hb Hdot].
        apply andb_true_iff in Hdot as [_ Hdot].
        rewrite paired_pair by apply split_go_not_nil. f_equal.
        change (boldMarker ++ s1) with (42%N :: 42%N :: s1) at 1.
        rewrite (replaceAll_go_some _ _ _ _ _ (length b + 3) (Some b)).
        2:{ change (42%N :: 42%N :: s1) with (boldMarker ++ s1).
            rewrite (matchAt_bold_closed _ _ _ _ HC1 Hb).
            do 2 f_equal. lia. }
        f_equal.
        rewrite Es1.
        replace (42%N :: b ++ boldMarker ++ s2)
          with ((42%N :: b ++ boldMarker) ++ s2)
          by (now rewrite <- app_comm_cons, <- app_assoc).
        replace (length b + 3) with (length (42%N :: b ++ boldMarker))
          by (simpl; rewrite length_app; simpl; lia).
        rewrite replaceAll_go_skip. apply IH; [lia|exact Hdot].
Qed.





End BoldFacts.

(* ================================================================== *)
(** * The title pattern                                                *)
(* ================================================================== *)

Section TitleFacts.

Import Title.

Local Abbreviation kf := (fun (pos' : nat) (_ : jsstring) (cap' : capture) =>
                        Some (pos', cap')).
Local Abbreviation R5 := (Star isWS +++ Lit [LF]).
Local Abbreviation R4 := (Group (StarLazy dotAll) +++ R5).
Local Abbreviation R3 := (Star isWS +++ R4).
Local Abbreviation R2 := (Opt (Lit (str "*")) +++ R3).
Local Abbreviation R1 := (Star isWS +++ R2).
Local Abbreviation R0 := (Lit [LF] +++ R1).

Lemma dropWhile_split (p : N -> bool) (s : jsstring) :
  exists v, s = v ++ dropWhile p s /\ forallb p v = true.
Proof.
  induction s as [|c s (v & E & Hv)]; [now exists []|].
  simpl. destruct (p c) eqn:Ec.
  - exists (c :: v). simpl. now rewrite Ec, Hv, <- E.
  - now exists [].
Qed.

Lemma stops_dropWhile (p : N -> bool) (s t : jsstring) :
  dropWhile p s <> [] -> stops p (dropWhile p s ++ t).
Proof.
  induction s as [|c s IH]; simpl; [congruence|].
  destruct (p c) eqn:E; [exact IH|]. intros _. exact E.
Qed.

Lemma trimEnd_length (s : jsstring) : length (trimEnd s) <= length s.
Proof.
  unfold trimEnd. rewrite length_rev.
  pose proof (dropWhile_length isWS (rev s)) as H.
  now rewrite length_rev in H.
Qed.

(** A non-empty string that trimming leaves alone starts and ends outside
    the whitespace. *)
Lemma trim_fixed_head (s : jsstring) :
  s <> [] -> trim s = s -> isWS (hd 0%N s) = false.
Proof.
  intros Hne H. destruct s as [|c s]; [congruence|]. simpl.
  destruct (isWS c) eqn:E; [|reflexivity].
  assert (L : length (trim (c :: s)) <= length s).
  { unfold trim, trimStart. simpl. rewrite E.
    etransitivity; [apply trimEnd_length|apply dropWhile_length]. }
  rewrite H in L. simpl in L. lia.
Qed.

Lemma trimEnd_fixed_last (s : jsstring) :
  s <> [] -> trimEnd s = s -> exists t z, s = t ++ [z] /\ isWS z = false.
Proof.
  intros Hne H. destruct (exists_last Hne) as (t & z & ->).
  exists t, z. split; [reflexivity|].
  destruct (isWS z) eqn:E; [|reflexivity].
  rewrite trimEnd_snoc_ws in H by exact E.
  pose proof (trimEnd_length t) as L. rewrite H, length_app in L.
  simpl in L. lia.
Qed.

Lemma trimEnd_idem (s : jsstring) : trimEnd (trimEnd s) = trimEnd s.
Proof.
  unfold trimEnd. rewrite rev_involutive. f_equal.
  induction (rev s) as [|c r IH]; simpl; [reflexivity|].
  destruct (isWS c) eqn:E; [exact IH|]. simpl. now rewrite E.
Qed.

Lemma trim_fixed_last (s : jsstring) :
  s <> [] -> trim s = s -> exists t z, s = t ++ [z] /\ isWS z = false.
Proof.
  intros Hne H. apply trimEnd_fixed_last; [exact Hne|].
  rewrite <- H at 1. unfold trim. rewrite trimEnd_idem. exact H.
Qed.

(** The last occurrence of a code unit. *)
Lemma last_occurrence (c : N) (w : jsstring) :
  In c w -> exists u v, w = u ++ c :: v /\ ~ In c v.
Proof.
  induction w as [|x w IH]; intros H; [destruct H|].
  destruct (in_dec N.eq_dec c w) as [Hin|Hout].
  - destruct (IH Hin) as (u & v & -> & Hv). now exists (x :: u), v.
  - destruct H as [->|H]; [|contradiction]. now exists [], w.
Qed.

Lemma startsWith_single (x c : N) (s : jsstring) :
  startsWith [x] (c :: s) = (x =? c)%N.
Proof. cbn [startsWith]. apply andb_true_r. Qed.

(** No line feed opens a text that starts in a run free of line feeds or,
    past it, outside the whitespace. *)
Lemma startsWith_LF_fail (v t : jsstring) :
  ~ In LF v -> stops isWS t -> startsWith [LF] (v ++ t) = false.
Proof.
  intros Hv Ht. destruct v as [|c v]; cbn [app].
  - destruct t as [|c t]; [reflexivity|]. rewrite startsWith_single.
    destruct (N.eqb_spec LF c) as [<-|]; [discriminate Ht|reflexivity].
  - rewrite startsWith_single.
    destruct (N.eqb_spec LF c) as [<-|]; [|reflexivity].
    exfalso. apply Hv. now left.
Qed.

(** [\s*\n] after the title succeeds on whitespace that ends a line. *)
Lemma run_R5_some (cap : capture) (w post : jsstring) (pos : nat) :
  forallb isWS w = true ->
  exists e, run R5 pos (w ++ LF :: post) cap kf = Some (e, cap).
Proof.
  intros Hw. cbn [run].
  destruct (starGreedy isWS pos (w ++ LF :: post) cap
              (fun pos' s' cap' =>
                 if startsWith [LF] s'
                 then Some (pos' + length [LF], cap') else None))
    as [[e c]|] eqn:E.
  - exists e. f_equal. f_equal.
    apply starGreedy_capture in E; [exact E|].
    intros pos' s' r. destruct (startsWith [LF] s'); [|discriminate].
    now intros [= <-].
  - exfalso. revert E. apply starGreedy_some; [exact Hw|].
    change (startsWith [LF] (LF :: post)) with true. discriminate.
Qed.

(** ... and fails where text comes before the end of the line. *)
Lemma run_R5_none (cap : capture) (v t : jsstring) (pos : nat) :
  forallb isWS v = true -> ~ In LF v -> stops isWS t ->
  run R5 pos (v ++ t) cap kf = None.
Proof.
  intros Hv Hin Ht. cbn [run]. apply starGreedy_none; try assumption.
  intros v1 v2 ->. cbn [run]. rewrite startsWith_LF_fail; try easy.
  intros H. apply Hin. apply in_or_app. now right.
Qed.

(** The capture is the title text up to the whitespace that ends its line. *)
Lemma run_R4_core (cap : capture) (core trail post : jsstring) (pos : nat) :
  core <> [] -> trim core = core -> ~ In LF core ->
  forallb isWS trail = true ->
  exists e, run R4 pos (core ++ trail ++ LF :: post) cap kf
            = Some (e, Some core).
Proof.
  intros Hne Htrim Hlf Htrail.
  destruct (trim_fixed_last core Hne Htrim) as (t & z & Ecore & Hz).
  destruct (run_R5_some (Some core) trail post (pos + length core) Htrail)
    as (e & He).
  exists e. cbn [run] in He |- *.
  rewrite starLazy_skip; [|now apply forallb_forall|].
  - apply starLazy_here.
    replace (pos + length core - pos) with (length core) by lia.
    now rewrite firstn_app, firstn_all, Nat.sub_diag, app_nil_r.
  - intros b1 b2 Hb Hb2.
    destruct (dropWhile_split isWS b2) as (v & Ev & Hv).
    assert (Hd : dropWhile isWS b2 <> []).
    { destruct (exists_last Hb2) as (b2' & z' & ->).
      assert (z' = z).
      { rewrite Ecore, app_assoc in Hb.
        now apply app_inj_tail in Hb as [_ ->]. }
      subst z'. rewrite dropWhile_app.
      destruct (dropWhile isWS b2'); simpl; [now rewrite Hz|discriminate]. }
    rewrite Ev, <- app_assoc.
    apply (run_R5_none _ v _ _ Hv).
    + intros Hin. apply Hlf. rewrite Hb, Ev.
      apply in_or_app. right. apply in_or_app. now left.
    + now apply stops_dropWhile.
Qed.

Lemma run_R3_core (cap : capture) (w core trail post : jsstring) (pos : nat) :
  forallb isWS w = true ->
  core <> [] -> trim core = core -> ~ In LF core ->
  forallb isWS trail = true ->
  exists e, run R3 pos (w ++ core ++ trail ++ LF :: post) cap kf
            = Some (e, Some core).
Proof.
  intros Hw Hne Htrim Hlf Htrail.
  destruct (run_R4_core cap core trail post (pos + length w)
                        Hne Htrim Hlf Htrail) as (e & He).
  exists e. cbn [run] in He |- *.
  apply starGreedy_deeper; [exact Hw|].
  rewrite starGreedy_stops; [exact He|].
  pose proof (trim_fixed_head core Hne Htrim) as Hh.
  destruct core; [congruence|exact Hh].
Qed.

Lemma run_R1_core (cap : capture) (v : jsstring) (star : option jsstring)
      (core trail post : jsstring) (pos : nat) :
  forallb isWS v = true -> leaderFits star core ->
  core <> [] -> trim core = core -> ~ In LF core ->
  forallb isWS trail = true ->
  exists e, run R1 pos (v ++ leader star ++ core ++ trail ++ LF :: post)
                cap kf = Some (e, Some core).
Proof.
  intros Hv Hfit Hne Htrim Hlf Htrail.
  pose proof (trim_fixed_head core Hne Htrim) as Hh.
  destruct star as [w|]; simpl in Hfit; cbn [leader].
  - destruct (run_R3_core cap w core trail post (pos + length v + 1)
                          Hfit Hne Htrim Hlf Htrail) as (e & He).
    exists e. rewrite run_Cat, run_Star.
    apply starGreedy_deeper; [exact Hv|].
    rewrite starGreedy_stops by reflexivity.
    rewrite run_Cat, run_Opt.
    change ((42%N :: w) ++ core ++ trail ++ LF :: post)
      with (str "*" ++ w ++ core ++ trail ++ LF :: post).
    rewrite run_Lit_ok. change (length (str "*")) with 1.
    now rewrite He.
  - destruct (run_R3_core cap [] core trail post (pos + length v)
                          eq_refl Hne Htrim Hlf Htrail) as (e & He).
    exists e. rewrite run_Cat, run_Star.
    apply starGreedy_deeper; [exact Hv|].
    cbn [app] in He |- *.
    destruct core as [|c core]; [congruence|]. simpl in Hh, Hfit.
    rewrite starGreedy_stops by exact Hh.
    rewrite run_Cat, run_Opt, run_Lit_fail.
    + exact He.
    + rewrite <- app_comm_cons.
      change (str "*") with [42%N]. rewrite startsWith_single.
      destruct (N.eqb_spec 42 c); [congruence|reflexivity].
Qed.

Lemma matchAt_projectName (pos : nat) (gap : jsstring) (star : option jsstring)
      (core trail post : jsstring) :
  forallb isWS gap = true -> In LF gap -> leaderFits star core ->
  core <> [] -> trim core = core -> ~ In LF core ->
  forallb isWS trail = true ->
  exists len,
    matchAt projectNameRegex pos
            (titleHeader ++ gap ++ leader star ++ core ++ trail ++ LF :: post)
    = Some (len, Some core).
Proof.
  intros Hgap Hin Hfit Hne Htrim Hlf Htrail.
  destruct (last_occurrence LF gap Hin) as (u & v & -> & Hv).
  rewrite forallb_app in Hgap. apply andb_true_iff in Hgap as [Hu Hgap].
  cbn [forallb] in Hgap. apply andb_true_iff in Hgap as [_ Hgap].
  pose proof (trim_fixed_head core Hne Htrim) as Hh.
  set (X := leader star ++ core ++ trail ++ LF :: post).
  assert (HX : stops isWS X).
  { unfold X. destruct star; [reflexivity|].
    destruct core; [congruence|exact Hh]. }
  destruct (run_R1_core None v star core trail post
              (pos + length titleHeader + length u + 1)
              Hgap Hfit Hne Htrim Hlf Htrail) as (e & He).
  fold X in He.
  exists (e - pos). unfold matchAt, projectNameRegex.
  rewrite run_Cat, run_Lit_ok, run_Cat, run_Star.
  rewrite <- app_assoc. cbn [app].
  rewrite (starGreedy_deeper isWS _ None (e, Some core) u); try assumption.
  - reflexivity.
  - cbn [starGreedy]. change (isWS LF) with true. cbn iota.
    rewrite starGreedy_none; [|exact Hgap|exact HX|].
    + cbn [orElse]. rewrite run_Cat.
      change (LF :: v ++ X) with ([LF] ++ v ++ X).
      rewrite run_Lit_ok. exact He.
    + intros v1 v2 ->. rewrite run_Cat, run_Lit_fail; [reflexivity|].
      apply startsWith_LF_fail; [|exact HX].
      intros H. apply Hv. apply in_or_app. now right.
Qed.

End TitleFacts.

(* ================================================================== *)
(** * Content lines of the block-sequence encoding                     *)
(* ================================================================== *)

Section LineFacts.

Import Html Notion.

Lemma dropWhile_nil (p : N -> bool) (s : jsstring) :
  forallb p s = true -> dropWhile p s = [].
Proof.
  induction s as [|c s IH]; simpl; [reflexivity|].
  intros H. apply andb_true_iff in H as [-> H]. now apply IH.
Qed.

Lemma dropWhile_nil_inv (p : N -> bool) (s : jsstring) :
  dropWhile p s = [] -> forallb p s = true.
Proof.
  induction s as [|c s IH]; simpl; [reflexivity|].
  destruct (p c); [exact IH|discriminate].
Qed.

Lemma forallb_rev (p : N -> bool) (s : jsstring) :
  forallb p (rev s) = forallb p s.
Proof.
  induction s as [|c s IH]; simpl; [reflexivity|].
  rewrite forallb_app, IH. simpl. rewrite andb_true_r. apply andb_comm.
Qed.

Lemma trim_blank (w : jsstring) : forallb isWS w = true -> trim w = [].
Proof. intros H. unfold trim, trimStart. now rewrite dropWhile_nil. Qed.

Lemma trimEnd_nil_inv (s : jsstring) :
  trimEnd s = [] -> forallb isWS s = true.
Proof.
  unfold trimEnd. intros H.
  assert (E : dropWhile isWS (rev s) = []).
  { destruct (dropWhile isWS (rev s)) as [|c r]; [reflexivity|].
    apply (f_equal (@length N)) in H. rewrite length_rev in H.
    discriminate H. }
  rewrite <- forallb_rev. now apply dropWhile_nil_inv.
Qed.

Lemma nonBlank_trimEnd (s : jsstring) : nonBlank s = true -> trimEnd s <> [].
Proof.
  intros H E. apply trimEnd_nil_inv in E.
  unfold nonBlank in H. now rewrite (trim_blank _ E) in H.
Qed.

Lemma trimEnd_app (a b : jsstring) :
  trimEnd b <> [] -> trimEnd (a ++ b) = a ++ trimEnd b.
Proof.
  unfold trimEnd. intros H. rewrite rev_app_distr, dropWhile_app.
  destruct (dropWhile isWS (rev b)) as [|c r]; [now elim H|].
  now rewrite rev_app_distr, rev_involutive.
Qed.

Lemma trimStart_idem (s : jsstring) : trimStart (trimStart s) = trimStart s.
Proof.
  unfold trimStart. induction s as [|c s IH]; simpl; [reflexivity|].
  destruct (isWS c) eqn:E; [exact IH|]. simpl. now rewrite E.
Qed.

Lemma trim_trimStart (s : jsstring) : trim (trimStart s) = trim s.
Proof. unfold trim. now rewrite trimStart_idem. Qed.

Lemma skipn_dropWhile (p : N -> bool) (s : jsstring) :
  skipn (length s - length (dropWhile p s)) s = dropWhile p s.
Proof.
  induction s as [|c s IH]; [reflexivity|].
  cbn [dropWhile]. destruct (p c).
  - pose proof (dropWhile_length p s) as L.
    replace (length (c :: s) - length (dropWhile p s))
      with (S (length s - length (dropWhile p s)))
      by (cbn [length]; lia).
    exact IH.
  - now rewrite Nat.sub_diag.
Qed.

Lemma firstn_length_app (a b : jsstring) : firstn (length a) (a ++ b) = a.
Proof. induction a as [|c a IH]; simpl; [reflexivity|now rewrite IH]. Qed.

Lemma skipn_length_app (n : nat) (a b : jsstring) :
  skipn (length a + n) (a ++ b) = skipn n b.
Proof. induction a as [|c a IH]; simpl; [reflexivity|exact IH]. Qed.

Lemma checkbox_nonempty : checkbox <> [].
Proof. discriminate. Qed.

(** The checkbox pattern at a checkbox. *)
Lemma matchAt_checkbox (pos : nat) (y : jsstring) :
  matchAt checkboxRe pos (checkbox ++ y)
  = Some (3 + (length y - length (dropWhile isWS y)), None).
Proof.
  unfold matchAt, checkboxRe. change (str "[ ]") with checkbox.
  rewrite run_Cat, run_Lit_ok, run_Star, starGreedy_final.
  do 2 f_equal. change (length checkbox) with 3. lia.
Qed.

(** Stripping the first checkbox of a line and the whitespace after it. *)
Lemma replaceFirst_checkbox (line a y : jsstring) :
  Cut checkbox line a y ->
  replaceFirst checkboxRe empty line = a ++ dropWhile isWS y.
Proof.
  intros HC. unfold replaceFirst. unfold checkboxRe at 1.
  change (str "[ ]") with checkbox.
  rewrite (search_Lit_Cut _ _ _ _ _ HC 0).
  change (Lit checkbox +++ Star isWS) with checkboxRe.
  rewrite (search_here _ _ _ _ _ (matchAt_checkbox (0 + length a) y)).
  rewrite (Cut_app _ _ _ _ HC). cbn [empty app Nat.add].
  rewrite firstn_length_app, skipn_length_app. f_equal.
  cbn [skipn checkbox app]. apply skipn_dropWhile.
Qed.

Lemma replaceFirst_checkbox_absent (line : jsstring) :
  includes checkbox line = false ->
  replaceFirst checkboxRe empty line = line.
Proof.
  intros H. unfold replaceFirst, checkboxRe.
  change (str "[ ]") with checkbox. now rewrite search_Lit_absent.
Qed.


Lemma ws_not_bullet (c : N) : isWS c = true -> bulletChar c = false.
Proof.
  unfold bulletChar. intros H.
  destruct (N.eqb_spec c 42) as [->|]; [discriminate H|].
  destruct (N.eqb_spec c 45) as [->|]; [discriminate H|reflexivity].
Qed.

(** The bullet pattern does not match a line whose first code unit after
    the leading whitespace is no bullet. *)
Lemma matchAt_bullet_none (w t : jsstring) :
  forallb isWS w = true -> stops isWS t -> stops bulletChar t ->
  matchAt bulletRe 0 (w ++ t) = None.
Proof.
  intros Hw Ht Hb. unfold matchAt, bulletRe.
  rewrite run_Cat, run_Bos, run_Cat, run_Star.
  rewrite starGreedy_none; try assumption; [reflexivity|].
  intros v1 v2 ->. rewrite run_Cat, run_Chr_fail; [reflexivity|].
  destruct v2 as [|c v2]; [exact Hb|]. cbn [app stops].
  apply ws_not_bullet.
  rewrite forallb_app in Hw. apply andb_true_iff in Hw as [_ Hw].
  cbn [forallb] in Hw. now apply andb_true_iff in Hw as [Hw _].
Qed.

Lemma replaceFirst_bullet_absent (w t : jsstring) :
  forallb isWS w = true -> stops isWS t -> stops bulletChar t ->
  replaceFirst bulletRe empty (w ++ t) = w ++ t.
Proof.
  intros Hw Ht Hb. unfold replaceFirst. unfold bulletRe at 1.
  rewrite search_Bos. fold bulletRe.
  now rewrite matchAt_bullet_none.
Qed.

(** The bullet pattern at a bullet after leading whitespace. *)
Lemma replaceFirst_bullet (w : jsstring) (m : N) (y : jsstring) :
  forallb isWS w = true -> bulletChar m = true ->
  replaceFirst bulletRe empty (w ++ m :: y) = dropWhile isWS y.
Proof.
  intros Hw Hm.
  assert (Hs : isWS m = false).
  { destruct (isWS m) eqn:E; [|reflexivity].
    apply ws_not_bullet in E. congruence. }
  assert (E : matchAt bulletRe 0 (w ++ m :: y)
              = Some (length w + 1 + (length y - length (dropWhile isWS y)),
                      None)).
  { unfold matchAt, bulletRe.
    rewrite run_Cat, run_Bos, run_Cat, run_Star.
    rewrite (starGreedy_deeper isWS _ None
               (0 + length w + 1
                + (length y - length (dropWhile isWS y)), None) w);
      [do 2 f_equal; lia|exact Hw|].
    rewrite starGreedy_stops by exact Hs.
    rewrite run_Cat, run_Chr_ok by exact Hm.
    rewrite run_Star, starGreedy_final. do 2 f_equal. lia. }
  unfold replaceFirst. unfold bulletRe at 1. rewrite search_Bos.
  fold bulletRe. rewrite E. cbn [empty firstn app Nat.add].
  rewrite <- Nat.add_assoc, skipn_length_app.
  cbn [Nat.add skipn]. apply skipn_dropWhile.
Qed.


Lemma ws_no_checkbox (w : jsstring) :
  forallb isWS w = true -> includes checkbox w = false.
Proof.
  induction w as [|c w IH]; intros Hw; [reflexivity|].
  cbn [forallb] in Hw. apply andb_true_iff in Hw as [Hc Hw].
  cbn [includes]. rewrite (IH Hw), orb_false_r.
  destruct (N.eqb_spec 91 c) as [<-|Hn]; [discriminate Hc|].
  apply startsWith_cons_head. now apply N.eqb_neq.
Qed.

Lemma taskText_blank (w : jsstring) :
  forallb isWS w = true -> taskText w = [].
Proof.
  intros Hw. unfold taskText.
  rewrite replaceFirst_checkbox_absent by now apply ws_no_checkbox.
  now apply trim_blank.
Qed.

Lemma cleanedLine_blank (w : jsstring) :
  forallb isWS w = true -> cleanedLine w = [].
Proof.
  intros Hw. unfold cleanedLine. rewrite <- (app_nil_r w) at 1.
  rewrite replaceFirst_bullet_absent; try easy.
  rewrite app_nil_r. now apply trim_blank.
Qed.

(** A blank line yields no block. *)
Lemma lineBlocks_blank (title w : jsstring) :
  forallb isWS w = true -> lineBlocks title w = [].
Proof.
  intros Hw. unfold lineBlocks, taskBlocks, paragraphBlocks.
  rewrite (taskText_blank _ Hw), (cleanedLine_blank _ Hw).
  now destruct (includes tasksTitle title).
Qed.

(** A checkbox between whitespace is the leftmost one of its line. *)
Lemma Cut_checkbox_ws (w1 y : jsstring) :
  forallb isWS w1 = true -> Cut checkbox (w1 ++ checkbox ++ y) w1 y.
Proof.
  intros H1. apply Cut_intro. intros a1 a2 -> Hne.
  destruct a2 as [|c a2]; [congruence|].
  rewrite forallb_app in H1.
  apply andb_true_iff in H1 as [_ H1]. cbn [forallb] in H1.
  apply andb_true_iff in H1 as [Hc _].
  rewrite <- app_comm_cons.
  destruct (N.eqb_spec 91 c) as [<-|Hn]; [discriminate Hc|].
  apply startsWith_cons_head. now apply N.eqb_neq.
Qed.

(** In the tasks section a line that holds only a checkbox yields no
    block. *)
Lemma lineBlocks_checkbox_only (title w1 w2 : jsstring) :
  forallb isWS w1 = true -> forallb isWS w2 = true ->
  includes tasksTitle title = true ->
  lineBlocks title (w1 ++ checkbox ++ w2) = [].
Proof.
  intros H1 H2 Ht. unfold lineBlocks, taskBlocks. rewrite Ht.
  unfold taskText.
  rewrite (replaceFirst_checkbox _ w1 w2) by now apply Cut_checkbox_ws.
  now rewrite (dropWhile_nil _ _ H2), app_nil_r, (trim_blank _ H1).
Qed.

(** In the other sections a line that holds only a bullet yields no
    block. *)
Lemma lineBlocks_bullet_only (title w1 : jsstring) (m : N) (w2 : jsstring) :
  forallb isWS w1 = true -> forallb isWS w2 = true ->
  bulletChar m = true ->
  includes tasksTitle title = false ->
  lineBlocks title (w1 ++ m :: w2) = [].
Proof.
  intros H1 H2 Hm Ht. unfold lineBlocks, paragraphBlocks.
  rewrite Ht. unfold cleanedLine.
  rewrite (replaceFirst_bullet w1 m w2 H1 Hm).
  now rewrite (dropWhile_nil _ _ H2).
Qed.

(** A content line yields a task or a paragraph, never a heading. *)
Lemma lineBlocks_kind (title line : jsstring) (b : block) :
  In b (lineBlocks title line) ->
  lineBlocks title line = [b] /\
  ((exists rich_text, b = to_do rich_text false) \/
   (exists rich_text, b = paragraph rich_text)).
Proof.
  unfold lineBlocks, taskBlocks, paragraphBlocks.
  destruct (includes tasksTitle title);
    [destruct (truthy (taskText line))|destruct (truthy (cleanedLine line))];
    intros H; try destruct H as [<-|[]]; try destruct H;
    (split; [reflexivity|]); [left|right]; now eexists.
Qed.

(** Where the blocks of a content line stand in the output. *)
Lemma parse_line_position
      (markdown section line0 : jsstring) (contentLines : list jsstring)
      (line : jsstring) :
  In section (sections markdown) ->
  sectionLines section = line0 :: contentLines ->
  In line contentLines ->
  exists before between after,
    parseMarkdownToNotionBlocks markdown
    = before ++ heading_3 (createTextWithBold (titleOf line0))
             :: between ++ lineBlocks (titleOf line0) line ++ after.
Proof.
  intros Hsec Hlines Hline.
  apply in_split in Hsec as (l1 & l2 & Hsec).
  apply in_split in Hline as (c1 & c2 & Hline).
  exists (flat_map sectionBlocks l1),
    (flat_map (lineBlocks (titleOf line0)) c1),
    (flat_map (lineBlocks (titleOf line0)) c2 ++ flat_map sectionBlocks l2).
  unfold parseMarkdownToNotionBlocks. rewrite Hsec, flat_map_app.
  f_equal. cbn [flat_map]. unfold sectionBlocks at 1. rewrite Hlines.
  cbn zeta. rewrite Hline, flat_map_app. cbn [flat_map].
  cbn [app]. f_equal. now rewrite <- !app_assoc.
Qed.

(** Every block is a section's heading or comes from one of its content
    lines. *)
Lemma parse_block_origin (markdown : jsstring) (b : block) :
  In b (parseMarkdownToNotionBlocks markdown) ->
  (exists line0, b = heading_3 (createTextWithBold (titleOf line0))) \/
  exists section line0 contentLines line,
    In section (sections markdown) /\
    sectionLines section = line0 :: contentLines /\
    In line contentLines /\
    In b (lineBlocks (titleOf line0) line).
Proof.
  unfold parseMarkdownToNotionBlocks. intros H.
  apply in_flat_map in H as (section & Hsec & H).
  unfold sectionBlocks in H.
  destruct (sectionLines section) as [|line0 contentLines] eqn:E;
    [destruct H|].
  destruct H as [<-|H]; [left; now exists line0|].
  apply in_flat_map in H as (line & Hline & H).
  right. now exists section, line0, contentLines, line.
Qed.

Lemma sectionLines_nonBlank (section line : jsstring) :
  In line (sectionLines section) -> nonBlank line = true.
Proof. unfold sectionLines. intros H. now apply filter_In in H. Qed.

End LineFacts.

(* ================================================================== *)
(** * The hypertext loop                                               *)
(* ================================================================== *)

Section HtmlFacts.

Import Html.

Lemma render_app (es fs : list element) :
  render (es ++ fs) = render es ++ render fs.
Proof. unfold render. now rewrite map_app, concat_app. Qed.

Lemma render_one (e : element) : render [e] = renderElement e.
Proof. unfold render. simpl. apply app_nil_r. Qed.

Lemma agrees_closeList (st : state) (est : estate) :
  agrees st est -> agrees (closeList st) (closeListE est).
Proof.
  intros [H1 H2]. unfold closeList, closeListE. rewrite H2.
  destruct (inListE est) eqn:E; [|split; [exact H1|congruence]].
  split; [|reflexivity]. cbn [html elements].
  now rewrite render_app, render_one, H1.
Qed.

Lemma agrees_openList (st : state) (est : estate) :
  agrees st est -> agrees (openList st) (openListE est).
Proof.
  intros [H1 H2]. unfold openList, openListE. rewrite H2.
  destruct (inListE est) eqn:E; [split; [exact H1|congruence]|].
  split; [|reflexivity]. cbn [html elements].
  now rewrite render_app, render_one, H1.
Qed.

Lemma agrees_emit (st : state) (est : estate) (e : element) :
  agrees st est -> agrees (emit st (renderElement e)) (emitE est e).
Proof.
  intros [H1 H2]. split; [|exact H2]. cbn [emit emitE html elements].
  now rewrite render_app, render_one, H1.
Qed.

Lemma agrees_step (st : state) (est : estate) (line : jsstring) :
  agrees st est -> agrees (step st line) (stepE est line).
Proof.
  intros H. unfold step, stepE.
  destruct (negb (truthy (trim line))); [now apply agrees_closeList|].
  destruct (startsWith headerPrefix _).
  - apply (agrees_emit _ _ (H3 _)). now apply agrees_closeList.
  - destruct (test listItemRe _).
    + apply (agrees_emit _ _ (Li _)). now apply agrees_openList.
    + apply (agrees_emit _ _ (P _)). now apply agrees_closeList.
Qed.

Lemma agrees_fold (lines : list jsstring) :
  forall st est,
    agrees st est ->
    agrees (fold_left step lines st) (fold_left stepE lines est).
Proof.
  induction lines as [|line lines IH]; intros st est H; [exact H|].
  apply IH. now apply agrees_step.
Qed.

(** The string that [markdownToHtml] builds is the rendering of the
    elements. *)
Lemma markdownToHtml_elements (markdownText : jsstring) :
  markdownToHtml markdownText = render (htmlElements markdownText).
Proof.
  unfold markdownToHtml, htmlElements.
  apply agrees_closeList, agrees_fold. now split.
Qed.

Lemma headings_app (es fs : list element) :
  headings (es ++ fs) = headings es ++ headings fs.
Proof. unfold headings. apply flat_map_app. Qed.

Lemma headings_closeListE (est : estate) :
  headings (elements (closeListE est)) = headings (elements est).
Proof.
  unfold closeListE. destruct (inListE est); [|reflexivity].
  cbn [elements]. rewrite headings_app. apply app_nil_r.
Qed.

Lemma headings_openListE (est : estate) :
  headings (elements (openListE est)) = headings (elements est).
Proof.
  unfold openListE. destruct (inListE est); [reflexivity|].
  cbn [elements]. rewrite headings_app. apply app_nil_r.
Qed.

Lemma headings_stepE (est : estate) (line : jsstring) :
  headings (elements (stepE est line))
  = headings (elements est) ++ headingOfLine line.
Proof.
  unfold stepE, headingOfLine.
  destruct (negb (truthy (trim line))).
  - now rewrite headings_closeListE, app_nil_r.
  - destruct (startsWith headerPrefix _).
    + cbn [emitE elements]. now rewrite headings_app, headings_closeListE.
    + destruct (test listItemRe _); cbn [emitE elements];
        rewrite headings_app, ?headings_closeListE, ?headings_openListE;
        reflexivity.
Qed.

Lemma headings_fold (lines : list jsstring) :
  forall est,
    headings (elements (fold_left stepE lines est))
    = headings (elements est) ++ flat_map headingOfLine lines.
Proof.
  induction lines as [|line lines IH]; intros est; cbn [fold_left flat_map].
  - now rewrite app_nil_r.
  - now rewrite IH, headings_stepE, <- app_assoc.
Qed.

(** The heading elements, line by line. *)
Lemma headings_lines (markdownText : jsstring) :
  headings (htmlElements markdownText)
  = flat_map headingOfLine (split [LF] markdownText).
Proof.
  unfold htmlElements. now rewrite headings_closeListE, headings_fold.
Qed.

(** The bold replacement neither makes nor breaks a prefix free of [*] and
    of [<]. *)
Lemma startsWith_replaceAll_bold (p : jsstring) :
  ~ In 42%N p -> ~ In 60%N p ->
  forall x pos,
    startsWith p (replaceAll_go boldRe strong pos 0 x) = startsWith p x.
Proof.
  induction p as [|a p IH]; intros H42 H60 x pos; [reflexivity|].
  assert (Ha42 : (a =? 42)%N = false)
    by (apply N.eqb_neq; intros ->; apply H42; now left).
  assert (Ha60 : (a =? 60)%N = false)
    by (apply N.eqb_neq; intros ->; apply H60; now left).
  assert (IH' : forall x pos,
             startsWith p (replaceAll_go boldRe strong pos 0 x)
             = startsWith p x).
  { apply IH; intros H; [apply H42|apply H60]; now right. }
  destruct x as [|c x].
  - reflexivity.
  - destruct (startsWith Notion.boldMarker (c :: x)) eqn:Es.
    + assert (Ec : c = 42%N).
      { cbn [startsWith Notion.boldMarker] in Es.
        apply andb_true_iff in Es as [Es _]. now apply N.eqb_eq in Es. }
      subst c.
      transitivity false.
      * cbn [replaceAll_go].
        destruct (matchAt boldRe pos (42%N :: x)) as [[len cap]|];
          cbn [strong str map list_ascii_of_string app startsWith];
          [change (N_of_ascii "<") with 60%N; now rewrite Ha60|
           now rewrite Ha42].
      * cbn [startsWith]. now rewrite Ha42.
    + rewrite replaceAll_go_none by now apply matchAt_bold_other.
      cbn [startsWith]. now rewrite IH'.
Qed.

End HtmlFacts.

(* ================================================================== *)
(** * Bodies given by their sections                                   *)
(* ================================================================== *)

Section DocumentFacts.

Import Html Notion.

Lemma LF_nonempty : [LF] <> [].
Proof. discriminate. Qed.

Lemma join_app (sep : jsstring) (l1 l2 : list jsstring) :
  l1 <> [] -> l2 <> [] ->
  join sep (l1 ++ l2) = join sep l1 ++ sep ++ join sep l2.
Proof.
  induction l1 as [|p l1 IH]; intros H1 H2; [congruence|].
  destruct l1 as [|q l1].
  - destruct l2; [congruence|reflexivity].
  - change (join sep ((p :: q :: l1) ++ l2))
      with (p ++ sep ++ join sep ((q :: l1) ++ l2)).
    rewrite IH by (discriminate || assumption).
    change (join sep (p :: q :: l1)) with (p ++ sep ++ join sep (q :: l1)).
    now rewrite <- !app_assoc.
Qed.

Lemma includes_LF_In (l : jsstring) : includes [LF] l = false -> ~ In LF l.
Proof.
  induction l as [|c l IH]; intros H; [now intros []|].
  apply includes_cons_false in H as [H1 H2].
  rewrite startsWith_single in H1. apply N.eqb_neq in H1.
  intros [E|E]; [congruence|now apply IH].
Qed.

(** A line feed cuts a text where its first line ends. *)
Lemma Cut_LF (l rest : jsstring) :
  includes [LF] l = false -> Cut [LF] (l ++ LF :: rest) l rest.
Proof.
  intros H. apply (Cut_intro [LF] l rest). intros a1 a2 -> Hne.
  apply includes_suffix in H. destruct a2 as [|c a2]; [congruence|].
  apply includes_cons_false in H as [H _].
  rewrite startsWith_single in H. rewrite <- app_comm_cons.
  now rewrite startsWith_single.
Qed.

(** Splitting the joined lines at line feeds gives the lines back. *)
Lemma split_join_lines (lines : list jsstring) :
  lines <> [] ->
  Forall (fun l => includes [LF] l = false) lines ->
  split [LF] (join [LF] lines) = lines.
Proof.
  induction lines as [|l lines IH]; intros Hne H; [congruence|].
  inversion H as [|? ? Hl Hrest]; subst.
  destruct lines as [|l2 lines].
  - now apply split_absent.
  - change (join [LF] (l :: l2 :: lines))
      with (l ++ LF :: join [LF] (l2 :: lines)).
    rewrite (split_Cut [LF] LF_nonempty _ _ _ (Cut_LF l _ Hl)).
    now rewrite IH by (discriminate || assumption).
Qed.

Lemma trimEnd_app_gen (a b : jsstring) :
  trimEnd (a ++ b) =
  match trimEnd b with
  | [] => trimEnd a
  | _ :: _ => a ++ trimEnd b
  end.
Proof.
  destruct (trimEnd b) as [|c r] eqn:E.
  - unfold trimEnd in *. rewrite rev_app_distr, dropWhile_app.
    assert (E' : dropWhile isWS (rev b) = []).
    { destruct (dropWhile isWS (rev b));
        [reflexivity|apply (f_equal (@length N)) in E;
                      rewrite length_rev in E; discriminate E]. }
    now rewrite E'.
  - rewrite <- E. apply trimEnd_app. rewrite E. discriminate.
Qed.

Lemma trim_decompose (l : jsstring) : exists w1 w2, l = w1 ++ trim l ++ w2.
Proof.
  destruct (dropWhile_split isWS l) as (w1 & E1 & _).
  destruct (dropWhile_split isWS (rev (trimStart l))) as (v & E2 & _).
  exists w1, (rev v). unfold trim, trimEnd. rewrite <- rev_app_distr, <- E2.
  now rewrite rev_involutive.
Qed.

Lemma headerPrefix_hashes (x : jsstring) :
  startsWith headerPrefix x = true -> forall w, startsWith hashes (x ++ w) = true.
Proof.
  intros H w. rewrite (startsWith_inv _ _ H).
  change headerPrefix with (hashes ++ [32%N]).
  rewrite <- !app_assoc. apply startsWith_app.
Qed.

Lemma plain_trim_no_header (l : jsstring) :
  includes hashes l = false -> startsWith headerPrefix (trim l) = false.
Proof.
  intros H. destruct (trim_decompose l) as (w1 & w2 & E).
  rewrite E in H. apply includes_suffix, includes_startsWith in H.
  destruct (startsWith headerPrefix (trim l)) eqn:Es; [|reflexivity].
  now rewrite (headerPrefix_hashes _ Es w2) in H.
Qed.

Lemma plain_inv (l : jsstring) :
  plain l = true -> includes [LF] l = false /\ includes hashes l = false.
Proof.
  unfold plain. intros H. apply andb_true_iff in H as [H1 H2].
  now rewrite negb_true_iff in H1, H2.
Qed.

(** In the hypertext a plain line is no heading. *)
Lemma headingOfLine_plain (l : jsstring) :
  plain l = true -> headingOfLine l = [].
Proof.
  intros H. apply plain_inv in H as [_ H]. unfold headingOfLine.
  destruct (negb (truthy (trim l))); [reflexivity|].
  unfold replaceAll.
  rewrite startsWith_replaceAll_bold
    by (intros [E|[E|[E|[E|[]]]]]; discriminate E).
  now rewrite plain_trim_no_header.
Qed.

Lemma trim_headerLine (title : jsstring) :
  nonBlank title = true ->
  trim (headerLine title) = headerPrefix ++ trimEnd title.
Proof.
  intros H. unfold trim.
  change (trimStart (headerLine title)) with (headerLine title).
  apply trimEnd_app. now apply nonBlank_trimEnd.
Qed.

(** ... and a header line is one. *)
Lemma headingOfLine_header (title : jsstring) :
  nonBlank title = true ->
  headingOfLine (headerLine title) = [htmlHeadingOf title].
Proof.
  intros H. unfold headingOfLine, htmlHeadingOf.
  rewrite (trim_headerLine _ H).
  change (negb (truthy (headerPrefix ++ trimEnd title))) with false.
  cbn iota. unfold replaceAll.
  rewrite startsWith_replaceAll_bold
    by (intros [E|[E|[E|[E|[]]]]]; discriminate E).
  now rewrite startsWith_app.
Qed.

Lemma wellFormed_cons (sec : docSection) (doc : list docSection) :
  wellFormed (sec :: doc) = true ->
  plain (fst sec) = true /\ nonBlank (fst sec) = true /\
  forallb plain (snd sec) = true /\ wellFormed doc = true.
Proof.
  unfold wellFormed. cbn [forallb]. intros H.
  apply andb_true_iff in H as [H Hd].
  apply andb_true_iff in H as [H Hc].
  apply andb_true_iff in H as [Hp Hn]. now repeat split.
Qed.

Lemma headings_docLines (doc : list docSection) :
  wellFormed doc = true ->
  flat_map headingOfLine (docLines doc) = map htmlHeadingOf (map fst doc).
Proof.
  induction doc as [|sec doc IH]; intros H; [reflexivity|].
  apply wellFormed_cons in H as (Hp & Hn & Hc & Hd).
  unfold docLines. cbn [flat_map map]. rewrite flat_map_app.
  fold (docLines doc). rewrite (IH Hd). unfold linesOf at 1.
  cbn [flat_map]. rewrite (headingOfLine_header _ Hn).
  cbn [app]. f_equal.
  assert (E : flat_map headingOfLine (snd sec) = []).
  { induction (snd sec) as [|l ls IHl]; [reflexivity|].
    cbn [forallb] in Hc. apply andb_true_iff in Hc as [Hl Hc].
    cbn [flat_map]. now rewrite (headingOfLine_plain _ Hl), (IHl Hc). }
  now rewrite E.
Qed.

Lemma plain_headerLine (title : jsstring) :
  plain title = true -> includes [LF] (headerLine title) = false.
Proof.
  intros H. apply plain_inv in H as [H _]. unfold headerLine.
  unfold headerPrefix. cbn [app includes].
  rewrite !startsWith_single. exact H.
Qed.

Lemma docLines_LF_free (doc : list docSection) :
  wellFormed doc = true ->
  Forall (fun l => includes [LF] l = false) (docLines doc).
Proof.
  induction doc as [|sec doc IH]; intros H; [constructor|].
  apply wellFormed_cons in H as (Hp & Hn & Hc & Hd).
  unfold docLines. cbn [flat_map]. apply Forall_app. split; [|now apply IH].
  constructor; [now apply plain_headerLine|].
  apply Forall_forall. intros l Hl.
  rewrite forallb_forall in Hc. specialize (Hc l Hl).
  now apply plain_inv in Hc as [Hc _].
Qed.

(** The headings of the hypertext of a well-formed document. *)
Lemma html_headings_doc (doc : list docSection) :
  wellFormed doc = true ->
  headings (htmlElements (bodyOf doc)) = map htmlHeadingOf (map fst doc).
Proof.
  intros H. rewrite headings_lines. unfold bodyOf.
  destruct doc as [|sec doc]; [reflexivity|].
  rewrite split_join_lines.
  - now apply headings_docLines.
  - discriminate.
  - now apply docLines_LF_free.
Qed.

End DocumentFacts.

(* ================================================================== *)
(** * The sections of the block-sequence encoding                      *)
(* ================================================================== *)

Section SectionFacts.

Import Html Notion.

Lemma matchAt_sectionRe (pos : nat) (s : jsstring) :
  matchAt sectionRe pos s = if marked s then Some (0, None) else None.
Proof.
  unfold matchAt, sectionRe, marked. cbn [run]. change (str "###") with hashes.
  destruct (startsWith hashes s); [|reflexivity].
  change (length hashes) with 3. cbn [andb].
  destruct (skipn 3 s) as [|d r]; [reflexivity|].
  destruct (isWS d); [|reflexivity].
  now rewrite Nat.sub_diag.
Qed.

Lemma splitRe_go_unmarked (pos : nat) (cur : jsstring) (c : N) (s : jsstring) :
  marked (c :: s) = false ->
  splitRe_go sectionRe pos 0 cur (c :: s)
  = splitRe_go sectionRe (S pos) 0 (c :: cur) s.
Proof.
  intros H. cbn [splitRe_go]. now rewrite matchAt_sectionRe, H.
Qed.

Lemma splitRe_go_marked (pos : nat) (cur : jsstring) (c : N) (s : jsstring) :
  marked (c :: s) = true ->
  splitRe_go sectionRe pos 0 cur (c :: s)
  = closePiece cur (splitRe_go sectionRe (S pos) 0 [c] s).
Proof.
  intros H. cbn [splitRe_go]. rewrite matchAt_sectionRe, H.
  now destruct cur.
Qed.

(** A stretch without a place where the pattern matches goes to the
    current piece. *)
Lemma splitRe_go_chunk (rest : jsstring) :
  forall a pos cur,
    (forall a1 a2, a = a1 ++ a2 -> a2 <> [] -> marked (a2 ++ rest) = false) ->
    splitRe_go sectionRe pos 0 cur (a ++ rest)
    = splitRe_go sectionRe (pos + length a) 0 (rev a ++ cur) rest.
Proof.
  induction a as [|c a IH]; intros pos cur H.
  - cbn [app rev length]. now rewrite Nat.add_0_r.
  - rewrite <- app_comm_cons, splitRe_go_unmarked.
    + rewrite IH.
      * cbn [rev length]. now rewrite <- app_assoc, Nat.add_succ_r.
      * intros a1 a2 -> Hne. now apply (H (c :: a1) a2).
    + apply (H [] (c :: a)); [reflexivity|discriminate].
Qed.

Lemma marked_hashes (s : jsstring) :
  startsWith hashes s = false -> marked s = false.
Proof. intros H. unfold marked. now rewrite H. Qed.

Lemma includes_app_LF (p x y : jsstring) :
  ~ In LF p -> p <> [] ->
  includes p x = false -> includes p y = false ->
  includes p (x ++ LF :: y) = false.
Proof.
  intros Hp Hne Hx Hy. induction x as [|c x IH].
  - cbn [app includes]. rewrite Hy, orb_false_r.
    destruct p as [|a p]; [congruence|].
    apply startsWith_cons_head. apply N.eqb_neq. intros ->.
    apply Hp. now left.
  - apply includes_cons_false in Hx as [H1 H2].
    rewrite <- app_comm_cons. cbn [includes]. rewrite (IH H2), orb_false_r.
    destruct (startsWith p (c :: x ++ LF :: y)) eqn:E; [|reflexivity].
    rewrite app_comm_cons in E.
    apply (startsWith_before p LF y Hp) in E. congruence.
Qed.

Lemma hashes_no_LF : ~ In LF hashes.
Proof. intros [H|[H|[H|[]]]]; discriminate H. Qed.

Lemma hashes_nonempty : hashes <> [].
Proof. discriminate. Qed.

Lemma includes_join_plain (lines : list jsstring) :
  forallb plain lines = true ->
  includes hashes (join [LF] lines) = false.
Proof.
  induction lines as [|l lines IH]; intros H; [reflexivity|].
  cbn [forallb] in H. apply andb_true_iff in H as [Hl H].
  apply plain_inv in Hl as [_ Hl].
  destruct lines as [|l2 lines]; [exact Hl|].
  change (join [LF] (l :: l2 :: lines))
    with (l ++ LF :: join [LF] (l2 :: lines)).
  apply includes_app_LF;
    [apply hashes_no_LF|apply hashes_nonempty|exact Hl|now apply IH].
Qed.

(** No [###] starts inside a text free of it, whatever follows a line feed
    at its end, or at the end of the input. *)
Lemma no_hashes_inside (T R : jsstring) (last : bool) :
  includes hashes T = false ->
  forall a1 a2,
    (if last then T else T ++ [LF]) = a1 ++ a2 -> a2 <> [] ->
    startsWith hashes (a2 ++ (if last then [] else R)) = false.
Proof.
  intros H a1 a2 E Hne. destruct last.
  - rewrite app_nil_r. subst T. now apply includes_suffix, includes_startsWith in H.
  - destruct (exists_last Hne) as (a2' & z & ->).
    rewrite app_assoc in E. apply app_inj_tail in E as [-> <-].
    apply includes_suffix, includes_startsWith in H.
    rewrite <- app_assoc. cbn [app].
    destruct (startsWith hashes (a2' ++ LF :: R)) eqn:Es; [|reflexivity].
    apply (startsWith_before hashes LF R hashes_no_LF) in Es. congruence.
Qed.

(** The text of a section holds no place where the pattern matches but its
    start. *)
Lemma section_unmarked (T R : jsstring) (last : bool) :
  includes hashes T = false ->
  forall a1 a2,
    [35%N; 35%N; 32%N] ++ (if last then T else T ++ [LF]) = a1 ++ a2 ->
    a2 <> [] ->
    marked (a2 ++ (if last then [] else R)) = false.
Proof.
  intros H a1 a2 E Hne. apply marked_hashes.
  destruct a1 as [|x1 [|x2 [|x3 a1]]]; cbn [app] in E.
  - subst a2. reflexivity.
  - injection E as _ <-. reflexivity.
  - injection E as _ _ <-. reflexivity.
  - injection E as _ _ _ E. now apply (no_hashes_inside T R last H a1 a2).
Qed.

Lemma bodyOf_cons (sec sec2 : docSection) (doc : list docSection) :
  bodyOf (sec :: sec2 :: doc)
  = (join [LF] (linesOf sec) ++ [LF]) ++ bodyOf (sec2 :: doc).
Proof.
  unfold bodyOf, docLines. cbn [flat_map].
  rewrite join_app by discriminate. now rewrite <- app_assoc.
Qed.

Lemma bodyOf_one (sec : docSection) : bodyOf [sec] = join [LF] (linesOf sec).
Proof. unfold bodyOf, docLines. cbn [flat_map]. now rewrite app_nil_r. Qed.

(** The text of a section: the header prefix and the joined title and
    content lines. *)
Lemma join_linesOf (sec : docSection) :
  join [LF] (linesOf sec) = headerPrefix ++ join [LF] (fst sec :: snd sec).
Proof.
  unfold linesOf, headerLine. destruct (snd sec) as [|l ls]; [reflexivity|].
  change (join [LF] ((headerPrefix ++ fst sec) :: l :: ls))
    with ((headerPrefix ++ fst sec) ++ [LF] ++ join [LF] (l :: ls)).
  change (join [LF] (fst sec :: l :: ls))
    with (fst sec ++ [LF] ++ join [LF] (l :: ls)).
  now rewrite <- app_assoc.
Qed.

Lemma section_plain (sec : docSection) :
  plain (fst sec) = true -> forallb plain (snd sec) = true ->
  includes hashes (join [LF] (fst sec :: snd sec)) = false.
Proof.
  intros Hp Hc. apply includes_join_plain. cbn [forallb]. now rewrite Hp, Hc.
Qed.

(** The pattern cuts the body of a well-formed document into the texts of
    its sections. *)
Lemma splitRe_go_doc (doc : list docSection) :
  wellFormed doc = true ->
  forall pos cur,
    splitRe_go sectionRe pos 0 cur (bodyOf doc)
    = match doc with
      | [] => [rev cur]
      | _ :: _ => closePiece cur (sectionTexts doc)
      end.
Proof.
  induction doc as [|sec doc IH]; intros H pos cur; [reflexivity|].
  apply wellFormed_cons in H as (Hp & Hn & Hc & Hd).
  pose proof (section_plain sec Hp Hc) as HT.
  set (T := join [LF] (fst sec :: snd sec)) in *.
  assert (Hstep : forall (last : bool) (R : jsstring),
             splitRe_go sectionRe pos 0 cur
                        (headerPrefix
                           ++ (if last then T else T ++ [LF])
                           ++ (if last then [] else R))
             = closePiece cur
                 (splitRe_go sectionRe
                    (S pos + length ([35%N; 35%N; 32%N]
                                       ++ (if last then T else T ++ [LF]))) 0
                    (rev ([35%N; 35%N; 32%N]
                            ++ (if last then T else T ++ [LF])) ++ [35%N])
                    (if last then [] else R))).
  { intros last R.
    change (headerPrefix ++ (if last then T else T ++ [LF])
                         ++ (if last then [] else R))
      with (35%N :: ([35%N; 35%N; 32%N] ++ (if last then T else T ++ [LF])
                                         ++ (if last then [] else R))).
    rewrite splitRe_go_marked by reflexivity.
    rewrite app_assoc, splitRe_go_chunk
      by (apply (section_unmarked T R last HT)).
    reflexivity. }
  destruct doc as [|sec2 doc].
  - rewrite bodyOf_one, join_linesOf. fold T.
    specialize (Hstep true []). cbn iota in Hstep.
    rewrite app_nil_r in Hstep. rewrite Hstep.
    cbn [splitRe_go sectionTexts]. rewrite rev_app_distr, rev_involutive.
    rewrite join_linesOf. fold T. reflexivity.
  - rewrite bodyOf_cons, join_linesOf. fold T.
    specialize (Hstep false (bodyOf (sec2 :: doc))). cbn iota in Hstep.
    rewrite <- (app_assoc headerPrefix (T ++ [LF])), Hstep.
    rewrite (IH Hd).
    destruct (rev ([35%N; 35%N; 32%N] ++ T ++ [LF]) ++ [35%N])
      as [|x xs] eqn:E; [now destruct (rev _) in E|].
    cbn [closePiece]. rewrite <- E, rev_app_distr, rev_involutive.
    change (sectionTexts (sec :: sec2 :: doc))
      with ((join [LF] (linesOf sec) ++ [LF]) :: sectionTexts (sec2 :: doc)).
    rewrite (join_linesOf sec). fold T. reflexivity.
Qed.

Lemma nonBlank_cons (c : N) (s : jsstring) :
  isWS c = false -> nonBlank (c :: s) = true.
Proof.
  intros H. unfold nonBlank, trim, trimStart. cbn [dropWhile]. rewrite H.
  change (c :: s) with ([c] ++ s). rewrite trimEnd_app_gen.
  destruct (trimEnd s); [|reflexivity].
  unfold trimEnd. cbn. now rewrite H.
Qed.

Lemma sectionTexts_nonBlank (doc : list docSection) :
  filter nonBlank (sectionTexts doc) = sectionTexts doc.
Proof.
  induction doc as [|sec doc IH]; [reflexivity|].
  destruct doc as [|sec2 doc]; cbn [sectionTexts filter] in *;
    rewrite join_linesOf;
    change (headerPrefix ++ ?x) with (35%N :: [35%N; 35%N; 32%N] ++ x);
    rewrite <- ?app_comm_cons, nonBlank_cons by reflexivity;
    [reflexivity|now rewrite IH].
Qed.

(** The sections that the encoder finds in a well-formed document. *)
Lemma sections_doc (doc : list docSection) :
  wellFormed doc = true -> sections (bodyOf doc) = sectionTexts doc.
Proof.
  intros H. unfold sections, splitRe.
  destruct doc as [|sec doc]; [reflexivity|].
  destruct (bodyOf (sec :: doc)) as [|c s] eqn:E.
  - exfalso. destruct doc; [rewrite bodyOf_one in E|rewrite bodyOf_cons in E];
      rewrite join_linesOf in E; discriminate E.
  - rewrite <- E, (splitRe_go_doc _ H). apply sectionTexts_nonBlank.
Qed.

End SectionFacts.

(* ================================================================== *)
(** * The heading blocks of a well-formed document                     *)
(* ================================================================== *)

Section HeadingFacts.

Import Html Notion.

Lemma headingBlocks_app (bs cs : list block) :
  headingBlocks (bs ++ cs) = headingBlocks bs ++ headingBlocks cs.
Proof. unfold headingBlocks. apply flat_map_app. Qed.

Lemma headingBlocks_lines (title : jsstring) (contentLines : list jsstring) :
  headingBlocks (flat_map (lineBlocks title) contentLines) = [].
Proof.
  induction contentLines as [|l ls IH]; [reflexivity|].
  cbn [flat_map]. rewrite headingBlocks_app, IH, app_nil_r.
  unfold lineBlocks, taskBlocks, paragraphBlocks.
  destruct (includes tasksTitle title);
    [destruct (truthy (taskText l))|destruct (truthy (cleanedLine l))];
    reflexivity.
Qed.

Lemma trimEnd_head (c : N) (r : jsstring) :
  isWS c = false -> exists x, trimEnd (c :: r) = c :: x.
Proof.
  intros H. change (c :: r) with ([c] ++ r). rewrite trimEnd_app_gen.
  destruct (trimEnd r) as [|y ys].
  - exists []. unfold trimEnd. cbn. now rewrite H.
  - now exists (y :: ys).
Qed.

Lemma trimStart_trimEnd (t : jsstring) :
  trimStart (trimEnd t) = trimEnd (trimStart t).
Proof.
  destruct (dropWhile_split isWS t) as (v & E & Hv).
  fold (trimStart t) in E.
  destruct (trimStart t) as [|c r] eqn:Et.
  - rewrite app_nil_r in E. subst v.
    assert (Ee : trimEnd t = []).
    { unfold trimEnd. rewrite dropWhile_nil; [reflexivity|].
      now rewrite forallb_rev. }
    now rewrite Ee.
  - assert (Hc : isWS c = false).
    { unfold trimStart in Et. clear E Hv v.
      induction t as [|x t IH]; [discriminate Et|]. cbn [dropWhile] in Et.
      destruct (isWS x) eqn:Ex; [now apply IH|]. now injection Et as <- _. }
    destruct (trimEnd_head c r Hc) as (x & Ex).
    rewrite E at 1. rewrite trimEnd_app by (rewrite Ex; discriminate).
    rewrite Ex. unfold trimStart. rewrite dropWhile_app.
    rewrite (dropWhile_nil _ _ Hv). cbn [dropWhile]. now rewrite Hc.
Qed.

Lemma trim_trimEnd (t : jsstring) : trim (trimEnd t) = trim t.
Proof. unfold trim. now rewrite trimStart_trimEnd, trimEnd_idem. Qed.

Lemma titleOf_header (x : jsstring) :
  titleOf (headerPrefix ++ x) = trim x.
Proof. reflexivity. Qed.

Lemma In_trimEnd (c : N) (t : jsstring) : In c (trimEnd t) -> In c t.
Proof.
  unfold trimEnd. intros H.
  destruct (dropWhile_split isWS (rev t)) as (v & E & _).
  apply in_rev. rewrite E. apply in_or_app. right. now apply in_rev.
Qed.

Lemma In_LF_includes (l : jsstring) : ~ In LF l -> includes [LF] l = false.
Proof.
  induction l as [|c l IH]; intros H; [reflexivity|].
  cbn [includes]. rewrite startsWith_single, IH, orb_false_r.
  - apply N.eqb_neq. intros E. apply H. now left.
  - intros E. apply H. now right.
Qed.

(** The lines of a section's text open with its header line, up to
    whitespace at its end. *)
Lemma sectionLines_header (title rest : jsstring) :
  plain title = true -> nonBlank title = true ->
  (rest = [] \/ exists r, rest = LF :: r) ->
  exists line0 contentLines,
    sectionLines (headerLine title ++ rest) = line0 :: contentLines /\
    titleOf line0 = trim title.
Proof.
  intros Hp Hn Hrest. unfold sectionLines, trim.
  change (trimStart (headerLine title ++ rest)) with (headerLine title ++ rest).
  rewrite trimEnd_app_gen.
  destruct (trimEnd rest) as [|c x] eqn:Er.
  - exists (headerPrefix ++ trimEnd title), [].
    unfold headerLine. rewrite trimEnd_app by now apply nonBlank_trimEnd.
    rewrite split_absent.
    + cbn [filter]. split; [|rewrite titleOf_header; apply trim_trimEnd].
      change (headerPrefix ++ trimEnd title)
        with (35%N :: [35%N; 35%N; 32%N] ++ trimEnd title).
      now rewrite nonBlank_cons.
    + apply In_LF_includes. intros H.
      apply in_app_or in H as [H|H].
      * destruct H as [H|[H|[H|[H|[]]]]]; discriminate H.
      * apply In_trimEnd in H. apply plain_inv in Hp as [Hp _].
        now apply includes_LF_In in Hp.
  - destruct Hrest as [->|(r & ->)]; [discriminate Er|].
    change (LF :: r) with ([LF] ++ r) in Er. rewrite trimEnd_app_gen in Er.
    destruct (trimEnd r) as [|y ys] eqn:Ey; [discriminate Er|].
    rewrite <- Er. cbn [app].
    rewrite (split_Cut [LF] LF_nonempty _ _ _
                       (Cut_LF (headerLine title) (y :: ys)
                               (plain_headerLine title Hp))).
    exists (headerLine title), (filter nonBlank (split [LF] (y :: ys))).
    cbn [filter].
    change (headerLine title) with (35%N :: [35%N; 35%N; 32%N] ++ title) at 1.
    rewrite nonBlank_cons by reflexivity.
    split; [reflexivity|apply titleOf_header].
Qed.

Lemma headingBlocks_section (title rest : jsstring) :
  plain title = true -> nonBlank title = true ->
  (rest = [] \/ exists r, rest = LF :: r) ->
  headingBlocks (sectionBlocks (headerLine title ++ rest))
  = [blockHeadingOf title].
Proof.
  intros Hp Hn Hrest.
  destruct (sectionLines_header title rest Hp Hn Hrest)
    as (line0 & contentLines & E & Et).
  unfold sectionBlocks. rewrite E. cbn zeta.
  change (headingBlocks (heading_3 ?rt :: ?bs))
    with (rt :: headingBlocks bs).
  rewrite headingBlocks_lines, Et.
  unfold blockHeadingOf, headerLine. now rewrite titleOf_header.
Qed.

(** The text of a section is its header line and, after a line feed, the
    rest. *)
Lemma sectionText_shape (sec : docSection) (more : bool) :
  exists rest,
    join [LF] (linesOf sec) ++ (if more then [LF] else [])
    = headerLine (fst sec) ++ rest /\
    (rest = [] \/ exists r, rest = LF :: r).
Proof.
  unfold linesOf. destruct (snd sec) as [|l ls].
  - cbn [join]. destruct more.
    + exists [LF]. split; [reflexivity|right; now exists []].
    + exists []. split; [reflexivity|now left].
  - change (join [LF] (headerLine (fst sec) :: l :: ls))
      with (headerLine (fst sec) ++ LF :: join [LF] (l :: ls)).
    exists (LF :: join [LF] (l :: ls) ++ (if more then [LF] else [])).
    split; [now rewrite <- app_assoc|right; now eexists].
Qed.

(** The heading blocks of a well-formed document. *)
Lemma block_headings_doc (doc : list docSection) :
  wellFormed doc = true ->
  headingBlocks (parseMarkdownToNotionBlocks (bodyOf doc))
  = map blockHeadingOf (map fst doc).
Proof.
  intros H. unfold parseMarkdownToNotionBlocks. rewrite (sections_doc _ H).
  induction doc as [|sec doc IH]; [reflexivity|].
  apply wellFormed_cons in H as (Hp & Hn & Hc & Hd).
  destruct doc as [|sec2 doc].
  - cbn [sectionTexts flat_map map]. rewrite app_nil_r.
    destruct (sectionText_shape sec false) as (rest & E & Hrest).
    rewrite app_nil_r in E. rewrite E.
    now apply headingBlocks_section.
  - change (sectionTexts (sec :: sec2 :: doc))
      with ((join [LF] (linesOf sec) ++ [LF]) :: sectionTexts (sec2 :: doc)).
    cbn [flat_map]. rewrite headingBlocks_app, (IH Hd).
    destruct (sectionText_shape sec true) as (rest & E & Hrest).
    rewrite E, (headingBlocks_section _ _ Hp Hn Hrest). reflexivity.
Qed.

End HeadingFacts.

(* ================================================================== *)
(** * The block sequence of a well-formed document                     *)
(* ================================================================== *)

Section StructureFacts.

Import Html Notion.

Lemma startsWith_app_true (p x w : jsstring) :
  startsWith p x = true -> startsWith p (x ++ w) = true.
Proof.
  intros H. rewrite (startsWith_inv _ _ H), <- app_assoc.
  apply startsWith_app.
Qed.



Lemma trimEnd_blank (w : jsstring) : forallb isWS w = true -> trimEnd w = [].
Proof.
  intros H. unfold trimEnd. rewrite dropWhile_nil; [reflexivity|].
  now rewrite forallb_rev.
Qed.

Lemma trimEnd_cons (c : N) (y : jsstring) :
  isWS c = false -> trimEnd (c :: y) = c :: trimEnd y.
Proof.
  intros H. change (c :: y) with ([c] ++ y). rewrite trimEnd_app_gen.
  destruct (trimEnd y); [|reflexivity].
  unfold trimEnd. cbn. now rewrite H.
Qed.

Lemma trim_app_trimEnd (a z : jsstring) : trim (a ++ trimEnd z) = trim (a ++ z).
Proof.
  rewrite <- (trim_trimEnd (a ++ z)), trimEnd_app_gen.
  destruct (trimEnd z); [|reflexivity].
  rewrite app_nil_r. symmetry. apply trim_trimEnd.
Qed.




(** What stands before the leftmost occurrence is free of the separator. *)
Lemma Cut_free (sep s a b : jsstring) :
  sep <> [] -> Cut sep s a b -> includes sep a = false.
Proof.
  intros Hsep. induction 1 as [b|c s a b Es HC IH].
  - cbn [includes]. rewrite orb_false_r. now apply startsWith_nil_false.
  - cbn [includes]. rewrite IH, orb_false_r.
    destruct (startsWith sep (c :: a)) eqn:E; [|reflexivity].
    rewrite (Cut_app _ _ _ _ HC), app_comm_cons in Es.
    now rewrite (startsWith_app_true _ _ _ E) in Es.
Qed.




Lemma blank_all (l : jsstring) : nonBlank l = false -> forallb isWS l = true.
Proof.
  unfold nonBlank, trim. intros H.
  destruct (trimEnd (trimStart l)) as [|c r] eqn:E; [|discriminate H].
  apply trimEnd_nil_inv in E. unfold trimStart in E.
  induction l as [|x l IH]; [reflexivity|].
  cbn [dropWhile forallb] in *. destruct (isWS x) eqn:Ex; [now apply IH|].
  cbn [forallb] in E. now rewrite Ex in E.
Qed.








End StructureFacts.

(* ================================================================== *)
(** * Facts about the session controller                               *)
(* ================================================================== *)

Section SessionFacts.

Import Service Session.

Lemma ondataavailable_frame (b : Blob) (st : state) :
  status (ondataavailable b st) = status st /\
  minutes (ondataavailable b st) = minutes st /\
  error (ondataavailable b st) = error st /\
  mediaRecorder (ondataavailable b st) = mediaRecorder st /\
  sent (ondataavailable b st) = sent st.
Proof. unfold ondataavailable. destruct (0 <? size b); now cbn. Qed.

Lemma ondataavailable_chunks (b : Blob) (st : state) :
  Forall (fun c => 0 < size c) (audioChunks st) ->
  Forall (fun c => 0 < size c) (audioChunks (ondataavailable b st)).
Proof.
  intros H. unfold ondataavailable.
  destruct (0 <? size b) eqn:E; [|exact H]. cbn.
  apply Forall_app. split; [exact H|].
  constructor; [now apply Nat.ltb_lt|constructor].
Qed.

Lemma recorded_frame (st0 : state) (events : list Blob) :
  status (recorded st0 events) = Recording /\
  minutes (recorded st0 events) = [] /\
  error (recorded st0 events) = None /\
  mediaRecorder (recorded st0 events) = Some recording /\
  sent (recorded st0 events) = sent st0 /\
  Forall (fun c => 0 < size c) (audioChunks (recorded st0 events)).
Proof.
  unfold recorded.
  induction events as [|b events IH] using rev_ind.
  - cbn. repeat split; constructor.
  - rewrite fold_left_app. cbn [fold_left].
    destruct IH as (H1 & H2 & H3 & H4 & H5 & H6).
    destruct (ondataavailable_frame b
      (fold_left (fun st eventData => ondataavailable eventData st) events
                 (handleStartRecording Acquired st0)))
      as (F1 & F2 & F3 & F4 & F5).
    rewrite F1, F2, F3, F4, F5.
    repeat split; try assumption.
    now apply ondataavailable_chunks.
Qed.

Lemma emptyTranscription_result (text : option jsstring) :
  noTranscription text = true ->
  transcribeAudio (Responded text) = str "Error: " ++ emptyTranscription.
Proof. intros H. unfold transcribeAudio. rewrite H. reflexivity. Qed.

(** An answer without text counts as no transcription. *)
Lemma blank_noTranscription (text : option jsstring) :
  blankText text -> noTranscription text = true.
Proof.
  destruct text as [t|]; [|reflexivity]. cbn [blankText noTranscription].
  intros ->. apply orb_true_r.
Qed.

Lemma newBlob_size (chunks : list Blob) :
  chunks <> [] -> Forall (fun c => 0 < size c) chunks ->
  0 < size (newBlob chunks).
Proof.
  intros Hne H. destruct chunks as [|c chunks]; [congruence|].
  inversion H as [|? ? Hc _]; subst.
  unfold size, newBlob in *. cbn. rewrite length_app. lia.
Qed.

End SessionFacts.

(* ================================================================== *)
(** * More on splitting and trimming                                   *)
(* ================================================================== *)

Section MoreStringFacts.

Lemma trim_idem (s : jsstring) : trim (trim s) = trim s.
Proof.
  unfold trim at 2. rewrite trim_trimEnd. apply trim_trimStart.
Qed.

(** Every piece of a split is free of the separator. *)
Lemma split_pieces_free (sep : jsstring) (Hsep : sep <> []) :
  forall n s,
    length s <= n ->
    Forall (fun piece => includes sep piece = false) (split sep s).
Proof.
  induction n as [|n IH]; intros s Hlen.
  - destruct s; [|simpl in Hlen; lia].
    cbn [split split_go rev]. constructor; [|constructor].
    cbn [includes]. rewrite orb_false_r. now apply startsWith_nil_false.
  - destruct (Cut_or_absent sep Hsep s) as [Habs|(a & b & HC)].
    + rewrite (split_absent _ _ Habs). now constructor.
    + rewrite (split_Cut sep Hsep _ _ _ HC).
      pose proof (Cut_length _ _ _ _ HC) as Hl.
      constructor; [now apply (Cut_free sep s a b)|].
      apply IH. destruct sep; [congruence|simpl in Hl; lia].
Qed.

Lemma concat_split_length (sep : jsstring) (Hsep : sep <> []) :
  forall n s,
    length s <= n -> length (concat (split sep s)) <= length s.
Proof.
  induction n as [|n IH]; intros s Hlen.
  - destruct s; [cbn; lia|simpl in Hlen; lia].
  - destruct (Cut_or_absent sep Hsep s) as [Habs|(a & b & HC)].
    + rewrite (split_absent _ _ Habs). cbn. rewrite app_nil_r. lia.
    + rewrite (split_Cut sep Hsep _ _ _ HC).
      pose proof (Cut_length _ _ _ _ HC) as Hl.
      cbn [concat]. rewrite length_app.
      assert (length b <= n) by (destruct sep; [congruence|simpl in Hl; lia]).
      specialize (IH b H). lia.
Qed.

(** The two ways a document splits. *)
Lemma splitSummaryAndBody_cases (minutes : jsstring) :
  (includes delimiter minutes = false /\
   splitSummaryAndBody minutes = (trim minutes, [])) \/
  (exists a b,
      minutes = a ++ delimiter ++ b /\
      includes delimiter a = false /\
      splitSummaryAndBody minutes = (trim a, trim b)).
Proof.
  destruct (Cut_or_absent delimiter delimiter_nonempty minutes)
    as [Habs|(a & b & HC)].
  - left. split; [exact Habs|].
    unfold splitSummaryAndBody, summaryText, rawMarkdown, summaryPart,
      markdownParts.
    now rewrite (split_absent _ _ Habs).
  - right. exists a, b.
    split; [apply (Cut_app _ _ _ _ HC)|].
    split; [apply (Cut_free _ _ _ _ delimiter_nonempty HC)|].
    unfold splitSummaryAndBody, summaryText, rawMarkdown, summaryPart,
      markdownParts.
    rewrite (split_Cut _ delimiter_nonempty _ _ _ HC). cbn [hd tl].
    now rewrite (join_split delimiter b delimiter_nonempty).
Qed.

Lemma rawMarkdown_absent (minutes : jsstring) :
  includes delimiter minutes = false -> rawMarkdown minutes = [].
Proof.
  intros H. unfold rawMarkdown, markdownParts.
  now rewrite (split_absent _ _ H).
Qed.

Lemma summaryText_absent (minutes : jsstring) :
  includes delimiter minutes = false -> summaryText minutes = trim minutes.
Proof.
  intros H. unfold summaryText, summaryPart.
  now rewrite (split_absent _ _ H).
Qed.

End MoreStringFacts.

(* ================================================================== *)
(** * More on bold markers                                             *)
(* ================================================================== *)

Section MoreBoldFacts.

Import Html Notion.

Lemma forEachPart_contents (parts : list jsstring) :
  forall index,
    concat (map content (forEachPart index parts)) = concat parts.
Proof.
  induction parts as [|part parts IH]; intros index; [reflexivity|].
  cbn [forEachPart]. rewrite map_app, concat_app, IH.
  destruct part; [reflexivity|].
  cbn [truthy map content concat app]. now rewrite app_nil_r.
Qed.

Lemma forEachPart_runs (P : jsstring -> Prop) (parts : list jsstring) :
  Forall P parts ->
  forall index,
    Forall (fun run => content run <> [] /\ P (content run))
           (forEachPart index parts).
Proof.
  induction 1 as [|part parts Hp _ IH]; intros index; [constructor|].
  cbn [forEachPart]. apply Forall_app. split; [|apply IH].
  destruct part; cbn [truthy]; [constructor|].
  constructor; [|constructor]. split; [discriminate|exact Hp].
Qed.

(** The lazy star under a shift of the positions. *)
Lemma starLazy_shift (p : N -> bool) (d : nat) (cap : capture)
      (k k' : cont) :
  (forall q s c,
      k' (q + d) s c
      = match k q s c with
        | Some (e, c') => Some (e + d, c')
        | None => None
        end) ->
  forall s pos,
    starLazy p (pos + d) s cap k'
    = match starLazy p pos s cap k with
      | Some (e, c') => Some (e + d, c')
      | None => None
      end.
Proof.
  intros Hk. induction s as [|c s IH]; intros pos; cbn [starLazy].
  - rewrite Hk. destruct (k pos [] cap) as [[e c']|]; reflexivity.
  - rewrite Hk. destruct (k pos (c :: s) cap) as [[e c']|]; [reflexivity|].
    cbn [orElse]. destruct (p c); [|reflexivity].
    change (S (pos + d)) with (S pos + d). apply IH.
Qed.

(** Where the bold pattern matches does not depend on the index. *)
Lemma matchAt_bold_pos (pos : nat) (s : jsstring) :
  matchAt boldRe pos s = matchAt boldRe 0 s.
Proof.
  destruct (startsWith boldMarker s) eqn:E.
  - rewrite (startsWith_inv _ _ E). set (s1 := skipn (length boldMarker) s).
    rewrite !matchAt_bold.
    replace (pos + 2) with (0 + 2 + pos) by lia.
    rewrite (starLazy_shift dot pos None
               (fun pos' s' _ =>
                  if startsWith boldMarker s'
                  then Some (pos' + 2, Some (firstn (pos' - (0 + 2)) s1))
                  else None)).
    + destruct (starLazy dot (0 + 2) s1 None _) as [[e c]|]; [|reflexivity].
      do 2 f_equal. lia.
    + intros q s' c. destruct (startsWith boldMarker s'); [|reflexivity].
      replace (q + pos + 2) with (q + 2 + pos) by lia.
      replace (q + pos - (0 + 2 + pos)) with (q - (0 + 2)) by lia.
      reflexivity.
  - now rewrite !matchAt_bold_other.
Qed.

Lemma replaceAll_bold_pos :
  forall s pos skip,
    replaceAll_go boldRe strong pos skip s
    = replaceAll_go boldRe strong 0 skip s.
Proof.
  induction s as [|c s IH]; intros pos skip.
  - destruct skip; cbn [replaceAll_go]; [|reflexivity].
    now rewrite matchAt_bold_pos.
  - destruct skip as [|k]; cbn [replaceAll_go].
    + rewrite (matchAt_bold_pos pos).
      destruct (matchAt boldRe 0 (c :: s)) as [[[|len] cap]|];
        rewrite (IH (S pos)), (IH 1); reflexivity.
    + now rewrite (IH (S pos)), (IH 1).
Qed.

(** Code units that are no [*] are copied by the bold replacement. *)
Lemma replaceAll_bold_cons (c : N) (s : jsstring) :
  c <> 42%N ->
  replaceAll boldRe strong (c :: s) = c :: replaceAll boldRe strong s.
Proof.
  intros H. unfold replaceAll. rewrite replaceAll_go_none.
  - now rewrite replaceAll_bold_pos.
  - apply matchAt_bold_other. cbn [startsWith boldMarker].
    destruct (N.eqb_spec 42 c); [congruence|reflexivity].
Qed.

Lemma replaceAll_bold_ws (w s : jsstring) :
  forallb isWS w = true ->
  replaceAll boldRe strong (w ++ s) = w ++ replaceAll boldRe strong s.
Proof.
  induction w as [|c w IH]; intros H; [reflexivity|].
  cbn [forallb] in H. apply andb_true_iff in H as [Hc H].
  cbn [app]. rewrite replaceAll_bold_cons, IH; [reflexivity|exact H|].
  intros ->. discriminate Hc.
Qed.

End MoreBoldFacts.

(* ================================================================== *)
(** * More on the hypertext loop                                       *)
(* ================================================================== *)

Section MoreHtmlFacts.

Import Html.

Lemma nonBlank_all (s : jsstring) : nonBlank s = negb (forallb isWS s).
Proof.
  destruct (nonBlank s) eqn:E.
  - destruct (forallb isWS s) eqn:F; [|reflexivity].
    unfold nonBlank in E. now rewrite (trim_blank _ F) in E.
  - now rewrite (blank_all _ E).
Qed.

Lemma nonBlank_app (a b : jsstring) :
  nonBlank (a ++ b) = nonBlank a || nonBlank b.
Proof.
  rewrite !nonBlank_all, forallb_app. apply negb_andb.
Qed.

Lemma nonBlank_join (ls : list jsstring) :
  nonBlank (join [LF] ls) = existsb nonBlank ls.
Proof.
  induction ls as [|l ls IH]; [reflexivity|].
  destruct ls as [|l2 ls].
  - cbn [join existsb]. now rewrite orb_false_r.
  - rewrite join_cons by discriminate.
    rewrite !nonBlank_app, IH. cbn [existsb].
    now replace (nonBlank [LF]) with false by reflexivity.
Qed.

(** A text is blank exactly when each of its lines is. *)
Lemma nonBlank_lines (s : jsstring) :
  nonBlank s = existsb nonBlank (split [LF] s).
Proof.
  rewrite <- nonBlank_join. now rewrite (join_split _ _ LF_nonempty).
Qed.

Lemma filter_nil_existsb (A : Type) (p : A -> bool) (l : list A) :
  filter p l = [] <-> existsb p l = false.
Proof.
  induction l as [|a l IH]; [easy|].
  cbn [filter existsb]. destruct (p a); [easy|exact IH].
Qed.

Lemma nesting_app (es fs : list element) :
  forall st,
    nesting st (es ++ fs)
    = match nesting st es with
      | Some st' => nesting st' fs
      | None => None
      end.
Proof.
  induction es as [|e es IH]; intros st; [reflexivity|].
  cbn [app nesting]. destruct e, st; try reflexivity; apply IH.
Qed.

Lemma reads_closeListE (est : estate) :
  reads est -> reads (closeListE est) /\ inListE (closeListE est) = false.
Proof.
  unfold reads, closeListE. intros H.
  destruct (inListE est) eqn:E.
  - cbn [elements inListE]. now rewrite nesting_app, H.
  - now rewrite E.
Qed.

Lemma reads_stepE (est : estate) (line : jsstring) :
  reads est -> reads (stepE est line).
Proof.
  intros H. unfold stepE.
  destruct (negb (truthy (trim line))); [now apply reads_closeListE|].
  destruct (startsWith headerPrefix _).
  - destruct (reads_closeListE est H) as [H1 H2].
    unfold reads in *. cbn [emitE elements inListE].
    now rewrite nesting_app, H1, H2.
  - destruct (test listItemRe _).
    + unfold reads in *. unfold openListE.
      destruct (inListE est) eqn:E; cbn [emitE elements inListE];
        rewrite ?E, !nesting_app, H; reflexivity.
    + destruct (reads_closeListE est H) as [H1 H2].
      unfold reads in *. cbn [emitE elements inListE].
      now rewrite nesting_app, H1, H2.
Qed.

Lemma reads_fold (lines : list jsstring) :
  forall est, reads est -> reads (fold_left stepE lines est).
Proof.
  induction lines as [|line lines IH]; intros est H; [exact H|].
  apply IH. now apply reads_stepE.
Qed.

Lemma nesting_htmlElements (markdownText : jsstring) :
  nesting Outside (htmlElements markdownText) = Some Outside.
Proof.
  unfold htmlElements.
  destruct (reads_closeListE
              (fold_left stepE (split [LF] markdownText)
                         {| elements := []; inListE := false |})) as [H1 H2].
  - apply reads_fold. reflexivity.
  - unfold reads in H1. now rewrite H2 in H1.
Qed.

Lemma contents_app (es fs : list element) :
  contents (es ++ fs) = contents es + contents fs.
Proof. unfold contents. now rewrite filter_app, length_app. Qed.

Lemma contents_closeListE (est : estate) :
  contents (elements (closeListE est)) = contents (elements est).
Proof.
  unfold closeListE. destruct (inListE est); [|reflexivity].
  cbn [elements]. rewrite contents_app. apply Nat.add_0_r.
Qed.

Lemma contents_openListE (est : estate) :
  contents (elements (openListE est)) = contents (elements est).
Proof.
  unfold openListE. destruct (inListE est); [reflexivity|].
  cbn [elements]. rewrite contents_app. apply Nat.add_0_r.
Qed.

Lemma contents_stepE (est : estate) (line : jsstring) :
  contents (elements (stepE est line))
  = contents (elements est) + (if nonBlank line then 1 else 0).
Proof.
  unfold stepE, nonBlank.
  destruct (truthy (trim line)); cbn [negb].
  - destruct (startsWith headerPrefix _); [|destruct (test listItemRe _)];
      cbn [emitE elements];
      rewrite contents_app, ?contents_closeListE, ?contents_openListE;
      reflexivity.
  - rewrite contents_closeListE. now rewrite Nat.add_0_r.
Qed.

Lemma contents_fold (lines : list jsstring) :
  forall est,
    contents (elements (fold_left stepE lines est))
    = contents (elements est) + length (filter nonBlank lines).
Proof.
  induction lines as [|line lines IH]; intros est; cbn [fold_left filter].
  - now rewrite Nat.add_0_r.
  - rewrite IH, contents_stepE.
    destruct (nonBlank line); cbn [length]; lia.
Qed.

Lemma contents_htmlElements (markdownText : jsstring) :
  contents (htmlElements markdownText)
  = length (filter nonBlank (split [LF] markdownText)).
Proof.
  unfold htmlElements. now rewrite contents_closeListE, contents_fold.
Qed.

(** A balanced fragment without a content element is empty. *)
Lemma nesting_no_contents (es : list element) :
  nesting Outside es = Some Outside -> contents es = 0 -> es = [].
Proof.
  destruct es as [|e es]; [reflexivity|].
  destruct e; cbn [nesting]; try discriminate.
  destruct es as [|e es]; [discriminate|].
  destruct e; cbn [nesting]; discriminate.
Qed.

Lemma render_nil (es : list element) : render es = [] -> es = [].
Proof.
  destruct es as [|e es]; [reflexivity|].
  unfold render. cbn [map concat]. destruct e; discriminate.
Qed.

(** The hypertext is empty exactly for a blank text. *)
Lemma markdownToHtml_blank (markdownText : jsstring) :
  markdownToHtml markdownText = [] <-> nonBlank markdownText = false.
Proof.
  rewrite markdownToHtml_elements, nonBlank_lines, <- filter_nil_existsb.
  pose proof (contents_htmlElements markdownText) as Hc.
  split; intros H.
  - apply render_nil in H. rewrite H in Hc.
    apply length_zero_iff_nil. now rewrite <- Hc.
  - rewrite H in Hc.
    rewrite (nesting_no_contents _ (nesting_htmlElements markdownText) Hc).
    reflexivity.
Qed.

End MoreHtmlFacts.

Section ListItemFacts.

Import Html.

(** Each of the three markers is read by the group, whatever follows. *)
Lemma run_marker (m : jsstring) (pos : nat) (s : jsstring) (cap : capture)
      (k : cont) :
  In m listMarkers ->
  run marker pos (m ++ s) cap k = k (pos + length m) s (Some m).
Proof.
  intros [<-|[<-|[<-|[]]]]; unfold marker;
    cbn [run str map list_ascii_of_string app startsWith N_of_ascii
         length skipn orElse N.eqb N.of_nat andb];
    cbv [N_of_digits N_of_ascii N.mul N.add Pos.mul Pos.add N.eqb Pos.eqb
         andb];
    cbn [orElse];
    (replace (pos + 1 - pos) with 1 by lia)
    || (replace (pos + 3 - pos) with 3 by lia);
    cbn [firstn];
    destruct (k _ s _) as [[e c]|]; reflexivity.
Qed.

Lemma marker_head (m : jsstring) :
  In m listMarkers ->
  exists c r, m = c :: r /\ isWS c = false /\ c <> 35%N /\
              (startsWith Notion.boldMarker m = false) /\
              (forall w s, isWS w = true ->
                           replaceAll boldRe strong (m ++ w :: s)
                           = m ++ replaceAll boldRe strong (w :: s)).
Proof.
  intros [<-|[<-|[<-|[]]]].
  - exists 42%N, []. repeat split; try discriminate.
    intros w s Hw. cbn [str map list_ascii_of_string app].
    change (N_of_ascii "*") with 42%N.
    unfold replaceAll. rewrite replaceAll_go_none.
    + now rewrite replaceAll_bold_pos.
    + apply matchAt_bold_other. cbn [startsWith Notion.boldMarker].
      destruct (N.eqb_spec 42 w) as [<-|]; [discriminate Hw|reflexivity].
  - exists 45%N, []. repeat split; try discriminate.
    intros w s _.
    change (str "-" ++ w :: s) with (45%N :: w :: s).
    now rewrite replaceAll_bold_cons by discriminate.
  - exists 91%N, [32%N; 93%N]. repeat split; try discriminate.
    intros w s _.
    change (str "[ ]" ++ w :: s) with (91%N :: 32%N :: 93%N :: w :: s).
    now rewrite !replaceAll_bold_cons by discriminate.
Qed.

(** The bold replacement of a text that opens with a code unit other than
    whitespace opens with one, too. *)
Lemma replaceAll_bold_head (c : N) (s : jsstring) :
  isWS c = false ->
  stops isWS (replaceAll boldRe strong (c :: s)).
Proof.
  intros H. unfold replaceAll. cbn [replaceAll_go].
  destruct (matchAt boldRe 0 (c :: s)) as [[len cap]|]; [reflexivity|].
  exact H.
Qed.

Lemma dropWhile_stops (p : N -> bool) (w s : jsstring) :
  forallb p w = true -> stops p s -> dropWhile p (w ++ s) = s.
Proof.
  intros Hw Hs. rewrite dropWhile_app, (dropWhile_nil _ _ Hw).
  destruct s as [|c s]; [reflexivity|].
  cbn [dropWhile]. simpl in Hs. now rewrite Hs.
Qed.

End ListItemFacts.

(* ================================================================== *)
(** * More on sections and blocks                                      *)
(* ================================================================== *)

Section MoreBlockFacts.

Import Html Notion.

Lemma concat_closePiece (cur : jsstring) (rest : list jsstring) :
  concat (closePiece cur rest) = rev cur ++ concat rest.
Proof. destruct cur; reflexivity. Qed.

Lemma concat_splitRe_go :
  forall s pos cur,
    concat (splitRe_go sectionRe pos 0 cur s) = rev cur ++ s.
Proof.
  induction s as [|c s IH]; intros pos cur.
  - cbn [splitRe_go concat]. reflexivity.
  - destruct (marked (c :: s)) eqn:E.
    + rewrite splitRe_go_marked by exact E.
      now rewrite concat_closePiece, IH.
    + rewrite splitRe_go_unmarked by exact E.
      rewrite IH. cbn [rev]. now rewrite <- app_assoc.
Qed.

Lemma marked_inv (t : jsstring) :
  marked t = true ->
  exists d r, t = 35%N :: 35%N :: 35%N :: d :: r /\ isWS d = true.
Proof.
  unfold marked. intros H. apply andb_true_iff in H as [H1 H2].
  apply startsWith_inv in H1. rewrite H1 in *.
  change (length hashes) with 3 in *.
  set (u := skipn 3 t) in *.
  change (skipn 3 (hashes ++ u)) with u in H2.
  destruct u as [|d r]; [discriminate|]. now exists d, r.
Qed.

Lemma marked_app (x y : jsstring) :
  4 <= length x -> marked (x ++ y) = marked x.
Proof.
  destruct x as [|x0 [|x1 [|x2 [|x3 x]]]]; cbn [length]; intros H;
    [lia|lia|lia|lia|reflexivity].
Qed.

(** Two places where the pattern matches lie four code units apart at
    least. *)
Lemma marked_overlap (x : jsstring) (c : N) (s : jsstring) :
  marked (x ++ c :: s) = true -> x <> [] -> length x <= 3 ->
  marked (c :: s) = false.
Proof.
  intros H Hne Hlen. destruct (marked (c :: s)) eqn:E; [|reflexivity].
  apply marked_inv in H as (d & r & H & Hd).
  apply marked_inv in E as (d' & r' & E & _).
  destruct x as [|x0 [|x1 [|x2 [|x3 x]]]];
    [congruence| | | |cbn [length] in Hlen; lia];
    cbn [app] in H; rewrite E in H; injection H; intros; subst;
    discriminate Hd.
Qed.

(** A piece that is open at a place where the pattern matches starts
    there. *)
Lemma splitRe_go_head_marked :
  forall s pos cur,
    cur <> [] -> marked (rev cur ++ s) = true ->
    exists first rest,
      splitRe_go sectionRe pos 0 cur s = first :: rest /\
      marked first = true.
Proof.
  induction s as [|c s IH]; intros pos cur Hne H.
  - exists (rev cur), []. split; [reflexivity|].
    now rewrite app_nil_r in H.
  - destruct (marked (c :: s)) eqn:E.
    + rewrite splitRe_go_marked by exact E.
      destruct cur as [|x cur]; [congruence|].
      exists (rev (x :: cur)), (splitRe_go sectionRe (S pos) 0 [c] s).
      split; [reflexivity|].
      destruct (le_lt_dec 4 (length (rev (x :: cur)))) as [L|L].
      * now rewrite <- (marked_app _ (c :: s)).
      * rewrite (marked_overlap (rev (x :: cur)) c s H) in E;
          [discriminate| |lia].
        intros F. apply (f_equal (@length N)) in F.
        rewrite length_rev in F. discriminate F.
    + rewrite splitRe_go_unmarked by exact E.
      apply IH; [discriminate|].
      cbn [rev]. now rewrite <- app_assoc.
Qed.

Lemma splitRe_go_tail_marked :
  forall s pos cur,
    Forall (fun piece => marked piece = true)
           (tl (splitRe_go sectionRe pos 0 cur s)).
Proof.
  induction s as [|c s IH]; intros pos cur; [constructor|].
  destruct (marked (c :: s)) eqn:E.
  - rewrite splitRe_go_marked by exact E.
    assert (H : Forall (fun piece => marked piece = true)
                       (splitRe_go sectionRe (S pos) 0 [c] s)).
    { destruct (splitRe_go_head_marked s (S pos) [c]) as (f & r & Ef & Hf);
        [discriminate|exact E|].
      specialize (IH (S pos) [c]). rewrite Ef in *.
      now constructor. }
    destruct cur; [|exact H].
    cbn [closePiece]. destruct H; [constructor|assumption].
  - rewrite splitRe_go_unmarked by exact E. apply IH.
Qed.

Lemma splitRe_go_nonempty :
  forall s pos cur,
    truthy cur = true \/ truthy s = true ->
    Forall (fun piece => truthy piece = true)
           (splitRe_go sectionRe pos 0 cur s).
Proof.
  assert (R : forall cur, truthy cur = true -> truthy (rev cur) = true).
  { intros [|x cur] H; [discriminate|].
    cbn [rev]. now destruct (rev cur). }
  induction s as [|c s IH]; intros pos cur H.
  - destruct H as [H|H]; [|discriminate].
    constructor; [now apply R|constructor].
  - destruct (marked (c :: s)) eqn:E.
    + rewrite splitRe_go_marked by exact E.
      assert (Hr := IH (S pos) [c] (or_introl eq_refl)).
      destruct cur as [|x cur]; [exact Hr|].
      constructor; [now apply R|exact Hr].
    + rewrite splitRe_go_unmarked by exact E.
      apply IH. now left.
Qed.

Lemma splitRe_sectionRe_nil : splitRe sectionRe [] = [[]].
Proof. reflexivity. Qed.

Lemma concat_splitRe (markdown : jsstring) :
  concat (splitRe sectionRe markdown) = markdown.
Proof.
  destruct markdown as [|c s]; [reflexivity|].
  unfold splitRe. apply concat_splitRe_go.
Qed.

Lemma nonBlank_concat (ls : list jsstring) :
  nonBlank (concat ls) = existsb nonBlank ls.
Proof.
  induction ls as [|l ls IH]; [reflexivity|].
  cbn [concat existsb]. now rewrite nonBlank_app, IH.
Qed.

Lemma nonBlank_trim (s : jsstring) : nonBlank (trim s) = nonBlank s.
Proof. unfold nonBlank. now rewrite trim_idem. Qed.

Lemma sections_nil (markdown : jsstring) :
  sections markdown = [] <-> nonBlank markdown = false.
Proof.
  unfold sections. rewrite filter_nil_existsb, <- nonBlank_concat.
  now rewrite concat_splitRe.
Qed.

(** A section that is not blank opens with its heading. *)
Lemma sectionBlocks_heading (section : jsstring) :
  nonBlank section = true ->
  exists line0 contentLines,
    sectionLines section = line0 :: contentLines /\
    sectionBlocks section
    = heading_3 (createTextWithBold (titleOf line0))
        :: flat_map (lineBlocks (titleOf line0)) contentLines.
Proof.
  intros H. unfold sectionBlocks.
  destruct (sectionLines section) as [|line0 contentLines] eqn:E.
  - unfold sectionLines in E. apply filter_nil_existsb in E.
    rewrite <- nonBlank_lines, nonBlank_trim in E. congruence.
  - now exists line0, contentLines.
Qed.

Lemma headingBlocks_sections (secs : list jsstring) :
  Forall (fun section => nonBlank section = true) secs ->
  length (headingBlocks (flat_map sectionBlocks secs)) = length secs.
Proof.
  induction 1 as [|sec secs H _ IH]; [reflexivity|].
  cbn [flat_map]. rewrite headingBlocks_app, length_app, IH.
  destruct (sectionBlocks_heading sec H) as (l0 & ls & _ & ->).
  change (headingBlocks (heading_3 ?r :: ?x))
    with ([r] ++ headingBlocks x).
  cbn [headingBlocks flat_map app].
  fold (headingBlocks (flat_map (lineBlocks (titleOf l0)) ls)).
  now rewrite headingBlocks_lines.
Qed.

Lemma sections_all_nonBlank (markdown : jsstring) :
  Forall (fun section => nonBlank section = true) (sections markdown).
Proof.
  apply Forall_forall. intros sec H. unfold sections in H.
  now apply filter_In in H.
Qed.

Lemma blocks_nil_blank (markdown : jsstring) :
  parseMarkdownToNotionBlocks markdown = [] <-> nonBlank markdown = false.
Proof.
  rewrite <- sections_nil. unfold parseMarkdownToNotionBlocks.
  pose proof (sections_all_nonBlank markdown) as H.
  destruct (sections markdown) as [|sec secs]; [easy|].
  inversion H as [|x l Hsec _]; subst.
  destruct (sectionBlocks_heading sec Hsec) as (l0 & ls & _ & E).
  cbn [flat_map]. rewrite E. easy.
Qed.

Lemma cleanRuns_createTextWithBold (text : jsstring) :
  cleanRuns (createTextWithBold text).
Proof.
  unfold cleanRuns, createTextWithBold.
  apply (forEachPart_runs (fun piece => includes boldMarker piece = false)).
  apply (split_pieces_free boldMarker boldMarker_nonempty (length text)).
  apply le_n.
Qed.

(** The first run of a text that opens with the bullet. *)
Lemma createTextWithBold_bullet (text : jsstring) :
  exists rest tail,
    createTextWithBold (bullet ++ text)
    = {| content := bullet ++ rest; bold := false |} :: tail.
Proof.
  unfold createTextWithBold.
  destruct (Cut_or_absent boldMarker boldMarker_nonempty (bullet ++ text))
    as [H|(a & b & H)].
  - rewrite (split_absent _ _ H). exists text, []. reflexivity.
  - rewrite (split_Cut boldMarker boldMarker_nonempty _ _ _ H).
    unfold bullet in H. cbn [app] in H.
    inversion H as [b0 E0|c0 s0 a0 b0 _ H1]; subst.
    inversion H1 as [b1 E1|c1 s1 a1 b1 _ H2]; subst.
    exists a1, (forEachPart 1 (split boldMarker b)). reflexivity.
Qed.

Lemma lineBlocks_shape (title line : jsstring) :
  Forall (fun b => cleanRuns (richTextOf b) /\ blockShape b)
         (lineBlocks title line).
Proof.
  unfold lineBlocks, taskBlocks, paragraphBlocks.
  destruct (includes tasksTitle title).
  - destruct (truthy (taskText line)); constructor; [|constructor].
    split; [apply cleanRuns_createTextWithBold|reflexivity].
  - destruct (truthy (cleanedLine line)); constructor; [|constructor].
    split; [apply cleanRuns_createTextWithBold|].
    apply createTextWithBold_bullet.
Qed.

Lemma sectionBlocks_shape (section : jsstring) :
  Forall (fun b => cleanRuns (richTextOf b) /\ blockShape b)
         (sectionBlocks section).
Proof.
  unfold sectionBlocks.
  destruct (sectionLines section) as [|line0 contentLines]; [constructor|].
  constructor.
  - split; [apply cleanRuns_createTextWithBold|exact I].
  - induction contentLines as [|l ls IH]; [constructor|].
    cbn [flat_map]. apply Forall_app. split; [apply lineBlocks_shape|exact IH].
Qed.

End MoreBlockFacts.

Section ContentLineFacts.

Import Html Notion.

Lemma dropCheckbox_absent :
  forall line, includes checkbox line = false -> dropCheckbox line = line.
Proof.
  induction line as [|c line IH]; intros H; [reflexivity|].
  apply includes_cons_false in H as [H1 H2].
  cbn [dropCheckbox]. rewrite H1. now rewrite IH.
Qed.

Lemma dropCheckbox_Cut (line a y : jsstring) :
  Cut checkbox line a y -> dropCheckbox line = a ++ dropWhile isWS y.
Proof.
  induction 1 as [b|c s a b E _ IH].
  - reflexivity.
  - cbn [dropCheckbox]. rewrite E. now rewrite IH.
Qed.

Lemma taskText_dropCheckbox (line : jsstring) :
  taskText line = trim (dropCheckbox line).
Proof.
  unfold taskText.
  destruct (Cut_or_absent checkbox checkbox_nonempty line)
    as [H|(a & y & H)].
  - now rewrite replaceFirst_checkbox_absent, dropCheckbox_absent.
  - now rewrite (replaceFirst_checkbox _ _ _ H), (dropCheckbox_Cut _ _ _ H).
Qed.

Lemma cleanedLine_dropBullet (line : jsstring) :
  cleanedLine line = trim (dropBullet line).
Proof.
  unfold cleanedLine, dropBullet, trimStart.
  destruct (dropWhile_split isWS line) as (w & E & Hw).
  destruct (dropWhile isWS line) as [|m rest] eqn:Ed.
  - rewrite app_nil_r in E. subst w.
    rewrite <- (app_nil_r line) at 1.
    now rewrite (replaceFirst_bullet_absent line [] Hw I I), app_nil_r.
  - assert (Hm : isWS m = false).
    { pose proof (stops_dropWhile isWS line []) as Hs.
      rewrite Ed in Hs. apply Hs. discriminate. }
    destruct (bulletChar m) eqn:Eb.
    + rewrite E at 1. rewrite (replaceFirst_bullet w m rest Hw Eb).
      apply trim_trimStart.
    + rewrite E at 1.
      rewrite (replaceFirst_bullet_absent w (m :: rest) Hw Hm Eb).
      now rewrite <- E.
Qed.

End ContentLineFacts.

(* ================================================================== *)
(** * Facts about the events of a session                              *)
(* ================================================================== *)

Section EventFacts.

Import Service Session Events.

Lemma forallb_snoc (A : Type) (p : A -> bool) (l : list A) (a : A) :
  forallb p (l ++ [a]) = forallb p l && p a.
Proof. rewrite forallb_app. cbn [forallb]. now rewrite andb_true_r. Qed.

Ltac coherence :=
  unfold coherent; cbn;
  repeat match goal with |- _ /\ _ => split end;
  try discriminate; try congruence; try assumption; try (now constructor);
  try (intros _; now eexists _, _).

Lemma coherent_initial : coherent initial.
Proof. unfold initial. coherence. Qed.

Lemma coherent_handleReset (st : state) :
  coherent st -> coherent (handleReset st).
Proof.
  intros (_ & _ & _ & _ & _ & H & _). unfold handleReset. coherence.
Qed.

Lemma coherent_handleStartRecording (a : acquisition) (st : state) :
  coherent st -> coherent (handleStartRecording a st).
Proof.
  intros (_ & _ & _ & _ & _ & H & _). unfold handleStartRecording.
  destruct a as [|isError name]; coherence.
Qed.

Lemma coherent_ondataavailable (b : Blob) (st : state) :
  coherent st -> coherent (ondataavailable b st).
Proof.
  intros (H1 & H2 & H3 & H4 & H5 & H6 & H7).
  pose proof (ondataavailable_chunks b st H5) as H5'.
  unfold ondataavailable in *.
  destruct (0 <? size b); cbn in *; coherence.
Qed.

Lemma coherent_tick (st : state) : coherent st -> coherent (tick st).
Proof. intros H. exact H. Qed.

Lemma coherent_typeText (text : jsstring) (st : state) :
  coherent st -> coherent (typeText text st).
Proof. intros H. exact H. Qed.

Lemma coherent_useText (st : state) :
  status st = Idle -> coherent st -> coherent (setStatus ReadyToGenerate st).
Proof.
  intros Hs (H1 & H2 & H3 & H4 & H5 & H6 & H7). coherence.
  - intros F. specialize (H2 F). congruence.
  - intros F. specialize (H3 F). congruence.
  - intros F. specialize (H4 F). congruence.
Qed.

(** [generateAndSetMinutes] on a component that holds no minutes, runs no
    timer and records nothing. *)
Lemma coherent_generateAndSetMinutes (o : outcome) (t : jsstring)
      (st : state) :
  minutes st = [] -> timerInterval st = false ->
  mediaRecorder st <> Some recording ->
  Forall (fun c => 0 < size c) (audioChunks st) ->
  forallb sound (sent st) = true ->
  coherent (generateAndSetMinutes o t st).
Proof.
  intros Hm Ht Hr Hc Hs. unfold generateAndSetMinutes.
  destruct (truthy (trim t)) eqn:E; cbn [negb].
  - assert (Hs' : forallb sound (sent st ++ [Generate t]) = true).
    { rewrite forallb_snoc, Hs. exact E. }
    destruct (generateMinutesFromText o) as [r|].
    + destruct (startsWith (str "Error") r); coherence.
    + coherence.
  - coherence.
Qed.

Lemma coherent_clickGenerate (o : outcome) (st : state) :
  status st = ReadyToGenerate -> coherent st -> coherent (clickGenerate o st).
Proof.
  intros Hst H. unfold clickGenerate. rewrite Hst.
  destruct (generateDisabled st); [exact H|].
  destruct H as (H1 & H2 & H3 & H4 & H5 & H6 & H7).
  apply coherent_generateAndSetMinutes; try assumption.
  - destruct (minutes st) as [|c m] eqn:E; [reflexivity|].
    assert (F : status st = Done) by (apply H2; discriminate). congruence.
  - destruct (timerInterval st); [|reflexivity].
    specialize (H3 eq_refl). congruence.
  - intros F. specialize (H4 F). congruence.
Qed.

Lemma coherent_onstop (tr gen : outcome) (st : state) :
  minutes st = [] ->
  Forall (fun c => 0 < size c) (audioChunks st) ->
  forallb sound (sent st) = true ->
  mediaRecorder st <> Some recording ->
  coherent (onstop tr gen st).
Proof.
  intros Hm Hc Hs Hr. unfold onstop.
  cbn [cleanupStreams audioChunks].
  destruct (audioChunks st) as [|c chunks] eqn:E.
  - coherence.
  - assert (Hs' : forallb sound
                    (sent st ++ [Transcribe (newBlob (c :: chunks))]) = true).
    { rewrite forallb_snoc, Hs. cbn [sound andb]. apply Nat.ltb_lt.
      apply newBlob_size; [discriminate|exact Hc]. }
    destruct (startsWith (str "Error:") (transcribeAudio tr)).
    + unfold coherent. cbn. rewrite E. coherence.
    + apply coherent_generateAndSetMinutes; cbn; rewrite ?E;
        try assumption; reflexivity.
Qed.

Lemma coherent_handleStopRecording (tr gen : outcome) (st : state) :
  status st = Recording -> coherent st ->
  coherent (handleStopRecording tr gen st).
Proof.
  intros Hst H. unfold handleStopRecording.
  destruct (mediaRecorder st) as [[|]|]; try exact H.
  destruct H as (H1 & H2 & H3 & H4 & H5 & H6 & H7).
  apply coherent_onstop; cbn; try assumption; [|discriminate].
  destruct (minutes st) as [|c m] eqn:E; [reflexivity|].
  assert (F : status st = Done) by (apply H2; discriminate). congruence.
Qed.

(** A copy handler sets an error at most. *)
Lemma coherent_copy (e : Clipboard.effect) (a : app) :
  coherent (session a) -> coherent (session (copy e a)).
Proof.
  intros (H1 & H2 & H3 & H4 & H5 & H6 & H7). unfold copy. cbn [session].
  destruct (Clipboard.errorSet e); coherence.
Qed.

Lemma coherent_dispatch (e : event) (a : app) :
  coherent (session a) -> coherent (session (dispatch e a)).
Proof.
  intros H. unfold dispatch.
  destruct e.
  1-10: destruct (status (session a)) eqn:Hst; try exact H;
    cbn [session onSession];
    first [ now apply coherent_handleStartRecording
          | now apply coherent_useText
          | now apply coherent_clickGenerate
          | now apply coherent_handleStopRecording
          | now apply coherent_handleReset
          | now apply coherent_copy ].
  - destruct (mediaRecorder (session a)); [|exact H].
    now apply coherent_ondataavailable.
  - destruct (timerInterval (session a)); exact H.
Qed.

Lemma coherent_fold (events : list event) :
  forall a, coherent (session a) ->
            coherent (session (fold_left (fun a e => dispatch e a) events a)).
Proof.
  induction events as [|e events IH]; intros a H; [exact H|].
  apply IH. now apply coherent_dispatch.
Qed.

Lemma coherent_run (events : list event) : coherent (session (run events)).
Proof. apply coherent_fold, coherent_initial. Qed.

(** ** The clipboard *)

Lemma extractTitle_trimmed (rawMarkdown : jsstring) :
  trim (Title.extractTitle rawMarkdown) = Title.extractTitle rawMarkdown.
Proof.
  unfold Title.extractTitle.
  destruct (search Title.projectNameRegex 0 rawMarkdown) as [[[i l] cap]|];
    [apply trim_idem|reflexivity].
Qed.

Lemma truthy_trim_nonBlank (s : jsstring) :
  truthy (trim s) = true -> nonBlank (trim s) = true.
Proof. intros H. unfold nonBlank. now rewrite trim_idem. Qed.

Lemma tidy_written (e : Clipboard.effect) (st : state) :
  e = Clipboard.handleCopy (minutes st) \/
  e = Clipboard.handleCopySummary (minutes st) \/
  e = Clipboard.handleCopyProjectName (projectName st) \/
  (exists w, e = Clipboard.handleCopyFormatted w (minutes st)) ->
  match Clipboard.written e with
  | Some i => tidy i
  | None => True
  end.
Proof.
  intros [->|[->|[->|[w ->]]]].
  - cbn. apply trim_idem.
  - unfold Clipboard.handleCopySummary.
    destruct (truthy (summaryText (minutes st))); [|exact I].
    cbn. apply trim_idem.
  - unfold Clipboard.handleCopyProjectName.
    destruct (truthy (projectName st) && _); [|exact I].
    cbn. apply extractTitle_trimmed.
  - unfold Clipboard.handleCopyFormatted.
    destruct (truthy (rawMarkdown (minutes st))) eqn:E; [|exact I].
    cbn [negb]. destruct w; cbn [Clipboard.written]; try exact I.
    cbn [tidy].
    destruct (Html.markdownToHtml (rawMarkdown (minutes st))) eqn:F;
      [|reflexivity].
    apply markdownToHtml_blank in F.
    unfold rawMarkdown in E, F.
    rewrite (truthy_trim_nonBlank _ E) in F. discriminate F.
Qed.

Lemma tidy_copy (e : Clipboard.effect) (a : app) :
  match Clipboard.written e with
  | Some i => tidy i
  | None => True
  end ->
  Forall tidy (clipboard a) -> Forall tidy (clipboard (copy e a)).
Proof.
  intros He H. unfold copy. cbn [clipboard].
  apply Forall_app. split; [exact H|].
  destruct (Clipboard.written e); [|constructor].
  constructor; [exact He|constructor].
Qed.

Lemma tidy_dispatch (e : event) (a : app) :
  Forall tidy (clipboard a) -> Forall tidy (clipboard (dispatch e a)).
Proof.
  intros H. unfold dispatch.
  destruct e.
  1-10: destruct (status (session a)) eqn:Hst; try exact H;
    (apply tidy_copy; [apply (tidy_written _ (session a))|exact H]);
    first [ now left
          | right; now left
          | right; right; now left
          | right; right; right; now exists w ].
  - destruct (mediaRecorder (session a)); exact H.
  - destruct (timerInterval (session a)); exact H.
Qed.

Lemma tidy_fold (events : list event) :
  forall a, Forall tidy (clipboard a) ->
            Forall tidy (clipboard (fold_left (fun a e => dispatch e a)
                                              events a)).
Proof.
  induction events as [|e events IH]; intros a H; [exact H|].
  apply IH. now apply tidy_dispatch.
Qed.

End EventFacts.


(* ================================================================== *)
(** * Facts about the display                                          *)
(* ================================================================== *)

Section DisplayFacts.

Import Display.

Lemma eqs_eq (a b : jsstring) : eqs a b = true <-> a = b.
Proof.
  revert b. induction a as [|x a IH]; intros [|y b]; cbn [eqs];
    try easy.
  rewrite andb_true_iff, N.eqb_eq, IH. split.
  - now intros [-> ->].
  - intros E. now injection E.
Qed.

Lemma padStart_twoDigits (n : nat) :
  n < 100 -> padStart 2 48%N (toString n) = twoDigits n.
Proof.
  intros H. do 100 (destruct n as [|n]; [reflexivity|]). lia.
Qed.

Lemma digits_nil (d : Decimal.uint) : digits d = [] -> d = Decimal.Nil.
Proof. destruct d; cbn [digits]; intros H; [reflexivity|discriminate..]. Qed.

Lemma digits_zero (d : Decimal.uint) (s : jsstring) :
  digits d = 48%N :: s -> exists d', d = Decimal.D0 d' /\ digits d' = s.
Proof.
  destruct d; cbn [digits]; intros H; try discriminate H.
  injection H as H. now exists d.
Qed.

(** The hours read [00] for less than an hour only. *)
Lemma hours_zero (h : nat) :
  eqs (padStart 2 48%N (toString h)) (str "00") = (h =? 0).
Proof.
  destruct (Nat.eqb_spec h 0) as [->|Hne]; [reflexivity|].
  destruct (eqs _ _) eqn:E; [|reflexivity]. exfalso. apply Hne.
  apply eqs_eq in E. rewrite <- (Unsigned.of_to h).
  unfold toString, padStart in E.
  destruct (digits (Nat.to_uint h)) as [|c1 [|c2 s]] eqn:D.
  - apply digits_nil in D. now rewrite D.
  - cbn in E. injection E as ->.
    apply digits_zero in D as (d1 & -> & D).
    apply digits_nil in D. now rewrite D.
  - cbn in E. injection E as -> -> ->.
    apply digits_zero in D as (d1 & -> & D).
    apply digits_zero in D as (d2 & -> & D).
    apply digits_nil in D. now rewrite D.
Qed.

Lemma formatTime_fields (seconds : nat) :
  formatTime seconds
  = (if seconds <? 3600 then []
     else padStart 2 48%N (toString (seconds / 3600)) ++ str ":")
    ++ twoDigits ((seconds mod 3600) / 60) ++ str ":"
    ++ twoDigits (seconds mod 60).
Proof.
  unfold formatTime. rewrite hours_zero.
  assert (Hm : (seconds mod 3600) / 60 < 100).
  { apply Nat.Div0.div_lt_upper_bound.
    pose proof (Nat.mod_upper_bound seconds 3600). lia. }
  assert (Hs : seconds mod 60 < 100).
  { pose proof (Nat.mod_upper_bound seconds 60). lia. }
  rewrite !(padStart_twoDigits _ Hm), !(padStart_twoDigits _ Hs).
  destruct (Nat.ltb_spec seconds 3600) as [L|L].
  - rewrite (Nat.div_small _ _ L). reflexivity.
  - assert (H : seconds / 3600 <> 0).
    { intros F. apply Nat.div_small_iff in F; lia. }
    apply Nat.eqb_neq in H. rewrite H. now rewrite <- app_assoc.
Qed.

Lemma app_inv_length_tail (A : Type) :
  forall a1 a2 t1 t2 : list A,
    a1 ++ t1 = a2 ++ t2 -> length t1 = length t2 -> a1 = a2 /\ t1 = t2.
Proof.
  induction a1 as [|x a1 IH]; intros [|y a2] t1 t2 E L; cbn [app] in E.
  - now split.
  - apply (f_equal (@length A)) in E. cbn [length] in E.
    rewrite length_app in E. lia.
  - apply (f_equal (@length A)) in E. cbn [length] in E.
    rewrite length_app in E. lia.
  - injection E as -> E. destruct (IH a2 t1 t2 E L) as [-> ->]. now split.
Qed.

Lemma digits_inj :
  forall d1 d2, digits d1 = digits d2 -> d1 = d2.
Proof.
  induction d1 as [|d1 IH|d1 IH|d1 IH|d1 IH|d1 IH|d1 IH|d1 IH|d1 IH|d1 IH
                   |d1 IH];
    intros [|d2|d2|d2|d2|d2|d2|d2|d2|d2|d2]; cbn [digits]; intros H;
    try discriminate H; try reflexivity;
    injection H as H; f_equal; now apply IH.
Qed.

(** Padding adds zeros in front, which do not change the number. *)
Lemma padStart_digits (d : Decimal.uint) :
  exists d', padStart 2 48%N (digits d) = digits d' /\
             Nat.of_uint d' = Nat.of_uint d.
Proof.
  unfold padStart.
  destruct (digits d) as [|c1 [|c2 r]] eqn:E.
  - apply digits_nil in E. subst d.
    now exists (Decimal.D0 (Decimal.D0 Decimal.Nil)).
  - exists (Decimal.D0 d). cbn [digits]. rewrite E. now split.
  - exists d. rewrite E. now split.
Qed.

Lemma hours_inj (h1 h2 : nat) :
  padStart 2 48%N (toString h1) = padStart 2 48%N (toString h2) -> h1 = h2.
Proof.
  unfold toString. intros H.
  destruct (padStart_digits (Nat.to_uint h1)) as (d1 & E1 & O1).
  destruct (padStart_digits (Nat.to_uint h2)) as (d2 & E2 & O2).
  rewrite E1, E2 in H. apply digits_inj in H. subst d2.
  rewrite O1 in O2. now rewrite !Unsigned.of_to in O2.
Qed.

Lemma twoDigits_inj (n m : nat) :
  (48 + N.of_nat (n / 10))%N = (48 + N.of_nat (m / 10))%N ->
  (48 + N.of_nat (n mod 10))%N = (48 + N.of_nat (m mod 10))%N ->
  n = m.
Proof.
  intros H1 H2.
  apply N.add_cancel_l, Nat2N.inj in H1.
  apply N.add_cancel_l, Nat2N.inj in H2.
  rewrite (Nat.div_mod_eq n 10), (Nat.div_mod_eq m 10). congruence.
Qed.

(** The minutes and the seconds are read back from their four digits. *)
Lemma fields_inj (m1 s1 m2 s2 : nat) :
  twoDigits m1 ++ str ":" ++ twoDigits s1
  = twoDigits m2 ++ str ":" ++ twoDigits s2 ->
  m1 = m2 /\ s1 = s2.
Proof.
  unfold twoDigits. change (str ":") with [58%N]. cbn [app].
  intros H. injection H as H1 H2 H3 H4.
  split; eapply twoDigits_inj; eassumption.
Qed.

(** Hours, minutes and seconds give the time back. *)
Lemma time_of_fields (a b : nat) :
  a / 3600 = b / 3600 -> (a mod 3600) / 60 = (b mod 3600) / 60 ->
  a mod 60 = b mod 60 -> a = b.
Proof.
  intros Hq Hm Hs.
  assert (E : forall x, (x mod 3600) mod 60 = x mod 60).
  { intros x. change 3600 with (60 * 60).
    rewrite Nat.Div0.mod_mul_r, (Nat.mul_comm 60), Nat.Div0.mod_add.
    apply Nat.Div0.mod_mod. }
  rewrite (Nat.div_mod_eq a 3600), (Nat.div_mod_eq b 3600), Hq.
  f_equal.
  rewrite (Nat.div_mod_eq (a mod 3600) 60), (Nat.div_mod_eq (b mod 3600) 60).
  rewrite Hm, !E, Hs. reflexivity.
Qed.

End DisplayFacts.

Section IndexFacts.

Import Display.

Variable sub : jsstring.

Lemma indexOf_go_absent :
  forall s pos, includes sub s = false -> indexOf_go sub pos s = None.
Proof.
  induction s as [|c s IH]; intros pos H; cbn [indexOf_go includes] in *.
  - rewrite orb_false_r in H. now rewrite H.
  - apply orb_false_iff in H as [H1 H2]. rewrite H1. now apply IH.
Qed.

Lemma indexOf_go_Cut (s a b : jsstring) :
  Cut sub s a b -> forall pos, indexOf_go sub pos s = Some (pos + length a).
Proof.
  induction 1 as [b|c s a b E _ IH]; intros pos.
  - cbn [length]. rewrite Nat.add_0_r.
    destruct (sub ++ b) as [|c r] eqn:Es; cbn [indexOf_go];
      now rewrite <- Es, startsWith_app.
  - cbn [indexOf_go]. rewrite E, IH. cbn [length]. f_equal. lia.
Qed.

End IndexFacts.

Section SendFacts.

Import Webhook.

Lemma trim_nonBlank (s : jsstring) : truthy (trim s) = nonBlank (trim s).
Proof. unfold nonBlank. now rewrite trim_idem. Qed.

Lemma rawMarkdown_blocks (minutes : jsstring) :
  Notion.parseMarkdownToNotionBlocks (rawMarkdown minutes) = [] <->
  rawMarkdown minutes = [].
Proof.
  rewrite blocks_nil_blank. unfold rawMarkdown at 1.
  rewrite <- trim_nonBlank. fold (rawMarkdown minutes).
  destruct (rawMarkdown minutes); cbn [truthy]; split; congruence.
Qed.

End SendFacts.

(* ================================================================== *)
(** * The title is one line                                            *)
(* ================================================================== *)

Section TitleLineFacts.

Import Title.

Local Abbreviation kf := (fun (pos' : nat) (_ : jsstring) (cap' : capture) =>
                        Some (pos', cap')).
Local Abbreviation R5 := (Star isWS +++ Lit [LF]).
Local Abbreviation R4 := (Group (StarLazy dotAll) +++ R5).

Lemma orElse_some (a b : result) (res : nat * capture) :
  orElse a b = Some res -> a = Some res \/ b = Some res.
Proof. destruct a; cbn [orElse]; auto. Qed.

(** A greedy star hands its own capture to the continuation. *)
Lemma starGreedy_from_cont (p : N -> bool) (cap : capture) (k : cont)
      (res : nat * capture) :
  forall s pos,
    starGreedy p pos s cap k = Some res ->
    exists pos' s', k pos' s' cap = Some res.
Proof.
  induction s as [|c s IH]; intros pos H; cbn [starGreedy] in H.
  - now exists pos, [].
  - destruct (p c); [|now exists pos, (c :: s)].
    apply orElse_some in H as [H|H]; [now apply (IH (S pos))|].
    now exists pos, (c :: s).
Qed.

(** The lazy star stops at the first place where the continuation
    succeeds. *)
Lemma starLazy_first (p : N -> bool) (cap : capture) (k : cont)
      (res : nat * capture) :
  forall s pos,
    starLazy p pos s cap k = Some res ->
    exists u v,
      s = u ++ v /\ k (pos + length u) v cap = Some res /\
      (forall u1 u2, u = u1 ++ u2 -> u2 <> [] ->
                     k (pos + length u1) (u2 ++ v) cap = None).
Proof.
  induction s as [|c s IH]; intros pos H.
  - exists [], []. cbn [starLazy] in H.
    destruct (k pos [] cap) as [r|] eqn:E; [|discriminate H].
    cbn [orElse] in H. cbn [length app]. rewrite Nat.add_0_r.
    repeat split; [congruence|].
    intros u1 u2 E12. symmetry in E12.
    apply app_eq_nil in E12 as [_ ->]. congruence.
  - cbn [starLazy] in H.
    destruct (k pos (c :: s) cap) as [r|] eqn:E.
    + cbn [orElse] in H. exists [], (c :: s). cbn [length app].
      rewrite Nat.add_0_r. repeat split; [congruence|].
      intros u1 u2 E12. symmetry in E12.
      apply app_eq_nil in E12 as [_ ->]. congruence.
    + cbn [orElse] in H. destruct (p c); [|discriminate H].
      destruct (IH (S pos) H) as (u & v & -> & Hk & Hfail).
      exists (c :: u), v. cbn [length]. rewrite Nat.add_succ_r.
      repeat split; [exact Hk|].
      intros [|x u1] u2 E12 Hne; cbn [app length] in *.
      * rewrite Nat.add_0_r. now rewrite <- E12.
      * injection E12 as -> ->. rewrite Nat.add_succ_r.
        now apply Hfail.
Qed.

(** A match comes from a success of the continuation. *)
Lemma run_from_cont (r : regex) :
  forall pos s cap k res,
    run r pos s cap k = Some res ->
    exists pos' s' cap', k pos' s' cap' = Some res.
Proof.
  induction r as [p|l|r1 IH1 r2 IH2|r1 IH1 r2 IH2|p|p|r1 IH1|r1 IH1| |r1 IH1];
    intros pos s cap k res H; cbn [run] in H.
  - destruct s as [|c s]; [discriminate H|].
    destruct (p c); [|discriminate H]. now exists (S pos), s, cap.
  - destruct (startsWith l s); [|discriminate H].
    now exists (pos + length l), (skipn (length l) s), cap.
  - apply IH1 in H as (pos1 & s1 & cap1 & H). now apply IH2 in H.
  - apply orElse_some in H as [H|H]; [now apply IH1 in H|now apply IH2 in H].
  - apply starGreedy_from_cont in H as (pos' & s' & H).
    now exists pos', s', cap.
  - apply starLazy_first in H as (u & v & _ & H & _).
    now exists (pos + length u), v, cap.
  - apply orElse_some in H as [H|H]; [now apply IH1 in H|].
    now exists pos, s, cap.
  - apply IH1 in H as (pos1 & s1 & cap1 & H).
    now exists pos1, s1, (Some (firstn (pos1 - pos) s)).
  - destruct (pos =? 0); [|discriminate H]. now exists pos, s, cap.
  - destruct (run r1 pos s cap _) as [[e cap']|]; [|discriminate H].
    now exists pos, s, cap'.
Qed.

Lemma run_Cat_inv (r1 r2 : regex) (pos : nat) (s : jsstring) (cap : capture)
      (k : cont) (res : nat * capture) :
  run (r1 +++ r2) pos s cap k = Some res ->
  exists pos' s' cap', run r2 pos' s' cap' k = Some res.
Proof. rewrite run_Cat. apply run_from_cont. Qed.

Lemma search_inv (r : regex) :
  forall s pos i len cap,
    search r pos s = Some (i, len, cap) ->
    exists pos' s', matchAt r pos' s' = Some (len, cap).
Proof.
  induction s as [|c s IH]; intros pos i len cap H; cbn [search] in H.
  - destruct (matchAt r pos []) as [[l c]|] eqn:E; [|discriminate H].
    injection H as _ <- <-. now exists pos, [].
  - destruct (matchAt r pos (c :: s)) as [[l c']|] eqn:E.
    + injection H as _ <- <-. now exists pos, (c :: s).
    + now apply IH in H.
Qed.

(** [\s*\n] keeps the capture and succeeds at a line feed. *)
Lemma run_R5_capture (pos : nat) (s : jsstring) (cap : capture)
      (e : nat) (c : capture) :
  run R5 pos s cap kf = Some (e, c) -> c = cap.
Proof.
  rewrite run_Cat, run_Star. intros H.
  apply starGreedy_from_cont in H as (pos' & s' & H).
  cbn [run] in H. destruct (startsWith [LF] s'); [|discriminate H].
  now injection H as _ <-.
Qed.

Lemma run_R5_LF (pos : nat) (x : jsstring) (cap : capture) :
  run R5 pos (LF :: x) cap kf <> None.
Proof.
  destruct (run_R5_some cap [] x pos eq_refl) as (e & H).
  cbn [app] in H. rewrite H. discriminate.
Qed.

(** The captured text holds no line feed. *)
Lemma run_R4_line (pos : nat) (s : jsstring) (cap : capture)
      (e : nat) (c : capture) :
  run R4 pos s cap kf = Some (e, c) ->
  exists u, c = Some u /\ ~ In LF u.
Proof.
  intros H.
  change (run R4 pos s cap kf)
    with (starLazy dotAll pos s cap
            (fun pos' s' _ =>
               run R5 pos' s' (Some (firstn (pos' - pos) s)) kf)) in H.
  apply starLazy_first in H as (u & v & -> & Hk & Hfail).
  apply run_R5_capture in Hk.
  replace (pos + length u - pos) with (length u) in Hk by lia.
  rewrite firstn_length_app in Hk.
  exists u. split; [exact Hk|].
  intros Hin. apply in_split in Hin as (u1 & u2 & ->).
  specialize (Hfail u1 (LF :: u2) eq_refl ltac:(discriminate)).
  cbn [app] in Hfail. now apply run_R5_LF in Hfail.
Qed.

Lemma matchAt_projectName_line (pos : nat) (s : jsstring) (len : nat)
      (c : capture) :
  matchAt projectNameRegex pos s = Some (len, c) ->
  exists u, c = Some u /\ ~ In LF u.
Proof.
  unfold matchAt, projectNameRegex. intros H.
  destruct (run _ pos s None kf) as [[e c']|] eqn:E; [|discriminate H].
  injection H as _ <-.
  do 6 (apply run_Cat_inv in E as (? & ? & ? & E)).
  now apply run_R4_line in E.
Qed.

Lemma In_trim (c : N) (t : jsstring) : In c (trim t) -> In c t.
Proof.
  unfold trim, trimStart. intros H. apply In_trimEnd in H.
  destruct (dropWhile_split isWS t) as (v & E & _).
  rewrite E. apply in_or_app. now right.
Qed.

Lemma no_LF (s : jsstring) :
  forallb (fun c => negb (c =? LF)%N) s = true -> ~ In LF s.
Proof.
  intros H Hin. rewrite forallb_forall in H. specialize (H LF Hin).
  discriminate H.
Qed.

End TitleLineFacts.

(* ================================================================== *)
(** * The blocks of checkbox lines and of prefix-only lines            *)
(* ================================================================== *)

Section PinnedLineFacts.

Import Html Notion.




Lemma createTextWithBold_plain (s : jsstring) :
  s <> [] -> includes boldMarker s = false ->
  createTextWithBold s = [{| content := s; bold := false |}].
Proof.
  intros Hne H. unfold createTextWithBold. rewrite (split_absent _ _ H).
  destruct s; [congruence|reflexivity].
Qed.

Lemma createTextWithBold_contents (s : jsstring) :
  concat (map content (createTextWithBold s)) = concat (split boldMarker s).
Proof. apply forEachPart_contents. Qed.


Lemma trim_between (w1 core w2 : jsstring) :
  forallb isWS w1 = true -> forallb isWS w2 = true ->
  trim (w1 ++ core ++ w2) = trim core.
Proof.
  intros H1 H2. induction w1 as [|c w1 IH].
  - cbn [app]. rewrite <- trim_app_trimEnd, (trimEnd_blank _ H2).
    now rewrite app_nil_r.
  - cbn [forallb] in H1. apply andb_true_iff in H1 as [Hc H1].
    cbn [app]. rewrite trim_cons_ws by exact Hc. now apply IH.
Qed.

Lemma trim_single (m : N) : isWS m = false -> trim [m] = [m].
Proof.
  intros H. unfold trim, trimStart. cbn [dropWhile]. rewrite H.
  rewrite trimEnd_cons by exact H. reflexivity.
Qed.

Lemma bullet_not_ws (m : N) : bulletChar m = true -> isWS m = false.
Proof.
  intros H. destruct (isWS m) eqn:E; [|reflexivity].
  apply ws_not_bullet in E. congruence.
Qed.

(** No checkbox in a line of whitespace and one bullet. *)
Lemma bullet_line_no_checkbox (w1 : jsstring) (m : N) (w2 : jsstring) :
  forallb isWS w1 = true -> forallb isWS w2 = true -> bulletChar m = true ->
  includes checkbox (w1 ++ m :: w2) = false.
Proof.
  intros H1 H2 Hm. induction w1 as [|c w1 IH].
  - cbn [app includes]. rewrite (ws_no_checkbox _ H2), orb_false_r.
    apply startsWith_cons_head. apply N.eqb_neq. intros <-. discriminate Hm.
  - cbn [forallb] in H1. apply andb_true_iff in H1 as [Hc H1].
    cbn [app includes]. rewrite (IH H1), orb_false_r.
    apply startsWith_cons_head. apply N.eqb_neq. intros <-. discriminate Hc.
Qed.

(** A bullet alone under the tasks title is the text of a task. *)
Lemma lineBlocks_bullet_task (title w1 : jsstring) (m : N) (w2 : jsstring) :
  forallb isWS w1 = true -> forallb isWS w2 = true -> bulletChar m = true ->
  includes tasksTitle title = true ->
  lineBlocks title (w1 ++ m :: w2)
  = [to_do [{| content := [m]; bold := false |}] false].
Proof.
  intros H1 H2 Hm Ht. unfold lineBlocks, taskBlocks. rewrite Ht.
  assert (E : taskText (w1 ++ m :: w2) = [m]).
  { unfold taskText.
    rewrite replaceFirst_checkbox_absent
      by now apply bullet_line_no_checkbox.
    change (m :: w2) with ([m] ++ w2).
    rewrite (trim_between w1 [m] w2 H1 H2).
    apply trim_single. now apply bullet_not_ws. }
  rewrite E. cbn [truthy]. f_equal. f_equal.
  apply createTextWithBold_plain; [discriminate|].
  cbn [includes startsWith boldMarker].
  now rewrite andb_false_r.
Qed.

(** A checkbox alone under another title is the text of a paragraph. *)
Lemma lineBlocks_checkbox_paragraph (title w1 w2 : jsstring) :
  forallb isWS w1 = true -> forallb isWS w2 = true ->
  includes tasksTitle title = false ->
  lineBlocks title (w1 ++ checkbox ++ w2)
  = [paragraph [{| content := [8226; 32; 91; 32; 93]%N; bold := false |}]].
Proof.
  intros H1 H2 Ht. unfold lineBlocks, paragraphBlocks. rewrite Ht.
  assert (E : cleanedLine (w1 ++ checkbox ++ w2) = checkbox).
  { rewrite cleanedLine_dropBullet. unfold dropBullet, trimStart.
    rewrite (dropWhile_stops isWS w1 (checkbox ++ w2) H1) by reflexivity.
    change (trim (w1 ++ checkbox ++ w2) = checkbox).
    now rewrite (trim_between w1 checkbox w2 H1 H2). }
  rewrite E. reflexivity.
Qed.

(** The gate of a content line, in terms of what is left of it. *)
Lemma lineBlocks_leftover (title line : jsstring) :
  lineBlocks title line
  = if truthy (leftover title line)
    then [if includes tasksTitle title
          then to_do (createTextWithBold (leftover title line)) false
          else paragraph (createTextWithBold
                            ([8226; 32]%N ++ leftover title line))]
    else [].
Proof.
  unfold lineBlocks, taskBlocks, paragraphBlocks, leftover.
  rewrite taskText_dropCheckbox, cleanedLine_dropBullet.
  now destruct (includes tasksTitle title).
Qed.

End PinnedLineFacts.

(* ================================================================== *)
(** * DocumentParser: summary and body                                 *)
(* ================================================================== *)

Section SplitClaims.

(** C1, as the code has it.  A raw document without [---] comes back whole,
    trimmed, as the summary, with an empty body; the split is a total
    function, so no error is signalled. *)
Theorem split_without_delimiter (raw : jsstring) :
  includes delimiter raw = false ->
  splitSummaryAndBody raw = (trim raw, []).
Proof.
  intros H. unfold splitSummaryAndBody, summaryText, rawMarkdown,
    summaryPart, markdownParts.
  now rewrite (split_absent _ _ H).
Qed.

Lemma split_without_delimiter_witness :
  splitSummaryAndBody (str "Reunion semanal")
  = (trim (str "Reunion semanal"), []).
Proof.
  apply (split_without_delimiter (str "Reunion semanal")). reflexivity.
Defined.

(** C1 as stated fails on "Reunion semanal": the summary is not empty and
    the body is not the input. *)
Lemma split_without_delimiter_counterexample :
  includes delimiter (str "Reunion semanal") = false /\
  splitSummaryAndBody (str "Reunion semanal") = (str "Reunion semanal", []) /\
  splitSummaryAndBody (str "Reunion semanal") <> ([], str "Reunion semanal").
Proof. repeat split. vm_compute. discriminate. Qed.

(** C5, as the code has it.  For a summary [S] without [---] and any body
    [B], splitting [S + "\n---\n" + B] gives [S] and [B] trimmed, hence
    [(S, B)] itself when neither has whitespace at its ends. *)
Theorem split_round_trip (S B : jsstring) :
  includes delimiter S = false ->
  splitSummaryAndBody (S ++ LF :: delimiter ++ LF :: B) = (trim S, trim B) /\
  (trim S = S -> trim B = B ->
   splitSummaryAndBody (S ++ LF :: delimiter ++ LF :: B) = (S, B)).
Proof.
  intros H.
  assert (E : splitSummaryAndBody (S ++ LF :: delimiter ++ LF :: B)
              = (trim S, trim B)).
  { unfold splitSummaryAndBody, summaryText, rawMarkdown, summaryPart,
      markdownParts, split.
    rewrite (split_go_summary B S [] H). cbn [hd tl rev app].
    rewrite (join_split delimiter (LF :: B) delimiter_nonempty).
    rewrite trim_snoc_ws by reflexivity.
    now rewrite trim_cons_ws by reflexivity. }
  split; [exact E|]. intros HS HB. now rewrite E, HS, HB.
Qed.

Lemma split_round_trip_witness :
  splitSummaryAndBody (str "Resumen" ++ LF :: delimiter ++ LF :: str "### 1. A")
  = (str "Resumen", str "### 1. A").
Proof.
  apply (proj2 (split_round_trip (str "Resumen") (str "### 1. A") eq_refl));
    reflexivity.
Defined.

(** C5 as stated fails where a blank line stands on each side of the
    delimiter: [S] ends and [B] starts with a line feed, [B] holds no
    [---], and the split gives back neither. *)
Lemma split_round_trip_counterexample :
  let S := str "Resumen" ++ [LF] in
  let B := LF :: str "### 1. A" in
  includes delimiter B = false /\
  splitSummaryAndBody (S ++ LF :: delimiter ++ LF :: B)
  = (str "Resumen", str "### 1. A") /\
  splitSummaryAndBody (S ++ LF :: delimiter ++ LF :: B) <> (S, B) /\
  summaryPart (S ++ LF :: delimiter ++ LF :: B) <> S.
Proof. cbv zeta. repeat split; vm_compute; discriminate. Qed.

End SplitClaims.

(* ================================================================== *)
(** * SessionController                                                *)
(* ================================================================== *)

Section SessionClaims.

Import Service Session.

(** C2, as the code has it.  With an empty or whitespace-only text the
    "Generar Minuta" button is disabled, so a click in [ReadyToGenerate]
    leaves the whole session as it is and surfaces no message; and
    [generateAndSetMinutes] called with such a text sets the message "La
    transcripción no puede estar vacía." and moves the session to [Error],
    without sending a generation request. *)
Theorem blank_submission (gen : outcome) (text : jsstring) (st : state) :
  status st = ReadyToGenerate ->
  trim text = [] ->
  clickGenerate gen (typeText text st) = typeText text st /\
  status (generateAndSetMinutes gen text st) = Error /\
  error (generateAndSetMinutes gen text st) = Some emptyInputMessage /\
  minutes (generateAndSetMinutes gen text st) = minutes st /\
  sent (generateAndSetMinutes gen text st) = sent st.
Proof.
  intros Hst Hblank. split.
  - unfold clickGenerate, generateDisabled.
    cbn [typeText status transcriptionInput].
    now rewrite Hst, Hblank.
  - unfold generateAndSetMinutes. rewrite Hblank. cbn. repeat split.
Qed.

Lemma blank_submission_witness :
  clickGenerate (Responded (Some (str "acta")))
                (typeText (str "  ") (setStatus ReadyToGenerate initial))
  = typeText (str "  ") (setStatus ReadyToGenerate initial).
Proof.
  apply (blank_submission (Responded (Some (str "acta"))) (str "  ")
                          (setStatus ReadyToGenerate initial));
    reflexivity.
Defined.

(** C2 as stated fails on two spaces typed in [ReadyToGenerate]: the click
    surfaces no message, and the handler itself leaves [ReadyToGenerate]. *)
Lemma blank_submission_counterexample :
  let gen := Responded (Some (str "acta")) in
  let st := readyWith (str "  ") in
  status st = ReadyToGenerate /\ trim (transcriptionInput st) = [] /\
  error (clickGenerate gen st) = None /\
  status (generateAndSetMinutes gen (transcriptionInput st) st)
  <> ReadyToGenerate.
Proof. cbv zeta. repeat split. vm_compute. discriminate. Qed.

(** C6.  When the transcription call answers with a text that is undefined,
    empty or whitespace-only, stopping a recording that holds audio ends in
    [Error] with the empty-transcription message, the minutes stay unset,
    and the only request sent is the transcription itself. *)
Theorem empty_transcript_fails
        (st0 : state) (events : list Blob) (text : option jsstring)
        (gen : outcome) :
  audioChunks (recorded st0 events) <> [] ->
  blankText text ->
  let st := recorded st0 events in
  let st' := handleStopRecording (Responded text) gen st in
  status st' = Error /\
  error st' = Some (str "Error: " ++ emptyTranscription) /\
  minutes st' = [] /\
  sent st' = sent st0 ++ [Transcribe (newBlob (audioChunks st))].
Proof.
  intros Hne Hblank st st'. subst st'.
  pose proof (blank_noTranscription text Hblank) as Hno.
  destruct (recorded_frame st0 events) as (_ & Hm & _ & Hr & Hs & _).
  fold st in Hm, Hr, Hs, Hne.
  unfold handleStopRecording. rewrite Hr.
  unfold onstop. cbn [cleanupStreams audioChunks].
  destruct (audioChunks st) as [|c chunks] eqn:E; [congruence|].
  rewrite (emptyTranscription_result _ Hno).
  change (startsWith (str "Error:") (str "Error: " ++ emptyTranscription))
    with true.
  cbn. rewrite Hm, Hs. repeat split.
Qed.

Lemma empty_transcript_fails_witness :
  let st := recorded initial [oneChunk] in
  let st' := handleStopRecording (Responded (Some (str "  "))) ThrewOther st in
  status st' = Error /\
  error st' = Some (str "Error: " ++ emptyTranscription) /\
  minutes st' = [] /\
  sent st' = sent initial ++ [Transcribe (newBlob (audioChunks st))].
Proof.
  apply (empty_transcript_fails initial [oneChunk] (Some (str "  ")) ThrewOther).
  - vm_compute. discriminate.
  - reflexivity.
Defined.

(** C7.  When the recorder stops with no chunk accumulated, the session ends
    in [Error] with the empty-recording message and nothing is sent; and
    whenever every accumulated chunk holds data, as [ondataavailable]
    ensures, a blob handed to the transcription holds data. *)
Theorem empty_recording_fails (tr gen : outcome) (st : state) :
  (audioChunks st = [] ->
   status (onstop tr gen st) = Error /\
   error (onstop tr gen st) = Some emptyRecordingMessage /\
   minutes (onstop tr gen st) = minutes st /\
   sent (onstop tr gen st) = sent st) /\
  (Forall (fun c => 0 < size c) (audioChunks st) ->
   forall b, In (Transcribe b) (sent (onstop tr gen st)) ->
             In (Transcribe b) (sent st) \/ 0 < size b).
Proof.
  split.
  - intros H. unfold onstop. cbn [cleanupStreams audioChunks].
    rewrite H. cbn. repeat split.
  - intros Hall b Hin. unfold onstop in Hin.
    cbn [cleanupStreams audioChunks] in Hin.
    destruct (audioChunks st) as [|c chunks] eqn:E.
    + left. exact Hin.
    + assert (Hsize : 0 < size (newBlob (c :: chunks)))
        by (apply newBlob_size; [discriminate|exact Hall]).
      set (blob := newBlob (c :: chunks)) in *.
      assert (Hgen : forall o t s,
                 In (Transcribe b) (sent (generateAndSetMinutes o t s)) ->
                 In (Transcribe b) (sent s)).
      { intros o t s. unfold generateAndSetMinutes.
        destruct (negb (truthy (trim t))); [now cbn|].
        destruct (generateMinutesFromText o) as [m|];
          [destruct (startsWith (str "Error") m)|]; cbn;
          intros H; apply in_app_or in H as [H|[H|[]]];
          try exact H; discriminate H. }
      destruct (startsWith (str "Error:") (transcribeAudio tr)).
      * cbn in Hin. apply in_app_or in Hin as [H|[H|[]]]; [now left|].
        injection H as <-. now right.
      * apply Hgen in Hin. cbn in Hin.
        apply in_app_or in Hin as [H|[H|[]]]; [now left|].
        injection H as <-. now right.
Qed.

Lemma empty_recording_fails_witness :
  status (onstop ThrewOther ThrewOther (recorded initial [])) = Error /\
  error (onstop ThrewOther ThrewOther (recorded initial []))
  = Some emptyRecordingMessage /\
  minutes (onstop ThrewOther ThrewOther (recorded initial []))
  = minutes (recorded initial []) /\
  sent (onstop ThrewOther ThrewOther (recorded initial []))
  = sent (recorded initial []).
Proof.
  apply (empty_recording_fails ThrewOther ThrewOther (recorded initial [])).
  reflexivity.
Defined.

End SessionClaims.

(* ================================================================== *)
(** * DocumentParser: the title                                        *)
(* ================================================================== *)

Section TitleClaims.

Import Title.

(** C8, as the code has it.  A body without the header of section 1 gives
    "No se especifica" in the Done view (and "Minuta de Reunión" as the title
    of the payload).  Where the first occurrence of the header is followed
    by whitespace with a line feed in it, an optional [*] with whitespace
    after it, a text [core] free of line feeds and of surrounding
    whitespace, and whitespace up to a line feed, the title is [core]. *)
Theorem title_extraction :
  (forall body,
      includes titleHeader body = false ->
      extractTitle body = notSpecified /\ payloadTitle body = defaultTitle)
  /\
  (forall body pre gap star core trail post,
      Cut titleHeader body pre
          (gap ++ leader star ++ core ++ trail ++ LF :: post) ->
      all isWS gap = true -> In LF gap ->
      leaderFits star core ->
      core <> [] -> trim core = core -> ~ In LF core ->
      all isWS trail = true ->
      extractTitle body = core /\ payloadTitle body = core).
Proof.
  split.
  - intros body H. unfold extractTitle, payloadTitle, projectNameRegex.
    now rewrite search_Lit_absent.
  - intros body pre gap star core trail post HC Hgap Hin Hfit Hne Htrim Hlf
           Htrail.
    destruct (matchAt_projectName (0 + length pre) gap star core trail post
                Hgap Hin Hfit Hne Htrim Hlf Htrail) as (len & Hm).
    assert (E : search projectNameRegex 0 body
                = Some (0 + length pre, len, Some core)).
    { unfold projectNameRegex at 1.
      rewrite (search_Lit_Cut _ _ _ _ _ HC).
      fold projectNameRegex. exact (search_here _ _ _ _ _ Hm). }
    unfold extractTitle, payloadTitle. rewrite E. now split.
Qed.

Lemma title_extraction_witness :
  extractTitle (str "### 1. Nombre del proyecto o asunto" ++ [LF]
                    ++ str "* Acme" ++ [LF] ++ str "### 2. Objetivo")
  = str "Acme" /\
  payloadTitle (str "### 1. Nombre del proyecto o asunto" ++ [LF]
                    ++ str "* Acme" ++ [LF] ++ str "### 2. Objetivo")
  = str "Acme".
Proof.
  apply (proj2 title_extraction
               (str "### 1. Nombre del proyecto o asunto" ++ [LF]
                    ++ str "* Acme" ++ [LF] ++ str "### 2. Objetivo")
               [] [LF] (Some (str " ")) (str "Acme") []
               (str "### 2. Objetivo")).
  - apply cut_here.
  - reflexivity.
  - simpl. now left.
  - reflexivity.
  - discriminate.
  - reflexivity.
  - vm_compute. intros [H|[H|[H|[H|[]]]]]; discriminate H.
  - reflexivity.
Defined.

(** C8 as stated fails on a body that ends with the title line: the header
    is there, the first non-empty line beneath it is "Acme", and the result
    is "No se especifica". *)
Lemma title_extraction_counterexample :
  let body := str "### 1. Nombre del proyecto o asunto" ++ [LF] ++ str "Acme" in
  includes titleHeader body = true /\
  split [LF] body = [titleHeader; str "Acme"] /\
  extractTitle body = notSpecified /\
  extractTitle body <> str "Acme".
Proof. cbv zeta. repeat split. vm_compute. discriminate. Qed.

End TitleClaims.

(* ================================================================== *)
(** * OutputRenderer: bold markers                                     *)
(* ================================================================== *)

Section BoldClaims.

Import Html Notion.





End BoldClaims.

(* ================================================================== *)
(** * OutputRenderer: content lines of the block-sequence encoding     *)
(* ================================================================== *)

Section BlockClaims.

Import Html Notion.




Example twoCheckboxes_blocks :
  parseMarkdownToNotionBlocks twoCheckboxes
  = [heading_3 [{| content := str "3. Temas tratados"; bold := false |}];
     paragraph [{| content := bullet ++ str "[ ] x"; bold := false |}];
     heading_3 [{| content := str "5. Compromisos y tareas"; bold := false |}];
     to_do [{| content := str "x"; bold := false |}] false].
Proof. reflexivity. Qed.

(** C10, as the code has it.  What gates a block is the text left of the
    line once the prefix that its own section strips is gone: the first
    checkbox under "Compromisos y tareas", the bullet that opens the line
    elsewhere.  A content line yields no block exactly when that text is
    empty, and otherwise one block whose runs spell it, behind the bullet in
    a paragraph; every block of the output that is no heading comes from a
    content line that is not blank and leaves such a text.  Blank lines
    yield nothing under any title.  A line that holds only a checkbox
    yields nothing under the tasks title and a line that holds only a
    bullet nothing elsewhere; but a bullet alone under the tasks title is a
    task with the bullet as its text, and a checkbox alone elsewhere is a
    paragraph with the checkbox behind the bullet. *)
Theorem residual_gates_blocks :
  (forall title line,
      lineBlocks title line = [] <-> leftover title line = []) /\
  (forall title line,
      leftover title line <> [] ->
      exists rich_text,
        lineBlocks title line
        = [if includes tasksTitle title
           then to_do rich_text false else paragraph rich_text] /\
        concat (map content rich_text)
        = concat (split boldMarker
                        ((if includes tasksTitle title
                          then [] else [8226; 32]%N)
                           ++ leftover title line))) /\
  (forall markdown b,
      In b (parseMarkdownToNotionBlocks markdown) ->
      (exists rich_text, b = heading_3 rich_text) \/
      exists section line0 contentLines line,
        In section (sections markdown) /\
        sectionLines section = line0 :: contentLines /\
        In line contentLines /\
        nonBlank line = true /\
        leftover (titleOf line0) line <> [] /\
        lineBlocks (titleOf line0) line = [b]) /\
  (forall title w, all isWS w = true -> lineBlocks title w = []) /\
  (forall title w1 w2,
      all isWS w1 = true -> all isWS w2 = true ->
      includes tasksTitle title = true ->
      lineBlocks title (w1 ++ checkbox ++ w2) = []) /\
  (forall title w1 m w2,
      all isWS w1 = true -> all isWS w2 = true ->
      bulletChar m = true ->
      includes tasksTitle title = false ->
      lineBlocks title (w1 ++ m :: w2) = []) /\
  (forall title w1 m w2,
      all isWS w1 = true -> all isWS w2 = true ->
      bulletChar m = true ->
      includes tasksTitle title = true ->
      lineBlocks title (w1 ++ m :: w2)
      = [to_do [{| content := [m]; bold := false |}] false]) /\
  (forall title w1 w2,
      all isWS w1 = true -> all isWS w2 = true ->
      includes tasksTitle title = false ->
      lineBlocks title (w1 ++ checkbox ++ w2)
      = [paragraph [{| content := [8226; 32; 91; 32; 93]%N;
                       bold := false |}]]).
Proof.
  split; [|split; [|split; [|split; [|split; [|split; [|split]]]]]].
  - intros title line. rewrite lineBlocks_leftover.
    destruct (leftover title line); cbn [truthy]; split; congruence.
  - intros title line Hne. rewrite lineBlocks_leftover.
    destruct (leftover title line) as [|c t] eqn:E; [congruence|].
    cbn [truthy]. destruct (includes tasksTitle title).
    + eexists. split; [reflexivity|apply createTextWithBold_contents].
    + eexists. split; [reflexivity|apply createTextWithBold_contents].
  - intros markdown b H.
    apply parse_block_origin in H
      as [(line0 & ->)|(section & line0 & contentLines & line
                        & Hsec & Hlines & Hline & Hb)].
    + left. now eexists.
    + right. exists section, line0, contentLines, line.
      repeat (split; [assumption|]).
      destruct (lineBlocks_kind _ _ _ Hb) as [E _].
      split; [|split; [|exact E]].
      * apply (sectionLines_nonBlank section). rewrite Hlines. now right.
      * intros F. rewrite lineBlocks_leftover, F in E. discriminate E.
  - intros title w Hw. now apply lineBlocks_blank.
  - intros title w1 w2 H1 H2 Ht. now apply lineBlocks_checkbox_only.
  - intros title w1 m w2 H1 H2 Hm Ht. now apply lineBlocks_bullet_only.
  - intros title w1 m w2 H1 H2 Hm Ht. now apply lineBlocks_bullet_task.
  - intros title w1 w2 H1 H2 Ht. now apply lineBlocks_checkbox_paragraph.
Qed.

Lemma residual_gates_blocks_witness :
  lineBlocks (str "5. Compromisos y tareas") (str "  " ++ checkbox ++ str " ")
  = [].
Proof.
  apply (proj1 (proj2 (proj2 (proj2 (proj2 residual_gates_blocks))))
               (str "5. Compromisos y tareas") (str "  ") (str " "));
    reflexivity.
Defined.

(** C10 as stated fails on prefix-only lines under the other kind of
    section.  Once its bullet is stripped nothing is left of [-], and yet
    under "Compromisos y tareas" it is emitted as a task; nothing is left
    of [[ ]] without its checkbox, and yet under another title it is
    emitted as a paragraph. *)
Lemma residual_gates_blocks_counterexample :
  residual (str "-") = [] /\
  parseMarkdownToNotionBlocks
    (str "### 5. Compromisos y tareas" ++ [LF] ++ str "-")
  = [heading_3 [{| content := str "5. Compromisos y tareas";
                   bold := false |}];
     to_do [{| content := str "-"; bold := false |}] false] /\
  residual (str "[ ]") = [] /\
  parseMarkdownToNotionBlocks
    (str "### 3. Temas tratados" ++ [LF] ++ str "[ ]")
  = [heading_3 [{| content := str "3. Temas tratados"; bold := false |}];
     paragraph [{| content := [8226; 32]%N ++ str "[ ]";
                   bold := false |}]].
Proof. repeat split. Qed.

End BlockClaims.

(* ================================================================== *)
(** * OutputRenderer: the headings of the two encodings                *)
(* ================================================================== *)

Section HeadingClaims.

Import Html Notion.

(** C3, as the code has it.  Take a body made of sections, each a header
    line [### title] with a title that is not blank, followed by its content
    lines, where no title and no content line holds [###] or a line feed.
    The hypertext is the rendering of its elements; its heading elements
    are what the loop makes of the header lines, one per section and in
    their order; the heading blocks are what the block encoder makes of the
    same header lines, in the same order; so the two have the same
    number. *)
Theorem headings_agree (doc : list docSection) :
  wellFormed doc = true ->
  markdownToHtml (bodyOf doc) = render (htmlElements (bodyOf doc)) /\
  headings (htmlElements (bodyOf doc)) = map htmlHeadingOf (map fst doc) /\
  headingBlocks (parseMarkdownToNotionBlocks (bodyOf doc))
  = map blockHeadingOf (map fst doc) /\
  length (headings (htmlElements (bodyOf doc)))
  = length (headingBlocks (parseMarkdownToNotionBlocks (bodyOf doc))).
Proof.
  intros H. split; [apply markdownToHtml_elements|].
  pose proof (html_headings_doc doc H) as E1.
  pose proof (block_headings_doc doc H) as E2.
  split; [exact E1|]. split; [exact E2|].
  now rewrite E1, E2, !length_map.
Qed.

Lemma headings_agree_witness :
  let doc := [(str "1. Titulo", [str "Acme"]);
              (str "5. Compromisos y tareas", [str "[ ] Buy **milk**"; []])] in
  markdownToHtml (bodyOf doc) = render (htmlElements (bodyOf doc)) /\
  headings (htmlElements (bodyOf doc)) = map htmlHeadingOf (map fst doc) /\
  headingBlocks (parseMarkdownToNotionBlocks (bodyOf doc))
  = map blockHeadingOf (map fst doc) /\
  length (headings (htmlElements (bodyOf doc)))
  = length (headingBlocks (parseMarkdownToNotionBlocks (bodyOf doc))).
Proof.
  apply (headings_agree
           [(str "1. Titulo", [str "Acme"]);
            (str "5. Compromisos y tareas", [str "[ ] Buy **milk**"; []])]).
  reflexivity.
Defined.

(** C3 as stated fails on a body whose second line holds [###] and a space
    in its middle: the hypertext has one heading, the block sequence two. *)
Lemma headings_agree_counterexample :
  let body := str "### 1. A" ++ [LF] ++ str "x ### y" in
  htmlElements body = [H3 (str "1. A"); P (str "x ### y")] /\
  headings (htmlElements body) = [str "1. A"] /\
  headingBlocks (parseMarkdownToNotionBlocks body)
  = [[{| content := str "1. A"; bold := false |}];
     [{| content := str "y"; bold := false |}]] /\
  length (headings (htmlElements body))
  <> length (headingBlocks (parseMarkdownToNotionBlocks body)).
Proof. cbv zeta. repeat split. vm_compute. discriminate. Qed.

(** The same on a body without any header: its only line is a paragraph in
    the hypertext and a heading in the block sequence. *)
Example headings_without_header :
  htmlElements (str "hello") = [P (str "hello")] /\
  parseMarkdownToNotionBlocks (str "hello")
  = [heading_3 [{| content := str "hello"; bold := false |}]].
Proof. split; reflexivity. Qed.

End HeadingClaims.

(* ================================================================== *)
(** * Further properties: summary and body                             *)
(* ================================================================== *)

Section ParserExtras.

(** X1.  The first [---] wins: a document is split at its leftmost
    occurrence of the delimiter, whatever follows; the text before it,
    trimmed, is the summary, and all the text after it, later delimiters
    included, trimmed, is the body.  Without a delimiter the document is all
    summary. *)
Theorem split_at_first_delimiter (minutes : jsstring) :
  (includes delimiter minutes = false /\
   splitSummaryAndBody minutes = (trim minutes, [])) \/
  (exists a b,
      minutes = a ++ delimiter ++ b /\
      includes delimiter a = false /\
      splitSummaryAndBody minutes = (trim a, trim b)).
Proof. apply splitSummaryAndBody_cases. Qed.

(** X2.  Neither the summary nor the body of a document carries whitespace
    at its ends, and splitting never makes the text longer: summary and body
    together are no longer than the document. *)
Theorem split_parts_trimmed (minutes : jsstring) :
  trim (fst (splitSummaryAndBody minutes)) = fst (splitSummaryAndBody minutes)
  /\
  trim (snd (splitSummaryAndBody minutes)) = snd (splitSummaryAndBody minutes)
  /\
  length (fst (splitSummaryAndBody minutes))
  + length (snd (splitSummaryAndBody minutes)) <= length minutes.
Proof.
  assert (Hlen : forall s, length (trim s) <= length s).
  { intros s. unfold trim, trimStart.
    etransitivity; [apply trimEnd_length|apply dropWhile_length]. }
  cbn [fst snd splitSummaryAndBody]. unfold summaryText, rawMarkdown.
  rewrite !trim_idem. repeat split.
  destruct (splitSummaryAndBody_cases minutes)
    as [(_ & E)|(a & b & Em & _ & E)];
    unfold splitSummaryAndBody, summaryText, rawMarkdown in E;
    injection E as E1 E2; rewrite E1, E2.
  - cbn [length]. rewrite Nat.add_0_r. apply Hlen.
  - rewrite Em, !length_app.
    pose proof (Hlen a). pose proof (Hlen b). lia.
Qed.

End ParserExtras.

(* ================================================================== *)
(** * Further properties: bold markers                                 *)
(* ================================================================== *)

Section BoldExtras.

Import Html Notion.

(** X3.  The runs of [createTextWithBold] lose nothing but the markers:
    their contents, in order, make up the text with every [**] taken out;
    no run is empty and none holds a marker; and a text without marker is
    one plain run, or no run when it is empty. *)
Theorem rich_text_runs (text : jsstring) :
  concat (map content (createTextWithBold text))
  = concat (split boldMarker text) /\
  Forall (fun run => content run <> [] /\
                     includes boldMarker (content run) = false)
         (createTextWithBold text) /\
  length (concat (map content (createTextWithBold text))) <= length text /\
  (includes boldMarker text = false ->
   createTextWithBold text
   = if truthy text then [{| content := text; bold := false |}] else []).
Proof.
  unfold createTextWithBold. split; [apply forEachPart_contents|].
  split; [|split].
  - apply (forEachPart_runs (fun piece => includes boldMarker piece = false)).
    apply (split_pieces_free boldMarker boldMarker_nonempty (length text)).
    apply le_n.
  - rewrite forEachPart_contents.
    apply (concat_split_length boldMarker boldMarker_nonempty (length text)).
    apply le_n.
  - intros H. rewrite (split_absent _ _ H). cbn [forEachPart].
    now rewrite app_nil_r.
Qed.

(** X4.  On a line without line terminators the bold replacement of the
    hypertext is given by the pieces between the markers, paired from the
    left: each marker that has a later one opens a [<strong>] element that
    the next marker closes, and an unpaired last marker stays in the text.
    A line without marker is left as it is. *)
Theorem bold_by_pieces (line : jsstring) :
  all dot line = true ->
  replaceAll boldRe strong line = paired (split boldMarker line) /\
  (includes boldMarker line = false -> replaceAll boldRe strong line = line).
Proof.
  intros H. split.
  - apply (replaceAll_bold_paired (length line) line 0 (le_n _) H).
  - intros Habs. now apply replaceAll_bold_absent.
Qed.

Lemma bold_by_pieces_witness :
  replaceAll boldRe strong (str "**Fecha:** 2024 **Hora:** 10")
  = paired (split boldMarker (str "**Fecha:** 2024 **Hora:** 10")).
Proof.
  apply (bold_by_pieces (str "**Fecha:** 2024 **Hora:** 10")). reflexivity.
Defined.

End BoldExtras.

(* ================================================================== *)
(** * Further properties: the hypertext                                *)
(* ================================================================== *)

Section HtmlExtras.

Import Html.

(** X5.  The tags that [markdownToHtml] itself writes are well nested.
    The string it returns is the concatenation of the fragments that its
    loop appends, one per [html += ...]; read as elements, these fragments
    put every list item in a list and every heading and paragraph outside,
    never open a list inside a list or leave one empty, and close every
    list by the end.  The text of a line is copied into its fragment as it
    is: tags that the input holds itself are not part of this property. *)
Theorem html_lists_balanced (markdownText : jsstring) :
  markdownToHtml markdownText = render (htmlElements markdownText) /\
  nesting Outside (htmlElements markdownText) = Some Outside.
Proof.
  split; [apply markdownToHtml_elements|apply nesting_htmlElements].
Qed.

(** X6.  Every line that is not blank gives exactly one heading, list item
    or paragraph and a blank line gives none; so the hypertext is the empty
    string exactly for a blank text. *)
Theorem html_one_element_per_line (markdownText : jsstring) :
  length (filter isContent (htmlElements markdownText))
  = length (filter nonBlank (split [LF] markdownText)) /\
  (markdownToHtml markdownText = [] <-> nonBlank markdownText = false).
Proof.
  split; [apply contents_htmlElements|apply markdownToHtml_blank].
Qed.

(** X7.  A line that, trimmed, opens with one of the markers [*], [-] and
    [[ ]] followed by whitespace becomes a list item: the list is opened
    unless one is open, and the item holds the text behind the marker and
    the whitespace after it, with the bold replacement applied; the marker
    itself is dropped, a checkbox like a bullet. *)
Theorem html_list_item (st : state) (line m w : jsstring) (c : N)
        (rest : jsstring) :
  In m listMarkers -> w <> [] -> forallb isWS w = true -> isWS c = false ->
  trim line = m ++ w ++ c :: rest ->
  step st line
  = emit (openList st)
         (str "<li>" ++ replaceAll boldRe strong (c :: rest)
              ++ str "</li>" ++ [LF]).
Proof.
  intros Hm Hne Hw Hc Hline.
  destruct w as [|w0 w]; [congruence|]. clear Hne.
  pose proof Hw as Hw'. cbn [forallb] in Hw'.
  apply andb_true_iff in Hw' as [Hw0 _].
  destruct (marker_head m Hm) as (m0 & mr & Em & Hm0 & Hsharp & _ & Hbold).
  set (B := replaceAll boldRe strong (c :: rest)).
  assert (HB : stops isWS B) by now apply replaceAll_bold_head.
  assert (Ep : replaceAll boldRe strong (trim line) = m ++ (w0 :: w) ++ B).
  { rewrite Hline.
    change ((w0 :: w) ++ c :: rest) with (w0 :: (w ++ c :: rest)).
    rewrite (Hbold w0 _ Hw0).
    change (w0 :: w ++ c :: rest) with ((w0 :: w) ++ c :: rest).
    now rewrite (replaceAll_bold_ws (w0 :: w)). }
  unfold step. rewrite Ep.
  replace (truthy (trim line)) with true by (now rewrite Hline, Em).
  cbn [negb].
  replace (startsWith headerPrefix (m ++ (w0 :: w) ++ B)) with false.
  2:{ rewrite Em. cbn [app startsWith headerPrefix].
      destruct (N.eqb_spec 35 m0); [congruence|reflexivity]. }
  assert (Et : matchAt listItemRe 0 (m ++ (w0 :: w) ++ B)
               = Some (length m + 1, Some m)).
  { unfold matchAt, listItemRe.
    rewrite run_Cat, run_Bos, run_Cat, run_Star.
    rewrite starGreedy_stops by (rewrite Em; exact Hm0).
    rewrite run_Cat, (run_marker m 0 _ None _ Hm).
    cbn [app]. rewrite run_Chr_ok by exact Hw0.
    do 2 f_equal. lia. }
  assert (Er : matchAt listMarkerRe 0 (m ++ (w0 :: w) ++ B)
               = Some (length m + length (w0 :: w), Some m)).
  { unfold matchAt, listMarkerRe.
    rewrite run_Cat, run_Bos, run_Cat, run_Star.
    rewrite starGreedy_stops by (rewrite Em; exact Hm0).
    rewrite run_Cat, (run_marker m 0 _ None _ Hm).
    rewrite run_Star, starGreedy_final.
    rewrite (dropWhile_stops isWS _ _ Hw HB), length_app.
    do 2 f_equal. lia. }
  unfold test. unfold listItemRe at 1. rewrite search_Bos. fold listItemRe.
  rewrite Et. unfold replaceFirst. unfold listMarkerRe at 1.
  rewrite search_Bos. fold listMarkerRe. rewrite Er.
  cbn [firstn empty Nat.add].
  rewrite (app_assoc m), <- length_app, skipn_app, skipn_all, Nat.sub_diag.
  reflexivity.
Qed.

Lemma html_list_item_witness :
  step {| html := []; inList := false |} (str "- [ ] **Ana:** enviar acta")
  = {| html := str "<ul>" ++ [LF]
               ++ str "<li>[ ] <strong>Ana:</strong> enviar acta</li>"
               ++ [LF];
       inList := true |}.
Proof.
  apply (html_list_item {| html := []; inList := false |}
           (str "- [ ] **Ana:** enviar acta") (str "-") [32%N] 91%N
           (str " ] **Ana:** enviar acta"));
    [right; left; reflexivity|discriminate|reflexivity..].
Defined.

(** X22.  A line that is not a heading and not a list item becomes a
    paragraph that holds its trimmed text as it is: when the trimmed line
    starts with none of [#], [*], [-] and [[] and holds no [**], it is
    copied between [<p>] and [</p>], markup characters included, and an
    open list is closed first. *)
Theorem html_paragraph_verbatim (st : state) (line : jsstring) (c : N)
        (rest : jsstring) :
  trim line = c :: rest ->
  c <> 35%N -> c <> 42%N -> c <> 45%N -> c <> 91%N ->
  includes Notion.boldMarker rest = false ->
  step st line
  = emit (closeList st) (str "<p>" ++ c :: rest ++ str "</p>" ++ [LF]).
Proof.
  intros Hline H35 H42 H45 H91 Hb.
  assert (Hc : isWS c = false).
  { apply (trim_fixed_head (c :: rest)); [discriminate|].
    rewrite <- Hline. apply trim_idem. }
  assert (Hne : forall x p, x <> c -> startsWith (x :: p) (c :: rest) = false).
  { intros x p Hx. apply startsWith_cons_head. now apply N.eqb_neq. }
  assert (Eb : replaceAll boldRe strong (c :: rest) = c :: rest).
  { apply replaceAll_bold_absent. cbn [includes].
    rewrite Hb, orb_false_r. apply Hne. congruence. }
  unfold step. rewrite Hline, Eb. cbn [truthy negb].
  replace (startsWith headerPrefix (c :: rest)) with false
    by (symmetry; apply Hne; congruence).
  replace (test listItemRe (c :: rest)) with false; [reflexivity|].
  symmetry. unfold test. unfold listItemRe at 1. rewrite search_Bos.
  fold listItemRe.
  replace (matchAt listItemRe 0 (c :: rest)) with (@None (nat * capture));
    [reflexivity|].
  symmetry. unfold matchAt, listItemRe.
  rewrite run_Cat, run_Bos, run_Cat, run_Star.
  rewrite starGreedy_stops by exact Hc.
  rewrite run_Cat. unfold marker. cbn [run].
  change (str "*") with [42%N]. change (str "-") with [45%N].
  change (str "[ ]") with [91%N; 32%N; 93%N].
  rewrite !Hne by congruence. reflexivity.
Qed.

Lemma html_paragraph_verbatim_witness :
  step {| html := []; inList := true |} (str "  <b>hola</b> & adios ")
  = {| html := str "</ul>" ++ [LF] ++ str "<p><b>hola</b> & adios</p>"
                   ++ [LF];
       inList := false |}.
Proof.
  apply (html_paragraph_verbatim {| html := []; inList := true |}
           (str "  <b>hola</b> & adios ") 60%N (str "b>hola</b> & adios"));
    [reflexivity|discriminate..|reflexivity].
Defined.

End HtmlExtras.

(* ================================================================== *)
(** * Further properties: sections and blocks                          *)
(* ================================================================== *)

Section BlockExtras.

Import Html Notion.

(** X8.  The split at [/(?=###\s)/] cuts the text and loses nothing: the
    pieces in order make up the text again, every piece after the first
    starts with [###] and a whitespace, and no piece is empty unless the
    text is. *)
Theorem section_pieces (markdown : jsstring) :
  concat (splitRe sectionRe markdown) = markdown /\
  Forall (fun piece => marked piece = true)
         (tl (splitRe sectionRe markdown)) /\
  (splitRe sectionRe markdown = [[]] \/
   Forall (fun piece => truthy piece = true) (splitRe sectionRe markdown)).
Proof.
  split; [apply concat_splitRe|].
  destruct markdown as [|c s].
  - split; [constructor|now left].
  - unfold splitRe. split; [apply splitRe_go_tail_marked|].
    right. apply splitRe_go_nonempty. now right.
Qed.

(** X9.  The block sequence is empty exactly for a blank text: any text
    with a code unit that is not whitespace gives a block, with or without
    a [###] header. *)
Theorem blocks_empty_iff_blank (markdown : jsstring) :
  parseMarkdownToNotionBlocks markdown = [] <-> nonBlank markdown = false.
Proof. apply blocks_nil_blank. Qed.

(** X10.  Every section that is not blank gives exactly one heading block,
    made of its first line that is not blank, and the block sequence of a
    text that is not blank starts with a heading. *)
Theorem one_heading_per_section (markdown : jsstring) :
  length (headingBlocks (parseMarkdownToNotionBlocks markdown))
  = length (sections markdown) /\
  (parseMarkdownToNotionBlocks markdown = [] \/
   exists section rest line0 contentLines blocks,
     sections markdown = section :: rest /\
     sectionLines section = line0 :: contentLines /\
     parseMarkdownToNotionBlocks markdown
     = heading_3 (createTextWithBold (titleOf line0)) :: blocks).
Proof.
  unfold parseMarkdownToNotionBlocks.
  pose proof (sections_all_nonBlank markdown) as H.
  split; [now apply headingBlocks_sections|].
  destruct (sections markdown) as [|sec secs]; [now left|].
  inversion H as [|x l Hsec _]; subst. right.
  destruct (sectionBlocks_heading sec Hsec) as (l0 & ls & El & E).
  exists sec, secs, l0, ls. eexists. split; [reflexivity|].
  split; [exact El|]. cbn [flat_map]. rewrite E. reflexivity.
Qed.

(** X11.  In every block of every block sequence no rich-text run is empty
    and none holds a [**]; every task block is unchecked; and every
    paragraph opens with a run that is not bold and starts with the bullet
    and a space. *)
Theorem blocks_shape (markdown : jsstring) :
  Forall (fun b => cleanRuns (richTextOf b) /\ blockShape b)
         (parseMarkdownToNotionBlocks markdown).
Proof.
  unfold parseMarkdownToNotionBlocks.
  induction (sections markdown) as [|sec secs IH]; [constructor|].
  cbn [flat_map]. apply Forall_app. split; [apply sectionBlocks_shape|exact IH].
Qed.

End BlockExtras.

Section ContentLineExtras.

Import Html Notion.

(** X24.  What a content line becomes, without the patterns.  Under a
    title that contains "Compromisos y tareas" the first [[ ]] of the line,
    wherever it stands, goes with the whitespace behind it, and what is
    left, trimmed, is the text of one unchecked task, checkbox or not;
    under any other title only a [*] or [-] that opens the line goes, and
    what is left, trimmed, follows the bullet in one paragraph.  A line
    with nothing left gives no block. *)
Theorem content_line_blocks (title line : jsstring) :
  lineBlocks title line
  = if includes tasksTitle title
    then
      if truthy (trim (dropCheckbox line))
      then [to_do (createTextWithBold (trim (dropCheckbox line))) false]
      else []
    else
      if truthy (trim (dropBullet line))
      then [paragraph (createTextWithBold
                         (bullet ++ trim (dropBullet line)))]
      else [].
Proof.
  unfold lineBlocks, taskBlocks, paragraphBlocks.
  now rewrite taskText_dropCheckbox, cleanedLine_dropBullet.
Qed.

End ContentLineExtras.

(* ================================================================== *)
(** * Further properties: the session and its events                   *)
(* ================================================================== *)

Section SessionExtras.

Import Service Session Events.

(** X12.  Whatever the user and the environment do, event after event,
    every request that leaves the component is sound: a transcription
    request carries audio that is not empty and a generation request a
    transcript that is not blank. *)
Theorem requests_sound (events : list event) :
  Forall (fun r => match r with
                   | Transcribe audioBlob => 0 < size audioBlob
                   | Generate transcription =>
                       trim transcription <> []
                   end)
         (sent (session (run events))).
Proof.
  destruct (coherent_run events) as (_ & _ & _ & _ & _ & H & _).
  rewrite forallb_forall in H. apply Forall_forall. intros r Hr.
  specialize (H r Hr). destruct r as [b|t]; cbn [sound] in H.
  - now apply Nat.ltb_lt.
  - unfold nonBlank in H. intros F. now rewrite F in H.
Qed.

(** X13.  After any sequence of events, each handled to its end: in the
    [Error] status an error message is set; minutes that are not empty are
    held in the [Done] status only; the timer runs, and the recorder
    records, in the [Recording] status only; no chunk kept is empty; and
    in the [Done] status the last request sent was a generation request. *)
Theorem session_coherent (events : list event) :
  let st := session (run events) in
  (status st = Error -> error st <> None) /\
  (minutes st <> [] -> status st = Done) /\
  (timerInterval st = true -> status st = Recording) /\
  (mediaRecorder st = Some recording -> status st = Recording) /\
  Forall (fun c => 0 < size c) (audioChunks st) /\
  (status st = Done ->
   exists earlier transcription,
     sent st = earlier ++ [Generate transcription]).
Proof.
  cbv zeta.
  destruct (coherent_run events) as (H1 & H2 & H3 & H4 & H5 & _ & H7).
  repeat split; assumption.
Qed.

(** X14.  Whatever is written to the clipboard in a session is tidy: every
    text written has no whitespace at its ends, and the hypertext that
    "Copiar con Formato" writes is never empty. *)
Theorem clipboard_tidy (events : list event) :
  Forall tidy (clipboard (run events)).
Proof. apply tidy_fold. constructor. Qed.

End SessionExtras.

Section ServiceExtras.

Import Service Session.

(** X19.  A transcription call that fails is not always a failure of the
    session.  [onstop] stops at [Error] only for a result that starts with
    ["Error:"]: a response without text, a thrown [Error] whose message
    holds "La transcripción resultó vacía", or a transcript that itself
    starts so.  Any other thrown [Error] and any rejection that is not an
    [Error] gives a text that does not start with ["Error:"], and that text
    is sent on to the generation call as if it were the transcript. *)
Theorem transcription_failure_forwarded
        (tr gen : outcome) (st : state) :
  audioChunks st <> [] ->
  startsWith (str "Error:") (transcribeAudio tr)
  = match tr with
    | Responded text =>
        noTranscription text || startsWith (str "Error:") (capText text)
    | ThrewError message => includes emptyMarker message
    | ThrewOther => false
    end /\
  sent (onstop tr gen st)
  = sent st ++ Transcribe (newBlob (audioChunks st))
      :: (if startsWith (str "Error:") (transcribeAudio tr) then []
          else [Generate (transcribeAudio tr)]).
Proof.
  intros Hne. split.
  - destruct tr as [text|m|]; cbn [transcribeAudio].
    + destruct (noTranscription text); reflexivity.
    + unfold transcribeCatch. destruct (includes emptyMarker m); reflexivity.
    + reflexivity.
  - unfold onstop. cbn [cleanupStreams audioChunks].
    destruct (audioChunks st) as [|c chunks] eqn:E; [congruence|].
    destruct (startsWith (str "Error:") (transcribeAudio tr)) eqn:Es.
    + reflexivity.
    + unfold generateAndSetMinutes.
      assert (Ht : truthy (trim (transcribeAudio tr)) = true).
      { destruct tr as [text|m|]; cbn [transcribeAudio] in *.
        - destruct (noTranscription text) eqn:En; [discriminate Es|].
          destruct text as [t|]; [|discriminate En].
          cbn [noTranscription capText] in *.
          apply orb_false_iff in En as [_ En].
          now apply negb_false_iff in En.
        - unfold transcribeCatch in *.
          destruct (includes emptyMarker m); [discriminate Es|].
          apply (nonBlank_cons 69%N). reflexivity.
        - apply (nonBlank_cons 79%N). reflexivity. }
      rewrite Ht. cbn [negb].
      destruct (generateMinutesFromText gen) as [r|];
        [destruct (startsWith (str "Error") r)|]; cbn;
        now rewrite <- app_assoc.
Qed.

Lemma transcription_failure_forwarded_witness :
  let tr := ThrewError (str "503") in
  let st := recorded initial [oneChunk] in
  startsWith (str "Error:") (transcribeAudio tr)
  = includes emptyMarker (str "503") /\
  sent (onstop tr (Responded (Some (str "acta"))) st)
  = sent st ++ Transcribe (newBlob (audioChunks st))
      :: (if startsWith (str "Error:") (transcribeAudio tr) then []
          else [Generate (transcribeAudio tr)]).
Proof.
  apply (transcription_failure_forwarded
           (ThrewError (str "503")) (Responded (Some (str "acta")))
           (recorded initial [oneChunk])).
  vm_compute. discriminate.
Defined.

(** X20.  With a transcript that is not blank, [generateAndSetMinutes]
    sends one generation request and ends by what the result starts with:
    a result that starts with ["Error"], a model answer included, is shown
    as the error; any other result becomes the minutes in [Done], the
    apology for a rejection that is not an [Error] included; and a
    response without text leaves the session in [Generating]. *)
Theorem generation_verdict (o : outcome) (transcription : jsstring)
        (st : state) :
  trim transcription <> [] ->
  let st' := generateAndSetMinutes o transcription st in
  sent st' = sent st ++ [Generate transcription] /\
  match generateMinutesFromText o with
  | Some minutesResult =>
      if startsWith (str "Error") minutesResult
      then status st' = Error /\ error st' = Some minutesResult /\
           minutes st' = minutes st
      else status st' = Done /\ minutes st' = minutesResult /\
           error st' = error st
  | None =>
      status st' = Generating /\ minutes st' = minutes st /\
      error st' = error st
  end /\
  (forall message,
      startsWith (str "Error")
                 (capText (generateMinutesFromText (ThrewError message)))
      = true) /\
  startsWith (str "Error") (capText (generateMinutesFromText ThrewOther))
  = false.
Proof.
  intros Ht. cbv zeta. unfold generateAndSetMinutes.
  destruct (trim transcription) as [|c t]; [congruence|]. cbn [truthy negb].
  split; [|split; [|split; [intros m|]; reflexivity]].
  - destruct (generateMinutesFromText o) as [r|];
      [destruct (startsWith (str "Error") r)|]; reflexivity.
  - destruct (generateMinutesFromText o) as [r|];
      [destruct (startsWith (str "Error") r)|]; repeat split.
Qed.

Lemma generation_verdict_witness :
  trim (str "hola") <> [] /\
  status (generateAndSetMinutes ThrewOther (str "hola") initial) = Done.
Proof.
  assert (H : trim (str "hola") <> []) by (vm_compute; discriminate).
  split; [exact H|].
  apply (generation_verdict ThrewOther (str "hola") initial H).
Defined.

End ServiceExtras.


(* ================================================================== *)
(** * Further properties: the title                                    *)
(* ================================================================== *)

Section TitleExtras.

Import Title.

(** X23.  The project name is always one line without whitespace at its
    ends: whatever the body, the name that the Done view shows and the
    title of the webhook payload hold no line feed; the two are the same
    text when the pattern matches and the two fallbacks when it does not. *)
Theorem title_single_line (rawMarkdown : jsstring) :
  ~ In LF (extractTitle rawMarkdown) /\
  ~ In LF (payloadTitle rawMarkdown) /\
  trim (extractTitle rawMarkdown) = extractTitle rawMarkdown /\
  (payloadTitle rawMarkdown = extractTitle rawMarkdown \/
   (extractTitle rawMarkdown = notSpecified /\
    payloadTitle rawMarkdown = defaultTitle)).
Proof.
  pose proof (extractTitle_trimmed rawMarkdown) as Ht.
  unfold extractTitle, payloadTitle in *.
  destruct (search projectNameRegex 0 rawMarkdown) as [[[i len] cap]|] eqn:E.
  - apply search_inv in E as (pos & s & E).
    apply matchAt_projectName_line in E as (u & -> & Hu).
    cbn [capText]. repeat split; try (intros H; apply In_trim in H; tauto).
    + exact Ht.
    + now left.
  - repeat split; try (apply no_LF; reflexivity).
    right. now split.
Qed.

End TitleExtras.

(* ================================================================== *)
(** * Further properties: the views                                    *)
(* ================================================================== *)

Section ViewExtras.

Import Display.

(** X15.  The recording time is shown as minutes and seconds of two digits
    each, with a colon between; from one hour on the hours come first, in
    two digits or more, and the minutes are those of the running hour. *)
Theorem format_time_fields (seconds : nat) :
  formatTime seconds
  = (if seconds <? 3600 then []
     else padStart 2 48%N (toString (seconds / 3600)) ++ str ":")
    ++ twoDigits ((seconds mod 3600) / 60) ++ str ":"
    ++ twoDigits (seconds mod 60).
Proof. apply formatTime_fields. Qed.

(** X25.  The display tells the times apart: two recording times that
    are shown alike are the same number of seconds. *)
Theorem format_time_injective (a b : nat) :
  formatTime a = formatTime b -> a = b.
Proof.
  rewrite !formatTime_fields. intros H.
  apply app_inv_length_tail in H as [Hh Ht]; [|reflexivity].
  apply fields_inj in Ht as [Hm Hs].
  apply time_of_fields; [|exact Hm|exact Hs].
  destruct (Nat.ltb_spec a 3600) as [La|La],
           (Nat.ltb_spec b 3600) as [Lb|Lb].
  - now rewrite !Nat.div_small.
  - destruct (padStart 2 48%N (toString (b / 3600))); discriminate Hh.
  - destruct (padStart 2 48%N (toString (a / 3600))); discriminate Hh.
  - apply app_inv_tail in Hh. now apply hours_inj.
Qed.

Lemma format_time_injective_witness :
  formatTime (60 + 15) = str "01:15" /\ 60 + 15 = 75.
Proof.
  split; [reflexivity|].
  apply (format_time_injective (60 + 15) 75). reflexivity.
Defined.

End ViewExtras.

Section DoneViewExtras.

Import Display Clipboard Webhook.

(** X16.  The Done view shows the body from the first
    ["### 2. Objetivo de la reunión"] on, and the whole body when that
    header is absent; what it leaves out is the text before the header. *)
Theorem rest_of_markdown (rawMarkdown : jsstring) :
  (includes objectiveHeader rawMarkdown = false /\
   restOfMarkdown rawMarkdown = rawMarkdown) \/
  (exists a b,
      Cut objectiveHeader rawMarkdown a b /\
      rawMarkdown = a ++ objectiveHeader ++ b /\
      restOfMarkdown rawMarkdown = objectiveHeader ++ b).
Proof.
  assert (Hne : objectiveHeader <> []) by discriminate.
  unfold restOfMarkdown, indexOf.
  destruct (Cut_or_absent objectiveHeader Hne rawMarkdown)
    as [H|(a & b & H)].
  - left. split; [exact H|]. now rewrite indexOf_go_absent.
  - right. exists a, b. split; [exact H|].
    pose proof (Cut_app _ _ _ _ H) as E. split; [exact E|].
    rewrite (indexOf_go_Cut _ _ _ _ H). cbn [Nat.add]. unfold substring.
    rewrite E at 1. now rewrite skipn_app, skipn_all, Nat.sub_diag.
Qed.

(** X17.  [handleSendToNotion] posts exactly when the body of the minutes
    is not empty.  With an empty body nothing is sent and the error is "No
    se pudo procesar la minuta para Notion."; otherwise the payload carries
    the blocks of the body, at least one, the title of the body or "Minuta
    de Reunión", and the trimmed summary, and the send counts as a success
    exactly when the response is [ok]. *)
Theorem send_to_notion (now : jsstring) (r : response) (minutes : jsstring) :
  (rawMarkdown minutes = [] /\
   handleSendToNotion now r minutes
   = {| posted := None; notionSendSuccess := false;
        error := Some cannotProcess |}) \/
  (rawMarkdown minutes <> [] /\
   posted (handleSendToNotion now r minutes)
   = Some {| titulo := Title.payloadTitle (rawMarkdown minutes);
             resumen := summaryText minutes;
             fecha := now;
             bloques_notion :=
               Notion.parseMarkdownToNotionBlocks (rawMarkdown minutes) |} /\
   Notion.parseMarkdownToNotionBlocks (rawMarkdown minutes) <> [] /\
   (notionSendSuccess (handleSendToNotion now r minutes) = true <-> r = Ok) /\
   (error (handleSendToNotion now r minutes) = None <-> r = Ok)).
Proof.
  pose proof (rawMarkdown_blocks minutes) as H.
  unfold handleSendToNotion.
  destruct (Notion.parseMarkdownToNotionBlocks (rawMarkdown minutes))
    as [|b bs] eqn:E.
  - left. split; [now apply H|reflexivity].
  - right. split; [intros F; apply H in F; discriminate F|].
    split; [now destruct r|]. split; [discriminate|].
    destruct r; cbn; split; split; congruence.
Qed.

(** X18.  On minutes without the [---] delimiter: "Copiar Markdown" writes
    the empty string to the clipboard and still reports a copy; "Copiar
    con Formato" does nothing, whatever the clipboard would answer; the
    summary button copies the whole trimmed text, if any; and nothing is
    posted to the webhook. *)
Theorem copy_without_delimiter (minutes : jsstring) :
  includes delimiter minutes = false ->
  handleCopy minutes
  = {| written := Some (Text []); copied := true; errorSet := None |} /\
  (forall w, handleCopyFormatted w minutes = nothing) /\
  handleCopySummary minutes
  = (if nonBlank minutes
     then {| written := Some (Text (trim minutes)); copied := true;
             errorSet := None |}
     else nothing) /\
  (forall now r, posted (handleSendToNotion now r minutes) = None).
Proof.
  intros H. pose proof (rawMarkdown_absent minutes H) as Hr.
  pose proof (summaryText_absent minutes H) as Hs.
  repeat split.
  - unfold handleCopy. now rewrite Hr.
  - intros w. unfold handleCopyFormatted. now rewrite Hr.
  - unfold handleCopySummary, nonBlank. now rewrite Hs.
  - intros now r. unfold handleSendToNotion. now rewrite Hr.
Qed.

Lemma copy_without_delimiter_witness :
  handleCopy (str "Resumen sin cuerpo")
  = {| written := Some (Text []); copied := true; errorSet := None |}.
Proof.
  apply (copy_without_delimiter (str "Resumen sin cuerpo")). reflexivity.
Defined.

End DoneViewExtras.
